(** * Verification of the query comparison service

    Shallow embedding of [compare_queries] from
    [backend/services/comparator.py], together with the part of the pandas
    API that function relies on: [DataFrame.rename], [pd.merge] with
    [how='outer'], [indicator=True] and the suffixes
    [('_query1', '_query2')], boolean row selection, [iterrows], [head] and
    [to_dict('records')].

    The two query results [df1] and [df2] (what [pd.read_sql] returned) are
    the inputs of the embedding; the database connection and the wall-clock
    [execution_time] field of the summary are left out.  Exceptions are
    results: a call either returns a report or raises.

    What is taken from pandas:
    - the keys of a merge are resolved before anything else, a key that is
      not a column raising [KeyError];
    - rows whose keys are equal are paired, every left row with every right
      row of the same key, rows without partner are kept once, and missing
      key values ([None], [nan]) are equal to each other;
    - a non-key label present in both frames receives the two suffixes, and
      the [_merge] column comes last;
    - the key groups are emitted in order of first appearance.  (pandas'
      order of the groups depends on its version; the statements below only
      use that the previews are prefixes of the categories in the order of
      the merged frame.)
    - the dtype checks and conversions of a merge are not part of the
      embedding: cells are kept as they are.

    After the comparison come the parts of
    [backend/services/result_formatter.py] that compute with a report (match
    rate and status, the rows and columns the markdown report lists, the row
    counts of a report package), the connection string of
    [backend/database/db.py], and [extract_columns] of
    [backend/services/query_parser.py] and [validate_sql] of
    [backend/utils/validator.py], from the tokens of the statement. *)

From Stdlib Require Import ZArith String Ascii List Lia QArith.
From stdpp Require Import base list strings gmap pretty.

#[local] Set Warnings "-clear-no-such-hyp".

(** ** Cell values

    The scalars a cell can hold: Python's [None], the float [nan] pandas uses
    for missing data, integers and text.  Cells are modelled as pandas keeps
    them in columns of dtype [object] and [int64]; floating point columns
    (and the promotion of an integer column to [float64] when a merge has to
    fill it with [nan]) are outside this model. *)

Inductive value :=
  | VNone
  | VNaN
  | VInt (z : Z)
  | VStr (s : string).

#[global] Instance value_eq_dec : EqDecision value.
Proof. solve_decision. Defined.

(** Python's [str(v)]. *)
Definition str (v : value) : string :=
  match v with
  | VNone => "None"
  | VNaN => "nan"
  | VInt z => pretty z
  | VStr s => s
  end.

(** The values a merge hands over as they are, whatever else is in their
    column: text and nulls. *)
Definition text_or_null (v : value) : bool :=
  match v with
  | VInt _ => false
  | _ => true
  end.

(** [pd.isna(v)]. *)
Definition isna (v : value) : bool :=
  match v with
  | VNone | VNaN => true
  | _ => false
  end.

(** ** Exceptions and the error monad *)

Inductive error :=
  | KeyError (k : string)             (* label [k] is not a column *)
  | ValueError_not_unique (k : string) (* "The column label 'k' is not unique" *)
  | ValueError_indicator (c : string)  (* indicator name already a column *)
  | IndexError_no_keys                 (* [on=[]]: no key to join on *)
  | MergeError_suffixes.               (* suffixes would create duplicate columns *)

Inductive result (A : Type) :=
  | Ok (a : A)
  | Err (e : error).
Arguments Ok {A} a.
Arguments Err {A} e.

#[global] Instance result_ret : MRet result := λ A a, Ok a.
#[global] Instance result_bind : MBind result := λ A B f m,
  match m with
  | Ok a => f a
  | Err e => Err e
  end.

Definition raise_if {A} (b : bool) (e : error) (k : result A) : result A :=
  if b then Err e else k.

(** ** Data frames *)

Record DataFrame := {
  columns : list string;
  rows : list (list value)
}.

(** [len(df)] *)
Definition len (df : DataFrame) : nat := length (rows df).

(** Position of the first column carrying the label [c]. *)
Fixpoint label_index (cols : list string) (c : string) : option nat :=
  match cols with
  | [] => None
  | c' :: cols' =>
      if decide (c' = c) then Some 0 else S <$> label_index cols' c
  end.

(** [row[c]] for a row laid out along [cols].  On frames with distinct labels
    this is the scalar pandas returns; a label that is not there reads as
    [nan] (the callers below only read labels that exist).  Under a repeated
    label pandas returns all the cells it stands for, and the first is read
    here: the statements about compared cells assume distinct labels. *)
Definition cell (cols : list string) (row : list value) (c : string) : value :=
  default VNaN (i ← label_index cols c; row !! i).

(** ** Column mapping *)

Module Mapping.
Record t := {
  left : string;
  right : string
}.
End Mapping.

(** The loop [for m in mappings: mapping_dict[m['left']] = m['right']]. *)
Definition mapping_dict (mappings : list Mapping.t) : gmap string string :=
  foldl (λ d m, <[Mapping.left m := Mapping.right m]> d) ∅ mappings.

(** [df.rename(columns=d)]: every label that is a key of [d] is replaced by
    its image, every other label is kept. *)
Definition rename (d : gmap string string) (df : DataFrame) : DataFrame :=
  {| columns := (λ c, default c (d !! c)) <$> columns df;
     rows := rows df |}.

(** [[col for col in df1.columns if col in df2_renamed.columns]] *)
Definition common_columns (df1 df2_renamed : DataFrame) : list string :=
  filter (λ col, col ∈ columns df2_renamed) (columns df1).

(** [primary_keys if primary_keys else common_columns[:1]] *)
Definition join_keys (primary_keys common : list string) : list string :=
  match primary_keys with
  | [] => take 1 common
  | _ => primary_keys
  end.

(** ** The outer merge *)

Abbreviation key := (list value).

(** Equality of two key cells as the merge sees it: equal integers, equal
    text, and any two missing values ([None] or [nan]) land in the same
    group. *)
Definition key_value_eqb (a b : value) : bool :=
  match a, b with
  | VInt x, VInt y => bool_decide (x = y)
  | VStr x, VStr y => bool_decide (x = y)
  | VInt _, _ | VStr _, _ => false
  | _, _ => isna b
  end.

Fixpoint key_eqb (k1 k2 : key) : bool :=
  match k1, k2 with
  | [], [] => true
  | a :: k1', b :: k2' => key_value_eqb a b && key_eqb k1' k2'
  | _, _ => false
  end.

(** The distinct keys, in order of first appearance. *)
Fixpoint uniques (ks : list key) : list key :=
  match ks with
  | [] => []
  | k :: ks' => k :: filter (λ k', key_eqb k k' = false) (uniques ks')
  end.

(** Positions (counted from [i]) of the rows of [ks] whose key is [g]. *)
Fixpoint positions (g : key) (ks : list key) (i : nat) : list nat :=
  match ks with
  | [] => []
  | k :: ks' =>
      (if key_eqb g k then [i] else []) ++ positions g ks' (S i)
  end.

(** One output row of the join: the position of the left row and of the right
    row it is made of ([None] where pandas' indexer holds [-1]). *)
Abbreviation entry := (option nat * option nat)%type.

(** The rows one key group contributes: the cross product of its left and
    right rows, or its rows of the one side that has any. *)
Definition group_entries (lkeys rkeys : list key) (g : key) : list entry :=
  let ls := positions g lkeys 0 in
  let rs := positions g rkeys 0 in
  match ls, rs with
  | _, [] => (λ i, (Some i, None)) <$> ls
  | [], _ => (λ j, (None, Some j)) <$> rs
  | _, _ => i ← ls; (λ j, (Some i, Some j)) <$> rs
  end.

(** The full outer join of the two key columns, group after group, the
    groups in the order in which their keys first appear.  (pandas orders the
    groups by key from version 2.2 on; the statements below refer to the
    order of the merged frame only as the order of its own rows.) *)
Definition full_outer_join (lkeys rkeys : list key) : list entry :=
  g ← uniques (lkeys ++ rkeys); group_entries lkeys rkeys g.

(** The value of the [_merge] column. *)
Definition indicator (e : entry) : value :=
  match e with
  | (Some _, Some _) => VStr "both"
  | (Some _, None) => VStr "left_only"
  | (None, _) => VStr "right_only"
  end.

(** [df._get_label_or_level_values(k)]: the label must name exactly one
    column. *)
Definition check_label (cols : list string) (k : string) : result unit :=
  match length (filter (λ c, c = k) cols) with
  | 0 => Err (KeyError k)
  | 1 => Ok ()
  | _ => Err (ValueError_not_unique k)
  end.

(** [_get_merge_keys]: each key is resolved in the right frame, then in the
    left one. *)
Fixpoint get_merge_keys (lcols rcols : list string) (on : list string)
  : result unit :=
  match on with
  | [] => Ok ()
  | k :: on' =>
      check_label rcols k ;;
      (check_label lcols k ;; get_merge_keys lcols rcols on')
  end.

(** [_indicator_pre_merge]: the names the indicator needs must be free. *)
Definition indicator_pre_merge (lcols rcols : list string) : result unit :=
  match filter (λ i, i ∈ lcols ++ rcols)
               ["_left_indicator"; "_right_indicator"; "_merge"] with
  | [] => Ok ()
  | i :: _ => Err (ValueError_indicator i)
  end.

(** The labels both frames have, the join keys apart: these receive the
    suffixes. *)
Definition overlap (lcols rcols on : list string) (c : string) : bool :=
  bool_decide (c ∈ lcols) && bool_decide (c ∈ rcols) && bool_decide (c ∉ on).

Definition add_suffix (lcols rcols on : list string) (suffix : string)
    (c : string) : string :=
  if overlap lcols rcols on c then c +:+ suffix else c.

(** The labels that are duplicates after the renaming but were not before
    ([_items_overlap_with_suffix]). *)
Fixpoint suffix_dups (old new : list string) (seen_old seen_new : list string)
  : list string :=
  match old, new with
  | o :: old', n :: new' =>
      (if bool_decide (n ∈ seen_new) && bool_decide (o ∉ seen_old)
       then [n] else [])
      ++ suffix_dups old' new' (o :: seen_old) (n :: seen_new)
  | _, _ => []
  end.

(** The labels of the left frame in the result. *)
Definition left_labels (df1 df2 : DataFrame) (on : list string)
  : list string :=
  add_suffix (columns df1) (columns df2) on "_query1" <$> columns df1.

(** The columns of the right frame that are not join keys: the key columns
    of the result are the left frame's. *)
Definition right_columns (df2 : DataFrame) (on : list string) : list string :=
  filter (λ c, c ∉ on) (columns df2).

Definition right_labels (df1 df2 : DataFrame) (on : list string)
  : list string :=
  add_suffix (columns df1) (columns df2) on "_query2" <$> right_columns df2 on.

Definition merged_columns (df1 df2 : DataFrame) (on : list string)
  : list string :=
  left_labels df1 df2 on ++ right_labels df1 df2 on ++ ["_merge"].

(** The key of a row: its cells in the columns [on]. *)
Definition key_of (on : list string) (df : DataFrame) (row : list value)
  : key :=
  (λ k, cell (columns df) row k) <$> on.

(** The row of the result for one entry of the join: the left frame's
    columns (a key column of a right-only row takes the right row's key), the
    right frame's other columns, and the indicator.  A side that is missing
    is filled with [nan].  The cells of the rows are handed over as they are:
    pandas turns a column of integers into floats when it fills it, which is
    not part of the embedding, and the statements about the cells of a
    column that is filled leave integers out ([cells_kept],
    [text_or_null]). *)
Definition concat_row (df1 df2 : DataFrame) (on : list string) (e : entry)
  : list value :=
  let l := e.1 ≫= (rows df1 !!.) in
  let r := e.2 ≫= (rows df2 !!.) in
  imap (λ p c,
    match l with
    | Some lrow => default VNaN (lrow !! p)
    | None =>
        if decide (c ∈ on)
        then from_option (λ rrow, cell (columns df2) rrow c) VNaN r
        else VNaN
    end) (columns df1)
  ++ ((λ c, from_option (λ rrow, cell (columns df2) rrow c) VNaN r)
        <$> right_columns df2 on)
  ++ [indicator e].

(** [pd.merge(df1, df2, on=on, how='outer',
             suffixes=('_query1', '_query2'), indicator=True)] *)
Definition merge (df1 df2 : DataFrame) (on : list string)
  : result DataFrame :=
  get_merge_keys (columns df1) (columns df2) on ;;
  indicator_pre_merge (columns df1) (columns df2) ;;
  raise_if (bool_decide (on = [])) IndexError_no_keys (
  raise_if (bool_decide
    (suffix_dups (columns df1) (left_labels df1 df2 on) [] [] ++
     suffix_dups (right_columns df2 on) (right_labels df1 df2 on) [] [] ≠ []))
    MergeError_suffixes (
  Ok {| columns := merged_columns df1 df2 on;
        rows := concat_row df1 df2 on <$>
          full_outer_join (key_of on df1 <$> rows df1)
                          (key_of on df2 <$> rows df2) |})).

(** [merged[merged['_merge'] == tag]] *)
Definition select (merged : DataFrame) (tag : string) : DataFrame :=
  {| columns := columns merged;
     rows := filter (λ row, cell (columns merged) row "_merge" = VStr tag)
                    (rows merged) |}.

(** [df.head(n).to_dict('records')]: one dictionary per row. *)
Definition to_record (cols : list string) (row : list value)
  : gmap string value :=
  foldl (λ d kv, <[kv.1 := kv.2]> d) ∅ (zip cols row).

Definition head_records (n : nat) (df : DataFrame)
  : list (gmap string value) :=
  to_record (columns df) <$> take n (rows df).

(** [df.empty]: one of the two axes has length 0. *)
Definition empty (df : DataFrame) : bool :=
  bool_decide (rows df = []) || bool_decide (columns df = []).

(** [df.head(100).to_dict('records') if not df.empty else []] *)
Definition preview (df : DataFrame) : list (gmap string value) :=
  if empty df then [] else head_records 100 df.

(** ** The comparison *)

Record Mismatch := {
  key_values : gmap string value;
  differences : gmap string (value * value)
}.

Record Summary := {
  total_rows_query1 : nat;
  total_rows_query2 : nat;
  matches_count : nat;
  only_in_query1_count : nat;
  only_in_query2_count : nat;
  mismatches_count : nat
}.

Record Report := {
  summary : Summary;
  matches : list (gmap string value);
  only_in_query1 : list (gmap string value);
  only_in_query2 : list (gmap string value);
  mismatches : list Mismatch;
  columns_query1 : list string;
  columns_query2 : list string;
  columns_mapped : list string
}.

(** The body of the loop over [common_columns], for the column [col] of one
    row of [matches]; [d] is [row_mismatches]. *)
Definition compare_step (on cols : list string) (row : list value)
    (d : gmap string (value * value)) (col : string)
  : gmap string (value * value) :=
  if decide (col ∈ on) then d else
  let val1 := cell cols row (col +:+ "_query1") in
  let val2 := cell cols row (col +:+ "_query2") in
  if decide (str val1 ≠ str val2) then <[col := (val1, val2)]> d else d.

(** [row_mismatches] after the loop over [common_columns]. *)
Definition row_mismatches (common on cols : list string) (row : list value)
  : gmap string (value * value) :=
  foldl (compare_step on cols row) ∅ common.

(** [{k: row[k] for k in join_keys}] *)
Definition row_key (on cols : list string) (row : list value)
  : gmap string value :=
  foldl (λ d k, <[k := cell cols row k]> d) ∅ on.

(** The record appended for a row whose [row_mismatches] is not empty. *)
Definition mismatch_record (common on cols : list string) (row : list value)
  : Mismatch :=
  {| key_values := row_key on cols row;
     differences := row_mismatches common on cols row |}.

(** The loop [for idx, row in matches.iterrows()]. *)
Definition find_mismatches (common on : list string) (matches : DataFrame)
  : list Mismatch :=
  row ← rows matches;
  if decide (row_mismatches common on (columns matches) row = ∅) then []
  else [mismatch_record common on (columns matches) row].

(** Column [col] of a row of [matches] is compared and differs. *)
Definition differs (on cols : list string) (row : list value) (col : string)
  : Prop :=
  (col ∉ on) ∧
  str (cell cols row (col +:+ "_query1")) ≠
  str (cell cols row (col +:+ "_query2")).

#[global] Instance differs_dec on cols row col :
  Decision (differs on cols row col).
Proof. unfold differs. apply _. Defined.

Definition has_difference (common on cols : list string) (row : list value)
  : Prop :=
  Exists (differs on cols row) common.

#[global] Instance Mismatch_eq_dec : EqDecision Mismatch.
Proof. solve_decision. Defined.

(** [compare_queries(connection_params, query1, query2, mappings,
    primary_keys)], from the two frames read on.  ([reverse_map] is built by
    the source and never read.) *)
Definition compare_queries (df1 df2 : DataFrame) (mappings : list Mapping.t)
    (primary_keys : list string) : result Report :=
  let df2_renamed := rename (mapping_dict mappings) df2 in
  let common := common_columns df1 df2_renamed in
  let on := join_keys primary_keys common in
  merged ← merge df1 df2_renamed on;
  let matches := select merged "both" in
  let only_query1 := select merged "left_only" in
  let only_query2 := select merged "right_only" in
  let mismatches := find_mismatches common on matches in
  Ok {| summary := {|
          total_rows_query1 := len df1;
          total_rows_query2 := len df2;
          matches_count := len matches;
          only_in_query1_count := len only_query1;
          only_in_query2_count := len only_query2;
          mismatches_count := length mismatches |};
        matches := preview matches;
        only_in_query1 := preview only_query1;
        only_in_query2 := preview only_query2;
        mismatches := take 100 mismatches;
        columns_query1 := columns df1;
        columns_query2 := columns df2;
        columns_mapped := common |}.

(** ** The example of the specification *)

Definition ex_left : DataFrame :=
  {| columns := ["id"; "name"];
     rows := [[VInt 1; VStr "A"]; [VInt 2; VStr "B"]] |}.

Definition ex_right : DataFrame :=
  {| columns := ["id"; "name"];
     rows := [[VInt 1; VStr "A"]; [VInt 2; VStr "C"]; [VInt 3; VStr "D"]] |}.

Definition ex_report : Report :=
  {| summary := {|
       total_rows_query1 := 2;
       total_rows_query2 := 3;
       matches_count := 2;
       only_in_query1_count := 0;
       only_in_query2_count := 1;
       mismatches_count := 1 |};
     matches :=
       [ list_to_map [("id", VInt 1); ("name_query1", VStr "A");
                      ("name_query2", VStr "A"); ("_merge", VStr "both")];
         list_to_map [("id", VInt 2); ("name_query1", VStr "B");
                      ("name_query2", VStr "C"); ("_merge", VStr "both")] ];
     only_in_query1 := [];
     only_in_query2 :=
       [ list_to_map [("id", VInt 3); ("name_query1", VNaN);
                      ("name_query2", VStr "D");
                      ("_merge", VStr "right_only")] ];
     mismatches :=
       [ {| key_values := {["id" := VInt 2]};
            differences := {["name" := (VStr "B", VStr "C")]} |} ];
     columns_query1 := ["id"; "name"];
     columns_query2 := ["id"; "name"];
     columns_mapped := ["id"; "name"] |}.

(** ** Notions used in the statements *)

(** A left row and a right row are partners when their keys are equal. *)
Definition partners (lkeys rkeys : list key) (i j : nat) : Prop :=
  ∃ a b, lkeys !! i = Some a ∧ rkeys !! j = Some b ∧ key_eqb a b = true.

(** A left row without partner. *)
Definition unmatched_left (lkeys rkeys : list key) (i : nat) : Prop :=
  ∃ a, lkeys !! i = Some a ∧ ∀ b, b ∈ rkeys → key_eqb a b = false.

(** A right row without partner. *)
Definition unmatched_right (lkeys rkeys : list key) (j : nat) : Prop :=
  ∃ b, rkeys !! j = Some b ∧ ∀ a, a ∈ lkeys → key_eqb a b = false.

(** The join index of the two frames on the keys [on]. *)
Definition join_index (df1 df2 : DataFrame) (on : list string) : list entry :=
  full_outer_join (key_of on df1 <$> rows df1) (key_of on df2 <$> rows df2).

(** The entries of one category. *)
Definition category (df1 df2 : DataFrame) (on : list string) (tag : string)
  : list entry :=
  filter (λ e, indicator e = VStr tag) (join_index df1 df2 on).

(** No two rows of a frame have equal keys. *)
Definition unique_keys (ks : list key) : Prop :=
  ∀ i j a b, ks !! i = Some a → ks !! j = Some b →
    key_eqb a b = true → i = j.

(** The number of rows among [ks] whose key equals [a]. *)
Definition partner_count (a : key) (ks : list key) : nat :=
  length (filter (λ b, key_eqb a b = true) ks).

(** The shape of an entry: a left row with a right row, a left row alone, a
    right row alone. *)
Definition is_pair (e : entry) : bool :=
  match e with
  | (Some _, Some _) => true
  | _ => false
  end.

Definition is_left_alone (e : entry) : bool :=
  match e with
  | (Some _, None) => true
  | _ => false
  end.

Definition is_right_alone (e : entry) : bool :=
  match e with
  | (None, Some _) => true
  | _ => false
  end.





(** The exceptions a missing or ambiguous join key makes [pd.merge] raise. *)
Definition schema_mismatch (e : error) : Prop :=
  match e with
  | KeyError _ | ValueError_not_unique _ => True
  | _ => False
  end.

(** ** Further inputs used as examples *)

(** 101 pairs of rows with equal keys that all differ in [name]. *)
Definition big_left : DataFrame :=
  {| columns := ["id"; "name"];
     rows := (λ i, [VInt (Z.of_nat i); VStr "A"]) <$> seq 0 101 |}.

Definition big_right : DataFrame :=
  {| columns := ["id"; "name"];
     rows := (λ i, [VInt (Z.of_nat i); VStr "B"]) <$> seq 0 101 |}.

(** The merged frame of [big_left] and [big_right]. *)
Definition big_merged : DataFrame :=
  {| columns := ["id"; "name_query1"; "name_query2"; "_merge"];
     rows := (λ i, [VInt (Z.of_nat i); VStr "A"; VStr "B"; VStr "both"])
               <$> seq 0 101 |}.

(** The report on [big_left] and [big_right]. *)
Definition big_report : Report :=
  let matches := select big_merged "both" in
  let found := find_mismatches ["id"; "name"] ["id"] matches in
  {| summary := {|
       total_rows_query1 := 101;
       total_rows_query2 := 101;
       matches_count := 101;
       only_in_query1_count := 0;
       only_in_query2_count := 0;
       mismatches_count := 101 |};
     matches := preview matches;
     only_in_query1 := [];
     only_in_query2 := [];
     mismatches := take 100 found;
     columns_query1 := ["id"; "name"];
     columns_query2 := ["id"; "name"];
     columns_mapped := ["id"; "name"] |}.

(** A mapped column: [name] on the left, [full_name] on the right. *)
Definition map_left : DataFrame :=
  {| columns := ["id"; "name"]; rows := [[VInt 1; VStr "A"]] |}.

Definition map_right : DataFrame :=
  {| columns := ["id"; "full_name"]; rows := [[VInt 1; VStr "B"]] |}.

Definition map_pairs : list Mapping.t :=
  [ {| Mapping.left := "name"; Mapping.right := "full_name" |} ].

Definition map_report : Report :=
  {| summary := {|
       total_rows_query1 := 1;
       total_rows_query2 := 1;
       matches_count := 1;
       only_in_query1_count := 0;
       only_in_query2_count := 0;
       mismatches_count := 0 |};
     matches :=
       [ list_to_map [("id", VInt 1); ("name", VStr "A");
                      ("full_name", VStr "B"); ("_merge", VStr "both")] ];
     only_in_query1 := [];
     only_in_query2 := [];
     mismatches := [];
     columns_query1 := ["id"; "name"];
     columns_query2 := ["id"; "full_name"];
     columns_mapped := ["id"] |}.

(** Mappings with a repeated left name and a repeated right target. *)
Definition dup_left_pairs : list Mapping.t :=
  [ {| Mapping.left := "name"; Mapping.right := "label" |};
    {| Mapping.left := "name"; Mapping.right := "title" |} ].

Definition same_target_pairs : list Mapping.t :=
  [ {| Mapping.left := "name"; Mapping.right := "label" |};
    {| Mapping.left := "city"; Mapping.right := "label" |} ].

(** A null in the key column on both sides. *)
Definition null_left : DataFrame :=
  {| columns := ["id"; "name"]; rows := [[VNone; VStr "A"]] |}.

Definition null_right : DataFrame :=
  {| columns := ["id"; "name"]; rows := [[VNone; VStr "B"]] |}.

(** A null against the text that is its string form: [None] against
    ["None"], [nan] against ["nan"]. *)
Definition none_left : DataFrame :=
  {| columns := ["id"; "status"]; rows := [[VInt 1; VNone]] |}.

Definition none_right : DataFrame :=
  {| columns := ["id"; "status"]; rows := [[VInt 1; VStr "None"]] |}.

Definition nan_left : DataFrame :=
  {| columns := ["id"; "status"]; rows := [[VInt 1; VNaN]] |}.

Definition nan_right : DataFrame :=
  {| columns := ["id"; "status"]; rows := [[VInt 1; VStr "nan"]] |}.

(** Closes a decidable goal by evaluation. *)
(** A key that two rows of each result have, a left row and a right row
    without partner. *)
Definition pair_left : DataFrame :=
  {| columns := ["id"; "name"];
     rows := [[VInt 1; VStr "A"]; [VInt 1; VStr "B"]; [VInt 2; VStr "C"]] |}.

Definition pair_right : DataFrame :=
  {| columns := ["id"; "name"];
     rows := [[VInt 1; VStr "A"]; [VInt 1; VStr "X"]; [VInt 3; VStr "D"]] |}.

Definition pair_report : Report :=
  {| summary := {|
       total_rows_query1 := 3;
       total_rows_query2 := 3;
       matches_count := 4;
       only_in_query1_count := 1;
       only_in_query2_count := 1;
       mismatches_count := 3 |};
     matches :=
       [ list_to_map [("id", VInt 1); ("name_query1", VStr "A");
                      ("name_query2", VStr "A"); ("_merge", VStr "both")];
         list_to_map [("id", VInt 1); ("name_query1", VStr "A");
                      ("name_query2", VStr "X"); ("_merge", VStr "both")];
         list_to_map [("id", VInt 1); ("name_query1", VStr "B");
                      ("name_query2", VStr "A"); ("_merge", VStr "both")];
         list_to_map [("id", VInt 1); ("name_query1", VStr "B");
                      ("name_query2", VStr "X"); ("_merge", VStr "both")] ];
     only_in_query1 :=
       [ list_to_map [("id", VInt 2); ("name_query1", VStr "C");
                      ("name_query2", VNaN);
                      ("_merge", VStr "left_only")] ];
     only_in_query2 :=
       [ list_to_map [("id", VInt 3); ("name_query1", VNaN);
                      ("name_query2", VStr "D");
                      ("_merge", VStr "right_only")] ];
     mismatches :=
       [ {| key_values := {["id" := VInt 1]};
            differences := {["name" := (VStr "A", VStr "X")]} |};
         {| key_values := {["id" := VInt 1]};
            differences := {["name" := (VStr "B", VStr "A")]} |};
         {| key_values := {["id" := VInt 1]};
            differences := {["name" := (VStr "B", VStr "X")]} |} ];
     columns_query1 := ["id"; "name"];
     columns_query2 := ["id"; "name"];
     columns_mapped := ["id"; "name"] |}.

(** An empty first result. *)
Definition empty_left : DataFrame :=
  {| columns := ["id"; "name"]; rows := [] |}.

Definition empty_report : Report :=
  {| summary := {|
       total_rows_query1 := 0;
       total_rows_query2 := 3;
       matches_count := 0;
       only_in_query1_count := 0;
       only_in_query2_count := 3;
       mismatches_count := 0 |};
     matches := [];
     only_in_query1 := [];
     only_in_query2 :=
       [ list_to_map [("id", VInt 1); ("name_query1", VNaN);
                      ("name_query2", VStr "A");
                      ("_merge", VStr "right_only")];
         list_to_map [("id", VInt 2); ("name_query1", VNaN);
                      ("name_query2", VStr "C");
                      ("_merge", VStr "right_only")];
         list_to_map [("id", VInt 3); ("name_query1", VNaN);
                      ("name_query2", VStr "D");
                      ("_merge", VStr "right_only")] ];
     mismatches := [];
     columns_query1 := ["id"; "name"];
     columns_query2 := ["id"; "name"];
     columns_mapped := ["id"; "name"] |}.

(** The first example result compared with itself. *)
Definition self_report : Report :=
  {| summary := {|
       total_rows_query1 := 2;
       total_rows_query2 := 2;
       matches_count := 2;
       only_in_query1_count := 0;
       only_in_query2_count := 0;
       mismatches_count := 0 |};
     matches :=
       [ list_to_map [("id", VInt 1); ("name_query1", VStr "A");
                      ("name_query2", VStr "A"); ("_merge", VStr "both")];
         list_to_map [("id", VInt 2); ("name_query1", VStr "B");
                      ("name_query2", VStr "B"); ("_merge", VStr "both")] ];
     only_in_query1 := [];
     only_in_query2 := [];
     mismatches := [];
     columns_query1 := ["id"; "name"];
     columns_query2 := ["id"; "name"];
     columns_mapped := ["id"; "name"] |}.

(** The two example results in the other order. *)
Definition exchanged_report : Report :=
  {| summary := {|
       total_rows_query1 := 3;
       total_rows_query2 := 2;
       matches_count := 2;
       only_in_query1_count := 1;
       only_in_query2_count := 0;
       mismatches_count := 1 |};
     matches :=
       [ list_to_map [("id", VInt 1); ("name_query1", VStr "A");
                      ("name_query2", VStr "A"); ("_merge", VStr "both")];
         list_to_map [("id", VInt 2); ("name_query1", VStr "C");
                      ("name_query2", VStr "B"); ("_merge", VStr "both")] ];
     only_in_query1 :=
       [ list_to_map [("id", VInt 3); ("name_query1", VStr "D");
                      ("name_query2", VNaN);
                      ("_merge", VStr "left_only")] ];
     only_in_query2 := [];
     mismatches :=
       [ {| key_values := {["id" := VInt 2]};
            differences := {["name" := (VStr "C", VStr "B")]} |} ];
     columns_query1 := ["id"; "name"];
     columns_query2 := ["id"; "name"];
     columns_mapped := ["id"; "name"] |}.

(** A result that shares no column with the examples. *)
Definition code_right : DataFrame :=
  {| columns := ["code"]; rows := [[VInt 1]] |}.

(** ** The result formatter

    The parts of [backend/services/result_formatter.py] that compute with the
    report: the match rate and the status of [to_html_report], the rows shown
    by [to_markdown], its table of unmapped columns, and the row counts of
    [ComparisonReportGenerator.generate_report_package].  The text around
    them is left out. *)

(** [summary.get("total_rows_query1", 0) + summary.get("total_rows_query2", 0)] *)
Definition total_rows (s : Summary) : nat :=
  total_rows_query1 s + total_rows_query2 s.

(** [(match_count / total_rows * 100) if total_rows > 0 else 0].  Python
    computes the quotient in binary floating point; it is read here as the
    exact quotient. *)
Definition match_percentage (s : Summary) : Q :=
  if decide (0 < total_rows s)
  then (inject_Z (Z.of_nat (matches_count s)) /
        inject_Z (Z.of_nat (total_rows s)) * 100)%Q
  else 0%Q.

(** The status badge of [to_html_report]. *)
Definition status_text (s : Summary) : string :=
  if Qle_bool 95 (match_percentage s) then "Excellent"
  else if Qle_bool 80 (match_percentage s) then "Good"
  else "Needs Review".

(** [to_markdown]: the mismatches written out, [formatted["mismatches"][:20]],
    and the number in the line ["... and n more mismatches"], written when
    there are more than 20. *)
Definition markdown_mismatches (result : Report) : list Mismatch :=
  take 20 (mismatches result).

Definition more_mismatches (result : Report) : option nat :=
  if decide (20 < length (mismatches result))
  then Some (length (mismatches result) - 20) else None.

(** [[c for c in query1_cols if c not in mapped_cols]] and the same for the
    second query. *)
Definition unmapped1 (result : Report) : list string :=
  filter (λ c, c ∉ columns_mapped result) (columns_query1 result).

Definition unmapped2 (result : Report) : list string :=
  filter (λ c, c ∉ columns_mapped result) (columns_query2 result).

(** The [row_count] entry of the metadata of [generate_report_package]. *)
Record RowCount := {
  row_count_matches : nat;
  row_count_mismatches : nat;
  row_count_only_query1 : nat;
  row_count_only_query2 : nat
}.

Definition row_count (result : Report) : RowCount :=
  {| row_count_matches := length (matches result);
     row_count_mismatches := length (mismatches result);
     row_count_only_query1 := length (only_in_query1 result);
     row_count_only_query2 := length (only_in_query2 result) |}.

(** ** The database connection

    [get_db_connection] of [backend/database/db.py].  The connection
    parameters are the JSON object kept in the session (or [None] when the
    session has none); [pyodbc.connect] is a parameter of the embedding: a
    function from the connection string to a connection or to the text of the
    exception it raises. *)

Inductive json :=
  | JNull
  | JBool (b : bool)
  | JNum (z : Z)
  | JStr (s : string).

(** What an f-string writes for a value. *)
Definition format_json (v : json) : string :=
  match v with
  | JNull => "None"
  | JBool true => "True"
  | JBool false => "False"
  | JNum z => pretty z
  | JStr s => s
  end.

(** Python's truth value of [d.get(k)]. *)
Definition truthy (v : option json) : bool :=
  match v with
  | None | Some JNull => false
  | Some (JBool b) => b
  | Some (JNum z) => negb (z =? 0)%Z
  | Some (JStr s) => negb (String.eqb s "")
  end.

(** A computation that returns or raises; an exception is kept as its
    [str]. *)
Inductive outcome (A : Type) :=
  | Return (a : A)
  | Raise (message : string).
Arguments Return {A} a.
Arguments Raise {A} message.

#[global] Instance outcome_ret : MRet outcome := @Return.
#[global] Instance outcome_bind : MBind outcome := λ A B f m,
  match m with Return a => f a | Raise msg => Raise msg end.

(** [params[k]]: a missing key raises [KeyError(k)], whose [str] is the key
    between quotes. *)
Definition getitem (params : gmap string json) (k : string) : outcome json :=
  match params !! k with
  | Some v => Return v
  | None => Raise ("'" +:+ k +:+ "'")
  end.

(** The body of the [try]: the connection string, up to [pyodbc.connect]. *)
Definition conn_str (connection_params : option (gmap string json))
  : outcome string :=
  match connection_params with
  | None => Raise "'NoneType' object is not subscriptable"
  | Some params =>
      server ← getitem params "server";
      database ← getitem params "database";
      username ← getitem params "username";
      password ← getitem params "password";
      let conn_str :=
        "DRIVER={ODBC Driver 17 for SQL Server};" +:+
        "SERVER=" +:+ format_json server +:+ ";" +:+
        "DATABASE=" +:+ format_json database +:+ ";" +:+
        "UID=" +:+ format_json username +:+ ";" +:+
        "PWD=" +:+ format_json password in
      if truthy (params !! "trusted_connection") then
        server ← getitem params "server";
        database ← getitem params "database";
        Return ("DRIVER={ODBC Driver 17 for SQL Server};" +:+
                "SERVER=" +:+ format_json server +:+ ";" +:+
                "DATABASE=" +:+ format_json database +:+ ";" +:+
                "Trusted_Connection=yes;")
      else Return conn_str
  end.

(** [get_db_connection(connection_params)]: every exception is raised again
    as [Exception("Connection failed: ...")]. *)
Definition get_db_connection {connection : Type}
    (connect : string → outcome connection)
    (connection_params : option (gmap string json)) : outcome connection :=
  match conn_str connection_params ≫= connect with
  | Return conn => Return conn
  | Raise e => Raise ("Connection failed: " +:+ e)
  end.

(** [test_connection(connection_params)]: the status and the message. *)
Definition test_connection {connection : Type}
    (connect : string → outcome connection)
    (connection_params : option (gmap string json)) : string * string :=
  match get_db_connection connect connection_params with
  | Return _ => ("success", "Connected successfully")
  | Raise e => ("error", e)
  end.

(** Parameters of a trusted connection, as a client may send them. *)
Definition trusted_params : gmap string json :=
  list_to_map [("server", JStr "db1"); ("database", JStr "sales");
               ("trusted_connection", JBool true)].

(** ** The query parser

    [extract_columns] of [backend/services/query_parser.py].  The tokens of
    the first statement, as [sqlparse.parse(query)[0].tokens] gives them, are
    the input: each has a token type ([None] for a group such as an
    identifier list) and its text.  The [str] methods are those of Python on
    ASCII text. *)

(** [c.isspace()] *)
Definition isspace (c : ascii) : bool :=
  let n := nat_of_ascii c in
  (9 <=? n) && (n <=? 13) || (28 <=? n) && (n <=? 32).

Definition upper_char (c : ascii) : ascii :=
  let n := nat_of_ascii c in
  if (97 <=? n) && (n <=? 122) then ascii_of_nat (n - 32) else c.

Definition lower_char (c : ascii) : ascii :=
  let n := nat_of_ascii c in
  if (65 <=? n) && (n <=? 90) then ascii_of_nat (n + 32) else c.

Fixpoint map_chars (f : ascii → ascii) (s : string) : string :=
  match s with
  | EmptyString => EmptyString
  | String c s' => String (f c) (map_chars f s')
  end.

(** [s.upper()] and [s.lower()] *)
Definition upper : string → string := map_chars upper_char.
Definition lower : string → string := map_chars lower_char.

Fixpoint lstrip (s : string) : string :=
  match s with
  | EmptyString => EmptyString
  | String c s' => if isspace c then lstrip s' else s
  end.

Fixpoint rstrip (s : string) : string :=
  match s with
  | EmptyString => EmptyString
  | String c s' =>
      match rstrip s' with
      | EmptyString => if isspace c then EmptyString else String c EmptyString
      | r => String c r
      end
  end.

(** [s.strip()] *)
Definition strip (s : string) : string := rstrip (lstrip s).

(** [s.split(sep)] for a separator of one character. *)
Fixpoint split (sep : ascii) (s : string) : list string :=
  match s with
  | EmptyString => [EmptyString]
  | String c s' =>
      if Ascii.eqb c sep then EmptyString :: split sep s'
      else match split sep s' with
           | piece :: pieces => String c piece :: pieces
           | [] => [String c EmptyString]
           end
  end.

(** [pat in s] *)
Fixpoint contains (pat s : string) : bool :=
  String.prefix pat s ||
  match s with
  | EmptyString => false
  | String _ s' => contains pat s'
  end.

(** [s.split(sep)[0]]: the text before the first [sep], all of [s] if there
    is none. *)
Fixpoint before (sep s : string) : string :=
  if String.prefix sep s then EmptyString
  else match s with
       | EmptyString => EmptyString
       | String c s' => String c (before sep s')
       end.

(** [s.split()]: the words between runs of whitespace. *)
Fixpoint split_whitespace (s : string) : list string :=
  match s with
  | EmptyString => []
  | String c s' =>
      if isspace c then split_whitespace s'
      else match s' with
           | EmptyString => [String c EmptyString]
           | String c' _ =>
               if isspace c' then String c EmptyString :: split_whitespace s'
               else match split_whitespace s' with
                    | word :: words => String c word :: words
                    | [] => [String c EmptyString]
                    end
           end
  end.

Inductive ttype :=
  | DML
  | Keyword
  | Whitespace
  | OtherType.

#[global] Instance ttype_eq_dec : EqDecision ttype.
Proof. solve_decision. Defined.

Module Token.
Record t := {
  ttype : option ttype;
  value : string
}.
End Token.

(** The body of the loop over [raw_columns]: the alias and the whitespace are
    removed from one item of the select list. *)
Definition clean_column (col : string) : string :=
  let col := strip col in
  if contains " as " (lower col) then strip (before " as " col)
  else if contains " " col then
    match split_whitespace col with
    | part :: _ :: _ => if String.eqb part "*" then col else part
    | _ => col
    end
  else col.

(** The columns of the text of the select list. *)
Definition select_list (column_text : string) : list string :=
  filter (λ col, col ≠ "" ∧ col ≠ "*")
         (clean_column <$> split "," column_text).

(** The loop over the tokens, with its flag [in_select]. *)
Fixpoint scan_tokens (in_select : bool) (tokens : list Token.t)
  : list string :=
  match tokens with
  | [] => []
  | token :: tokens' =>
      if bool_decide (Token.ttype token = Some DML) &&
         String.eqb (upper (Token.value token)) "SELECT"
      then scan_tokens true tokens'
      else if in_select && bool_decide (Token.ttype token = Some Keyword)
      then
        if bool_decide (upper (Token.value token) ∈
                          ["FROM"; "WHERE"; "GROUP BY"; "ORDER BY"])
        then []
        else scan_tokens in_select tokens'
      else if in_select && bool_decide (Token.ttype token = None)
      then select_list (Token.value token)
      else scan_tokens in_select tokens'
  end.

(** [extract_columns(query)], from the tokens of the statement. *)
Definition extract_columns (tokens : list Token.t) : list string :=
  take 20 (scan_tokens false tokens).

(** A character occurs in a text. *)
Fixpoint occurs (c : ascii) (s : string) : bool :=
  match s with
  | EmptyString => false
  | String c' s' => Ascii.eqb c' c || occurs c s'
  end.

(** A plain word: no whitespace and no comma. *)
Fixpoint plain (s : string) : bool :=
  match s with
  | EmptyString => true
  | String c s' => negb (isspace c) && negb (Ascii.eqb c ",") && plain s'
  end.

Definition select_token : Token.t :=
  {| Token.ttype := Some DML; Token.value := "SELECT" |}.

(** ** The validator

    [validate_sql] of [backend/utils/validator.py], from the statements
    [sqlparse.parse(query)] returned. *)

(** [token.is_whitespace] *)
Definition is_whitespace (token : Token.t) : bool :=
  bool_decide (Token.ttype token = Some Whitespace).

(** [statement.token_first()]: the first token that is not whitespace. *)
Fixpoint token_first (tokens : list Token.t) : option Token.t :=
  match tokens with
  | [] => None
  | token :: tokens' =>
      if is_whitespace token then token_first tokens' else Some token
  end.

(** [validate_sql(query)]: the verdict and the error message. *)
Definition validate_sql (parsed : list (list Token.t))
  : bool * option string :=
  match parsed with
  | [] => (false, Some "Empty query")
  | statement :: _ =>
      match token_first statement with
      | Some first_token =>
          if String.eqb (upper (Token.value first_token)) "SELECT"
          then (true, None)
          else (false, Some "Only SELECT queries are supported")
      | None => (false, Some "Only SELECT queries are supported")
      end
  end.

Definition space_token : Token.t :=
  {| Token.ttype := Some Whitespace; Token.value := " " |}.

Definition drop_token : Token.t :=
  {| Token.ttype := Some OtherType; Token.value := "DROP" |}.

Definition group_token (text : string) : Token.t :=
  {| Token.ttype := None; Token.value := text |}.

Ltac by_compute := refine (bool_decide_unpack _ _); vm_compute; exact I.

Lemma ex_compare :
  compare_queries ex_left ex_right [] ["id"] = Ok ex_report.
Proof. vm_compute. reflexivity. Qed.

(** ** Keys and groups *)

Section keys.
Implicit Types (a b c : value) (k g : key) (ks : list key).

Lemma key_value_eqb_refl a : key_value_eqb a a = true.
Proof. destruct a; simpl; try done; by apply bool_decide_eq_true. Qed.

Lemma key_value_eqb_sym a b : key_value_eqb a b = key_value_eqb b a.
Proof.
  destruct a, b; simpl; try done; apply bool_decide_ext; naive_solver.
Qed.

Lemma key_value_eqb_trans a b c :
  key_value_eqb a b = true → key_value_eqb b c = true →
  key_value_eqb a c = true.
Proof.
  destruct a, b, c; simpl; try done;
    rewrite !bool_decide_eq_true; congruence.
Qed.

Lemma key_eqb_refl k : key_eqb k k = true.
Proof.
  induction k as [|a k IH]; simpl; [done|].
  by rewrite key_value_eqb_refl, IH.
Qed.

Lemma key_eqb_sym k1 k2 : key_eqb k1 k2 = key_eqb k2 k1.
Proof.
  revert k2. induction k1 as [|a k1 IH]; intros [|b k2]; simpl; try done.
  by rewrite key_value_eqb_sym, IH.
Qed.

Lemma key_eqb_trans k1 k2 k3 :
  key_eqb k1 k2 = true → key_eqb k2 k3 = true → key_eqb k1 k3 = true.
Proof.
  revert k2 k3.
  induction k1 as [|a k1 IH]; intros [|b k2] [|c k3]; simpl; try done.
  rewrite !andb_true_iff. intros [Hab H12] [Hbc H23]. split.
  - by eapply key_value_eqb_trans.
  - by eapply IH.
Qed.

(** Two keys that agree with a third one on being different. *)
Lemma key_eqb_false_l k1 k2 k3 :
  key_eqb k1 k2 = true → key_eqb k1 k3 = false → key_eqb k2 k3 = false.
Proof.
  intros H12 H13. destruct (key_eqb k2 k3) eqn:H23; [|done].
  by rewrite (key_eqb_trans _ _ _ H12 H23) in H13.
Qed.

Lemma uniques_subseteq ks g : g ∈ uniques ks → g ∈ ks.
Proof.
  induction ks as [|k ks IH]; simpl; [done|].
  rewrite !elem_of_cons, list_elem_of_filter. naive_solver.
Qed.

Lemma uniques_cover ks k :
  k ∈ ks → ∃ g, g ∈ uniques ks ∧ key_eqb g k = true.
Proof.
  induction ks as [|k0 ks IH]; simpl; [by intros ?%not_elem_of_nil|].
  intros [->|Hin]%elem_of_cons.
  - exists k0. split; [by left|apply key_eqb_refl].
  - destruct (IH Hin) as (g & Hg & Hgk).
    destruct (key_eqb k0 g) eqn:H0g.
    + exists k0. split; [by left|by eapply key_eqb_trans].
    + exists g. split; [|done].
      right. by apply list_elem_of_filter.
Qed.

Lemma uniques_distinct ks g1 g2 :
  g1 ∈ uniques ks → g2 ∈ uniques ks → key_eqb g1 g2 = true → g1 = g2.
Proof.
  induction ks as [|k ks IH]; simpl; [by intros ?%not_elem_of_nil|].
  rewrite !elem_of_cons, !list_elem_of_filter.
  intros [->|[H1 Hin1]] [->|[H2 Hin2]] Heq; try done.
  - congruence.
  - rewrite key_eqb_sym in Heq. congruence.
  - by apply IH.
Qed.

Lemma NoDup_uniques ks : NoDup (uniques ks).
Proof.
  induction ks as [|k ks IH]; simpl; [constructor|].
  constructor; [|by apply NoDup_filter].
  rewrite list_elem_of_filter, key_eqb_refl. naive_solver.
Qed.

Lemma elem_of_positions g ks i j :
  j ∈ positions g ks i ↔
  i ≤ j ∧ ∃ k, ks !! (j - i) = Some k ∧ key_eqb g k = true.
Proof.
  revert i. induction ks as [|k ks IH]; intros i; simpl.
  - split; [by intros ?%not_elem_of_nil|]. by intros (_ & k & ? & _).
  - rewrite elem_of_app, IH. split.
    + intros [Hj|(Hle & k' & Hk' & Heq)].
      * destruct (key_eqb g k) eqn:Hgk; [|by apply not_elem_of_nil in Hj].
        apply list_elem_of_singleton in Hj as ->.
        split; [lia|]. exists k. by rewrite Nat.sub_diag.
      * split; [lia|]. exists k'. split; [|done].
        replace (j - i) with (S (j - S i)) by lia. done.
    + intros (Hle & k' & Hk' & Heq).
      destruct (decide (j = i)) as [->|Hne].
      * left. rewrite Nat.sub_diag in Hk'. simplify_eq/=.
        rewrite Heq. by apply list_elem_of_singleton.
      * right. split; [lia|]. exists k'. split; [|done].
        replace (j - i) with (S (j - S i)) in Hk' by lia. done.
Qed.

Lemma elem_of_positions_0 g ks j :
  j ∈ positions g ks 0 ↔ ∃ k, ks !! j = Some k ∧ key_eqb g k = true.
Proof.
  rewrite elem_of_positions, Nat.sub_0_r. split; [naive_solver|].
  intros ?. split; [lia|done].
Qed.

Lemma positions_nil g ks i :
  positions g ks i = [] ↔ ∀ k, k ∈ ks → key_eqb g k = false.
Proof.
  revert i. induction ks as [|k ks IH]; intros i; simpl.
  - split; [|done]. by intros _ k ?%not_elem_of_nil.
  - split.
    + intros [H1 H2]%app_eq_nil k' [->|Hin]%elem_of_cons.
      * by destruct (key_eqb g k).
      * by eapply IH.
    + intros Hall. rewrite (Hall k) by by left. simpl.
      apply IH. intros k' Hin. apply Hall. by right.
Qed.

Lemma NoDup_positions g ks i : NoDup (positions g ks i).
Proof.
  revert i. induction ks as [|k ks IH]; intros i; simpl; [constructor|].
  apply NoDup_app. split_and!.
  - destruct (key_eqb g k); [apply NoDup_singleton|constructor].
  - intros j Hj Hj'. apply elem_of_positions in Hj' as [Hle _].
    destruct (key_eqb g k); [|by apply not_elem_of_nil in Hj].
    apply list_elem_of_singleton in Hj. lia.
  - apply IH.
Qed.

(** The rows of a group are the rows counted by a filter. *)
Lemma length_positions g ks i :
  length (positions g ks i) = length (filter (λ k, key_eqb g k = true) ks).
Proof.
  revert i. induction ks as [|k ks IH]; intros i; simpl; [done|].
  rewrite length_app, IH.
  destruct (key_eqb g k) eqn:Hgk; simpl.
  - by rewrite filter_cons_True.
  - rewrite filter_cons_False; [done|congruence].
Qed.

Lemma positions_proper g1 g2 ks i :
  key_eqb g1 g2 = true → positions g1 ks i = positions g2 ks i.
Proof.
  intros Heq. revert i. induction ks as [|k ks IH]; intros i; simpl; [done|].
  rewrite IH. f_equal.
  destruct (key_eqb g1 k) eqn:H1, (key_eqb g2 k) eqn:H2; try done.
  - rewrite (key_eqb_false_l g2 g1 k) in H1; [done| |done].
    by rewrite key_eqb_sym.
  - by rewrite (key_eqb_false_l g1 g2 k) in H2.
Qed.
End keys.

(** ** The join index *)

Section join.
Variables lkeys rkeys : list key.
Implicit Types (e : entry) (g : key) (i j : nat).

Lemma elem_of_group_entries g e :
  e ∈ group_entries lkeys rkeys g ↔
  match e with
  | (Some i, Some j) => i ∈ positions g lkeys 0 ∧ j ∈ positions g rkeys 0
  | (Some i, None) => i ∈ positions g lkeys 0 ∧ positions g rkeys 0 = []
  | (None, Some j) => j ∈ positions g rkeys 0 ∧ positions g lkeys 0 = []
  | (None, None) => False
  end.
Proof.
  unfold group_entries.
  destruct (positions g lkeys 0) as [|i0 ls] eqn:Hls,
           (positions g rkeys 0) as [|j0 rs] eqn:Hrs.
  - destruct e as [[i|] [j|]]; simpl;
      rewrite ?elem_of_nil; naive_solver.
  - rewrite list_elem_of_fmap. destruct e as [[i|] [j|]]; split;
      try naive_solver;
      rewrite ?elem_of_nil; naive_solver.
  - rewrite list_elem_of_fmap. destruct e as [[i|] [j|]]; split;
      try naive_solver;
      rewrite ?elem_of_nil; naive_solver.
  - rewrite list_elem_of_bind. destruct e as [[i|] [j|]]; split.
    + intros (i' & (j' & ? & Hj)%list_elem_of_fmap & Hi). by simplify_eq.
    + intros [Hi Hj]. exists i. split; [|done].
      apply list_elem_of_fmap. by exists j.
    + intros (i' & (j' & ? & Hj)%list_elem_of_fmap & Hi). done.
    + by intros [_ ?].
    + intros (i' & (j' & ? & Hj)%list_elem_of_fmap & Hi). done.
    + by intros [_ ?].
    + intros (i' & (j' & ? & Hj)%list_elem_of_fmap & Hi). done.
    + done.
Qed.

Lemma NoDup_group_entries g : NoDup (group_entries lkeys rkeys g).
Proof.
  unfold group_entries.
  pose proof (NoDup_positions g lkeys 0) as Hl.
  pose proof (NoDup_positions g rkeys 0) as Hr.
  destruct (positions g lkeys 0) as [|i0 ls],
           (positions g rkeys 0) as [|j0 rs].
  - constructor.
  - apply NoDup_fmap_2; [|done]. intros ???. by simplify_eq.
  - apply NoDup_fmap_2; [|done]. intros ???. by simplify_eq.
  - apply NoDup_bind; [| |done].
    + intros i1 i2 e _ _ (? & ? & _)%list_elem_of_fmap
        (? & ? & _)%list_elem_of_fmap. by simplify_eq.
    + intros i _. apply NoDup_fmap_2; [|done]. intros ???. by simplify_eq.
Qed.

(** The key of an entry's rows is the key of its group. *)
Lemma group_entries_key g e :
  e ∈ group_entries lkeys rkeys g →
  ∃ k, k ∈ lkeys ++ rkeys ∧ key_eqb g k = true ∧
       (from_option (λ i, lkeys !! i = Some k) False e.1 ∨
        (e.1 = None ∧ from_option (λ j, rkeys !! j = Some k) False e.2)).
Proof.
  rewrite elem_of_group_entries. destruct e as [[i|] [j|]]; simpl.
  - intros [(k & Hk & Hg)%elem_of_positions_0 _]. exists k.
    rewrite elem_of_app. split_and!; [left|done|by left].
    by eapply list_elem_of_lookup_2.
  - intros [(k & Hk & Hg)%elem_of_positions_0 _]. exists k.
    rewrite elem_of_app. split_and!; [left|done|by left].
    by eapply list_elem_of_lookup_2.
  - intros [(k & Hk & Hg)%elem_of_positions_0 _]. exists k.
    rewrite elem_of_app. split_and!; [right|done|by right].
    by eapply list_elem_of_lookup_2.
  - done.
Qed.

Lemma elem_of_full_outer_join e :
  e ∈ full_outer_join lkeys rkeys ↔
  ∃ g, g ∈ uniques (lkeys ++ rkeys) ∧ e ∈ group_entries lkeys rkeys g.
Proof.
  unfold full_outer_join. rewrite list_elem_of_bind. naive_solver.
Qed.

(** Every key that occurs has its representative among the groups. *)
Lemma group_of k :
  k ∈ lkeys ++ rkeys →
  ∃ g, g ∈ uniques (lkeys ++ rkeys) ∧ key_eqb g k = true.
Proof. apply uniques_cover. Qed.

Lemma full_outer_join_both i j :
  (Some i, Some j) ∈ full_outer_join lkeys rkeys ↔ partners lkeys rkeys i j.
Proof.
  rewrite elem_of_full_outer_join. unfold partners. split.
  - intros (g & _ & He). apply elem_of_group_entries in He as [Hi Hj].
    apply elem_of_positions_0 in Hi as (a & Ha & Hga).
    apply elem_of_positions_0 in Hj as (b & Hb & Hgb).
    exists a, b. split_and!; [done..|].
    eapply key_eqb_trans; [|done]. by rewrite key_eqb_sym.
  - intros (a & b & Ha & Hb & Hab).
    destruct (group_of a) as (g & Hg & Hga).
    { apply elem_of_app. left. by eapply list_elem_of_lookup_2. }
    exists g. split; [done|]. apply elem_of_group_entries.
    rewrite !elem_of_positions_0. split; [by exists a|].
    exists b. split; [done|]. by eapply key_eqb_trans.
Qed.

Lemma full_outer_join_left_only i :
  (Some i, None) ∈ full_outer_join lkeys rkeys ↔ unmatched_left lkeys rkeys i.
Proof.
  rewrite elem_of_full_outer_join. unfold unmatched_left. split.
  - intros (g & _ & He). apply elem_of_group_entries in He as [Hi Hnil].
    apply elem_of_positions_0 in Hi as (a & Ha & Hga).
    exists a. split; [done|]. intros b Hb.
    eapply key_eqb_false_l; [done|]. by eapply positions_nil.
  - intros (a & Ha & Hall).
    destruct (group_of a) as (g & Hg & Hga).
    { apply elem_of_app. left. by eapply list_elem_of_lookup_2. }
    exists g. split; [done|]. apply elem_of_group_entries.
    rewrite elem_of_positions_0. split; [by exists a|].
    apply positions_nil. intros b Hb.
    eapply key_eqb_false_l; [|by apply Hall]. by rewrite key_eqb_sym.
Qed.

Lemma full_outer_join_right_only j :
  (None, Some j) ∈ full_outer_join lkeys rkeys ↔ unmatched_right lkeys rkeys j.
Proof.
  rewrite elem_of_full_outer_join. unfold unmatched_right. split.
  - intros (g & _ & He). apply elem_of_group_entries in He as [Hj Hnil].
    apply elem_of_positions_0 in Hj as (b & Hb & Hgb).
    exists b. split; [done|]. intros a Ha.
    rewrite key_eqb_sym.
    eapply key_eqb_false_l; [done|]. by eapply positions_nil.
  - intros (b & Hb & Hall).
    destruct (group_of b) as (g & Hg & Hgb).
    { apply elem_of_app. right. by eapply list_elem_of_lookup_2. }
    exists g. split; [done|]. apply elem_of_group_entries.
    rewrite elem_of_positions_0. split; [by exists b|].
    apply positions_nil. intros a Ha.
    eapply key_eqb_false_l; [by rewrite key_eqb_sym|].
    rewrite key_eqb_sym. by apply Hall.
Qed.

Lemma full_outer_join_no_empty_entry :
  (None, None) ∉ full_outer_join lkeys rkeys.
Proof.
  rewrite elem_of_full_outer_join. intros (g & _ & He).
  by apply elem_of_group_entries in He.
Qed.

Lemma NoDup_full_outer_join : NoDup (full_outer_join lkeys rkeys).
Proof.
  unfold full_outer_join. apply NoDup_bind.
  - intros g1 g2 e Hg1 Hg2 He1 He2.
    apply (uniques_distinct (lkeys ++ rkeys)); [done..|].
    apply group_entries_key in He1 as (k1 & _ & Hk1 & Hor1).
    apply group_entries_key in He2 as (k2 & _ & Hk2 & Hor2).
    assert (k1 = k2) as <-.
    { destruct e as [[i|] [j|]]; simpl in *;
        destruct Hor1 as [?|[? ?]], Hor2 as [?|[? ?]]; try done;
        congruence. }
    eapply key_eqb_trans; [done|]. by rewrite key_eqb_sym.
  - intros g _. apply NoDup_group_entries.
  - apply NoDup_uniques.
Qed.
End join.

(** ** Labels and cells *)

Section labels.
Implicit Types (cols : list string) (row : list value) (c : string).

Lemma label_index_Some cols c i :
  label_index cols c = Some i → cols !! i = Some c.
Proof.
  revert i. induction cols as [|c' cols IH]; intros i; simpl; [done|].
  case_decide as Hc; [by intros [= <-]; rewrite Hc|].
  destruct (label_index cols c) as [i'|]; simpl; [|done].
  intros [= <-]. by apply IH.
Qed.

Lemma label_index_None cols c : label_index cols c = None ↔ c ∉ cols.
Proof.
  induction cols as [|c' cols IH]; simpl.
  - split; [intros _; apply not_elem_of_nil|done].
  - rewrite not_elem_of_cons. case_decide as Hc.
    + split; [done|]. by intros [? _].
    + destruct (label_index cols c); simpl.
      * split; [done|]. intros [_ Hin]. by apply IH in Hin.
      * split; [|done]. intros _. split; [done|]. by apply IH.
Qed.

Lemma label_index_is_Some cols c : is_Some (label_index cols c) ↔ c ∈ cols.
Proof.
  rewrite <-not_eq_None_Some, label_index_None.
  split; [apply dec_stable|]. by intros ? ?.
Qed.

Lemma label_index_app_l cols1 cols2 c :
  c ∈ cols1 → label_index (cols1 ++ cols2) c = label_index cols1 c.
Proof.
  induction cols1 as [|c' cols1 IH]; simpl; [by intros ?%not_elem_of_nil|].
  intros Hin. case_decide; [done|].
  rewrite IH; [done|]. apply elem_of_cons in Hin as [->|]; done.
Qed.

Lemma label_index_app_r cols1 cols2 c :
  c ∉ cols1 →
  label_index (cols1 ++ cols2) c =
  (λ i, length cols1 + i) <$> label_index cols2 c.
Proof.
  induction cols1 as [|c' cols1 IH]; simpl.
  - intros _. by destruct (label_index cols2 c).
  - intros [Hne Hnin]%not_elem_of_cons. rewrite decide_False by done.
    rewrite IH by done. by destruct (label_index cols2 c).
Qed.

Lemma label_index_NoDup cols c p :
  NoDup cols → cols !! p = Some c → label_index cols c = Some p.
Proof.
  intros Hnd Hp. destruct (label_index cols c) as [i|] eqn:Hi.
  - apply label_index_Some in Hi. f_equal. by eapply NoDup_lookup.
  - apply label_index_None in Hi. destruct Hi.
    by eapply list_elem_of_lookup_2.
Qed.

Lemma cell_app_l cols1 cols2 row1 row2 c :
  c ∈ cols1 → length cols1 ≤ length row1 →
  cell (cols1 ++ cols2) (row1 ++ row2) c = cell cols1 row1 c.
Proof.
  intros Hin Hlen. unfold cell. rewrite label_index_app_l by done.
  destruct (label_index cols1 c) as [i|] eqn:Hi; simpl; [|done].
  apply label_index_Some, lookup_lt_Some in Hi.
  rewrite lookup_app_l by lia. done.
Qed.

Lemma cell_app_r cols1 cols2 row1 row2 c :
  c ∉ cols1 → length row1 = length cols1 →
  cell (cols1 ++ cols2) (row1 ++ row2) c = cell cols2 row2 c.
Proof.
  intros Hnin Hlen. unfold cell. rewrite label_index_app_r by done.
  destruct (label_index cols2 c) as [i|]; simpl; [|done].
  rewrite lookup_app_r by lia. do 2 f_equal. lia.
Qed.

Lemma cell_singleton c v : cell [c] [v] c = v.
Proof. unfold cell. simpl. by rewrite decide_True. Qed.

(** Reading a cell by position when the labels are distinct. *)
Lemma cell_lookup cols row c p :
  NoDup cols → cols !! p = Some c → cell cols row c = default VNaN (row !! p).
Proof.
  intros Hnd Hp. unfold cell. by rewrite (label_index_NoDup _ _ p).
Qed.

Lemma length_append (s1 s2 : string) :
  String.length (s1 +:+ s2) = String.length s1 + String.length s2.
Proof. induction s1 as [|a s1 IH]; simpl; [done|]. by rewrite IH. Qed.

Lemma suffixed_not_indicator c suffix :
  6 < String.length suffix → c +:+ suffix ≠ "_merge".
Proof.
  intros Hlen Heq. apply (f_equal String.length) in Heq.
  rewrite length_append in Heq. simpl in Heq. lia.
Qed.
End labels.

(** ** The merged frame *)

Section merged.
Variables (df1 df2 : DataFrame) (on : list string).

Lemma merge_Ok_inv merged :
  merge df1 df2 on = Ok merged →
  get_merge_keys (columns df1) (columns df2) on = Ok () ∧
  indicator_pre_merge (columns df1) (columns df2) = Ok () ∧
  on ≠ [] ∧
  merged =
    {| columns := merged_columns df1 df2 on;
       rows := concat_row df1 df2 on <$>
         full_outer_join (key_of on df1 <$> rows df1)
                         (key_of on df2 <$> rows df2) |}.
Proof.
  unfold merge, mbind, result_bind, raise_if.
  destruct (get_merge_keys _ _ _) as [[]|]; [|done].
  destruct (indicator_pre_merge _ _) as [[]|]; [|done].
  case_bool_decide; [intros; discriminate|].
  case_bool_decide; [intros; discriminate|].
  intros [= <-]. done.
Qed.

Lemma indicator_pre_merge_Ok c :
  indicator_pre_merge (columns df1) (columns df2) = Ok () →
  c ∈ columns df1 ++ columns df2 → c ≠ "_merge".
Proof.
  unfold indicator_pre_merge. intros Hok Hin ->.
  rewrite !filter_cons, filter_nil in Hok.
  rewrite (decide_True (P := "_merge" ∈ _)) in Hok by done.
  repeat case_decide; done.
Qed.

Lemma length_left_labels : length (left_labels df1 df2 on) = length (columns df1).
Proof. unfold left_labels. by rewrite length_fmap. Qed.

Lemma length_right_labels :
  length (right_labels df1 df2 on) = length (right_columns df2 on).
Proof. unfold right_labels. by rewrite length_fmap. Qed.

Lemma length_concat_row e :
  length (concat_row df1 df2 on e) = length (merged_columns df1 df2 on).
Proof.
  unfold concat_row, merged_columns.
  by rewrite !length_app, length_imap, length_fmap,
    length_left_labels, length_right_labels.
Qed.

(** No label of the two frames, suffixed or not, is the indicator's. *)
Lemma indicator_label_fresh :
  indicator_pre_merge (columns df1) (columns df2) = Ok () →
  "_merge" ∉ left_labels df1 df2 on ++ right_labels df1 df2 on.
Proof.
  intros Hok. unfold left_labels, right_labels, right_columns, add_suffix.
  rewrite elem_of_app, !list_elem_of_fmap.
  intros [(c & Hc & Hin)|(c & Hc & [_ Hin]%list_elem_of_filter)].
  - destruct (overlap _ _ _ c).
    + by eapply suffixed_not_indicator; [|done]; simpl; lia.
    + eapply (indicator_pre_merge_Ok c); [done| |done].
      apply elem_of_app. by left.
  - destruct (overlap _ _ _ c).
    + by eapply suffixed_not_indicator; [|done]; simpl; lia.
    + eapply (indicator_pre_merge_Ok c); [done| |done].
      apply elem_of_app. by right.
Qed.

Lemma cell_indicator e :
  indicator_pre_merge (columns df1) (columns df2) = Ok () →
  cell (merged_columns df1 df2 on) (concat_row df1 df2 on e) "_merge"
  = indicator e.
Proof.
  intros Hok. apply indicator_label_fresh in Hok.
  apply not_elem_of_app in Hok as [Hl Hr].
  unfold merged_columns, concat_row.
  rewrite cell_app_r; [|done|by rewrite length_imap, length_left_labels].
  rewrite cell_app_r; [|done|by rewrite length_fmap, length_right_labels].
  apply cell_singleton.
Qed.
End merged.

(** ** The three categories *)

Lemma filter_fmap {A B} (f : A → B) (P : B → Prop) `{!∀ y, Decision (P y)}
    (l : list A) :
  filter P (f <$> l) = f <$> filter (λ x, P (f x)) l.
Proof.
  induction l as [|x l IH]; [done|]. rewrite fmap_cons.
  destruct (decide (P (f x))).
  - rewrite !filter_cons_True by done. by rewrite IH.
  - rewrite !filter_cons_False by done. by rewrite IH.
Qed.

Section categories.
Variables (df1 df2 : DataFrame) (on : list string).

Lemma rows_select merged tag :
  merge df1 df2 on = Ok merged →
  rows (select merged tag) = concat_row df1 df2 on <$> category df1 df2 on tag.
Proof.
  intros (_ & Hind & _ & ->)%merge_Ok_inv. unfold select, category. simpl.
  rewrite filter_fmap. f_equal. apply list_filter_iff. intros e.
  by rewrite cell_indicator.
Qed.

Lemma columns_select merged tag :
  merge df1 df2 on = Ok merged →
  columns (select merged tag) = merged_columns df1 df2 on.
Proof. by intros (_ & _ & _ & ->)%merge_Ok_inv. Qed.

Lemma len_select merged tag :
  merge df1 df2 on = Ok merged →
  len (select merged tag) = length (category df1 df2 on tag).
Proof.
  intros Hm. unfold len. by rewrite (rows_select _ _ Hm), length_fmap.
Qed.

Lemma elem_of_category_both e :
  e ∈ category df1 df2 on "both" ↔
  ∃ i j, e = (Some i, Some j) ∧
    partners (key_of on df1 <$> rows df1) (key_of on df2 <$> rows df2) i j.
Proof.
  unfold category. rewrite list_elem_of_filter. split.
  - intros [Hind He]. destruct e as [[i|] [j|]]; try done.
    exists i, j. split; [done|]. by apply full_outer_join_both.
  - intros (i & j & -> & Hp). split; [done|].
    by apply full_outer_join_both.
Qed.
End categories.

(** A frame with a column is empty only when it has no row, and then [head]
    has nothing to give either. *)
Lemma preview_head_records df :
  columns df ≠ [] → preview df = head_records 100 df.
Proof.
  intros Hcols. unfold preview, empty, head_records.
  rewrite (bool_decide_eq_false_2 (columns df = [])) by done.
  rewrite orb_false_r. case_bool_decide as Hrows; [|done].
  by rewrite Hrows.
Qed.

Lemma preview_select df1 df2 on merged tag :
  merge df1 df2 on = Ok merged →
  preview (select merged tag) = head_records 100 (select merged tag).
Proof.
  intros Hm. apply preview_head_records.
  rewrite (columns_select _ _ _ _ _ Hm). unfold merged_columns.
  intros Hnil. apply (f_equal length) in Hnil.
  rewrite !length_app in Hnil. simpl in Hnil. lia.
Qed.

(** The steps of [compare_queries], for a call that returns. *)
Lemma compare_queries_Ok_inv df1 df2 mappings primary_keys rep :
  compare_queries df1 df2 mappings primary_keys = Ok rep →
  let df2_renamed := rename (mapping_dict mappings) df2 in
  let common := common_columns df1 df2_renamed in
  let on := join_keys primary_keys common in
  ∃ merged,
    merge df1 df2_renamed on = Ok merged ∧
    rep =
      {| summary := {|
           total_rows_query1 := len df1;
           total_rows_query2 := len df2;
           matches_count := len (select merged "both");
           only_in_query1_count := len (select merged "left_only");
           only_in_query2_count := len (select merged "right_only");
           mismatches_count :=
             length (find_mismatches common on (select merged "both")) |};
         matches := preview (select merged "both");
         only_in_query1 := preview (select merged "left_only");
         only_in_query2 := preview (select merged "right_only");
         mismatches :=
           take 100 (find_mismatches common on (select merged "both"));
         columns_query1 := columns df1;
         columns_query2 := columns df2;
         columns_mapped := common |}.
Proof.
  unfold compare_queries, mbind, result_bind. simpl.
  destruct (merge _ _ _) as [merged|]; [|done].
  intros [= <-]. by exists merged.
Qed.

(** ** Every row is accounted for *)

Section counting.
Variables lkeys rkeys : list key.

(** The entries a left row takes part in: one per partner, or the single
    left-only entry when it has none. *)
Lemma entries_of_left_row i a :
  lkeys !! i = Some a →
  filter (λ e, e.1 = Some i) (full_outer_join lkeys rkeys) ≡ₚ
  match positions a rkeys 0 with
  | [] => [(Some i, None)]
  | rs => (λ j, (Some i, Some j)) <$> rs
  end.
Proof.
  intros Ha. apply NoDup_Permutation.
  - apply NoDup_filter, NoDup_full_outer_join.
  - pose proof (NoDup_positions a rkeys 0) as Hnd.
    destruct (positions a rkeys 0); [apply NoDup_singleton|].
    apply NoDup_fmap_2; [|done]. intros ???. by simplify_eq.
  - intros [l r]. rewrite list_elem_of_filter. cbn [fst snd].
    assert (Hpos : ∀ j, j ∈ positions a rkeys 0 ↔ partners lkeys rkeys i j).
    { intros j. rewrite elem_of_positions_0. unfold partners.
      split; [intros (b & ? & ?); by exists a, b|].
      intros (a' & b & ? & ? & ?). exists b. by simplify_eq. }
    assert (Hnil : positions a rkeys 0 = [] ↔ unmatched_left lkeys rkeys i).
    { rewrite positions_nil. unfold unmatched_left.
      split; [intros ?; by exists a|].
      intros (a' & ? & ?). by simplify_eq. }
    destruct (positions a rkeys 0) as [|j0 rs] eqn:Hrs.
    + rewrite list_elem_of_singleton. split.
      * intros [-> Hin]. destruct r as [j|]; [|done].
        apply full_outer_join_both, Hpos, not_elem_of_nil in Hin. done.
      * intros [= -> ->]. split; [done|].
        by apply full_outer_join_left_only, Hnil.
    + cbv iota. rewrite list_elem_of_fmap. split.
      * intros [-> Hin]. destruct r as [j|].
        -- exists j. split; [done|]. by apply Hpos, full_outer_join_both.
        -- apply full_outer_join_left_only, Hnil in Hin. done.
      * intros (j & [= -> ->] & Hj). split; [done|].
        by apply full_outer_join_both, Hpos.
Qed.

Lemma entries_of_right_row j b :
  rkeys !! j = Some b →
  filter (λ e, e.2 = Some j) (full_outer_join lkeys rkeys) ≡ₚ
  match positions b lkeys 0 with
  | [] => [(None, Some j)]
  | ls => (λ i, (Some i, Some j)) <$> ls
  end.
Proof.
  intros Hb. apply NoDup_Permutation.
  - apply NoDup_filter, NoDup_full_outer_join.
  - pose proof (NoDup_positions b lkeys 0) as Hnd.
    destruct (positions b lkeys 0); [apply NoDup_singleton|].
    apply NoDup_fmap_2; [|done]. intros ???. by simplify_eq.
  - intros [l r]. rewrite list_elem_of_filter. cbn [fst snd].
    assert (Hpos : ∀ i, i ∈ positions b lkeys 0 ↔ partners lkeys rkeys i j).
    { intros i. rewrite elem_of_positions_0. unfold partners.
      split.
      - intros (a & ? & ?). exists a, b. by rewrite key_eqb_sym.
      - intros (a & b' & ? & ? & ?). exists a. simplify_eq.
        by rewrite key_eqb_sym. }
    assert (Hnil : positions b lkeys 0 = [] ↔ unmatched_right lkeys rkeys j).
    { rewrite positions_nil. unfold unmatched_right. split.
      - intros Hall. exists b. split; [done|]. intros a ?.
        rewrite key_eqb_sym. by apply Hall.
      - intros (b' & ? & Hall) a ?. simplify_eq.
        rewrite key_eqb_sym. by apply Hall. }
    destruct (positions b lkeys 0) as [|i0 ls] eqn:Hls.
    + rewrite list_elem_of_singleton. split.
      * intros [-> Hin]. destruct l as [i|]; [|done].
        apply full_outer_join_both, Hpos, not_elem_of_nil in Hin. done.
      * intros [= -> ->]. split; [done|].
        by apply full_outer_join_right_only, Hnil.
    + cbv iota. rewrite list_elem_of_fmap. split.
      * intros [-> Hin]. destruct l as [i|].
        -- exists i. split; [done|]. by apply Hpos, full_outer_join_both.
        -- apply full_outer_join_right_only, Hnil in Hin. done.
      * intros (i & [= -> ->] & Hi). split; [done|].
        by apply full_outer_join_both, Hpos.
Qed.

Lemma length_group_or_single {A} (f : nat → A) (x : A) (l : list nat) :
  length (match l with [] => [x] | j :: l' => f <$> j :: l' end)
  = Nat.max 1 (length l).
Proof. destruct l; simpl; [done|]. by rewrite length_fmap. Qed.

Lemma count_left_row i a :
  lkeys !! i = Some a →
  length (filter (λ e, e.1 = Some i) (full_outer_join lkeys rkeys)) =
  Nat.max 1 (length (filter (λ b, key_eqb a b = true) rkeys)).
Proof.
  intros Ha. rewrite (entries_of_left_row i a Ha).
  by rewrite length_group_or_single, length_positions.
Qed.

Lemma count_right_row j b :
  rkeys !! j = Some b →
  length (filter (λ e, e.2 = Some j) (full_outer_join lkeys rkeys)) =
  Nat.max 1 (length (filter (λ a, key_eqb b a = true) lkeys)).
Proof.
  intros Hb. rewrite (entries_of_right_row j b Hb).
  by rewrite length_group_or_single, length_positions.
Qed.

(** A left row is matched or left-only, never both. *)
Lemma left_row_category i a :
  lkeys !! i = Some a →
  (unmatched_left lkeys rkeys i ∧ ∀ j, ¬ partners lkeys rkeys i j) ∨
  (¬ unmatched_left lkeys rkeys i ∧ ∃ j, partners lkeys rkeys i j).
Proof.
  intros Ha. destruct (positions a rkeys 0) as [|j rs] eqn:Hrs.
  - pose proof (proj1 (positions_nil a rkeys 0) Hrs) as Hall.
    left. split; [by exists a|].
    intros j (a' & b & Ha' & Hb & Hab). simplify_eq.
    rewrite (Hall b) in Hab; [done|]. by eapply list_elem_of_lookup_2.
  - assert (j ∈ positions a rkeys 0) as (b & Hb & Hab)%elem_of_positions_0
      by (rewrite Hrs; by left).
    right. split; [|exists j; by exists a, b].
    intros (a' & Ha' & Hall). simplify_eq.
    rewrite (Hall b) in Hab; [done|]. by eapply list_elem_of_lookup_2.
Qed.

Lemma right_row_category j b :
  rkeys !! j = Some b →
  (unmatched_right lkeys rkeys j ∧ ∀ i, ¬ partners lkeys rkeys i j) ∨
  (¬ unmatched_right lkeys rkeys j ∧ ∃ i, partners lkeys rkeys i j).
Proof.
  intros Hb. destruct (positions b lkeys 0) as [|i ls] eqn:Hls.
  - pose proof (proj1 (positions_nil b lkeys 0) Hls) as Hall.
    left. split.
    + exists b. split; [done|]. intros a Ha.
      rewrite key_eqb_sym. by apply Hall.
    + intros i (a & b' & Ha & Hb' & Hab). simplify_eq.
      rewrite key_eqb_sym, (Hall a) in Hab; [done|].
      by eapply list_elem_of_lookup_2.
  - assert (i ∈ positions b lkeys 0) as (a & Ha & Hba)%elem_of_positions_0
      by (rewrite Hls; by left).
    right. split; [|exists i; exists a, b; by rewrite key_eqb_sym].
    intros (b' & Hb' & Hall). simplify_eq.
    rewrite key_eqb_sym, (Hall a) in Hba; [done|].
    by eapply list_elem_of_lookup_2.
Qed.

(** Every entry is in one of the three categories. *)
Lemma length_categories (J : list entry) :
  (None, None) ∉ J →
  length J =
  length (filter (λ e, indicator e = VStr "both") J) +
  length (filter (λ e, indicator e = VStr "left_only") J) +
  length (filter (λ e, indicator e = VStr "right_only") J).
Proof.
  induction J as [|e J IH]; [done|].
  intros [Hne Hnin]%not_elem_of_cons. specialize (IH Hnin).
  destruct e as [[i|] [j|]]; [| | |done].
  - rewrite filter_cons_True, !filter_cons_False by done. simpl. lia.
  - rewrite filter_cons_False, filter_cons_True, filter_cons_False by done.
    simpl. lia.
  - rewrite !filter_cons_False, filter_cons_True by done. simpl. lia.
Qed.
End counting.

(** ** Counting rows through the join index *)

Lemma length_between (L : list nat) n lo hi :
  Forall (λ x, x < n) L →
  (∀ i, i < n → lo ≤ length (filter (λ x, x = i) L) ≤ hi) →
  lo * n ≤ length L ≤ hi * n.
Proof.
  revert L. induction n as [|n IH]; intros L Hlt Hcount.
  - destruct L as [|x L]; [simpl; lia|].
    apply Forall_cons in Hlt as [? _]. lia.
  - pose proof (filter_app_complement (λ x, x = n) L) as Hperm.
    apply Permutation_length in Hperm. rewrite length_app in Hperm.
    destruct (IH (filter (λ x, ¬ x = n) L)) as [Hlo Hhi].
    + apply Forall_forall. intros x [Hne Hx]%list_elem_of_filter.
      rewrite Forall_forall in Hlt. specialize (Hlt x Hx). lia.
    + intros i Hi. rewrite list_filter_filter.
      rewrite (list_filter_iff _ (λ x, x = i)); [apply Hcount; lia|].
      intros x. split; [by intros [? _]|]. intros ->. split; [done|lia].
    + specialize (Hcount n (Nat.lt_succ_diag_r n)).
      rewrite !Nat.mul_succ_r. lia.
Qed.

Lemma length_filter_lefts (J : list entry) i :
  length (filter (λ x, x = i) (omap fst J)) =
  length (filter (λ e, e.1 = Some i) J).
Proof.
  induction J as [|[[x|] r] J IH]; [done| |].
  - cbn [omap list_omap fst]. destruct (decide (x = i)) as [->|Hne].
    + rewrite !filter_cons_True by done. simpl. by rewrite <-IH.
    + rewrite !filter_cons_False by (simpl; congruence). done.
  - cbn [omap list_omap fst]. by rewrite filter_cons_False.
Qed.

Lemma length_filter_rights (J : list entry) j :
  length (filter (λ x, x = j) (omap snd J)) =
  length (filter (λ e, e.2 = Some j) J).
Proof.
  induction J as [|[l [x|]] J IH]; [done| |].
  - cbn [omap list_omap snd]. destruct (decide (x = j)) as [->|Hne].
    + rewrite !filter_cons_True by done. simpl. by rewrite <-IH.
    + rewrite !filter_cons_False by (simpl; congruence). done.
  - cbn [omap list_omap snd]. by rewrite filter_cons_False.
Qed.

(** The entries with a left row are the matched and the left-only ones. *)
Lemma length_lefts (J : list entry) :
  length (omap fst J) =
  length (filter (λ e, indicator e = VStr "both") J) +
  length (filter (λ e, indicator e = VStr "left_only") J).
Proof.
  induction J as [|[[i|] [j|]] J IH]; [done|..]; cbn [omap list_omap fst].
  - rewrite filter_cons_True, filter_cons_False by done. simpl. lia.
  - rewrite filter_cons_False, filter_cons_True by done. simpl. lia.
  - by rewrite !filter_cons_False.
  - by rewrite !filter_cons_False.
Qed.

Lemma length_rights (J : list entry) :
  (None, None) ∉ J →
  length (omap snd J) =
  length (filter (λ e, indicator e = VStr "both") J) +
  length (filter (λ e, indicator e = VStr "right_only") J).
Proof.
  induction J as [|[[i|] [j|]] J IH]; [done|..];
    intros [Hne Hnin]%not_elem_of_cons; specialize (IH Hnin);
    cbn [omap list_omap snd]; [| | |done].
  - rewrite filter_cons_True, filter_cons_False by done. simpl. lia.
  - by rewrite !filter_cons_False.
  - rewrite filter_cons_False, filter_cons_True by done. simpl. lia.
Qed.

Section accounting.
Variables lkeys rkeys : list key.

Lemma lefts_lt :
  Forall (λ x, x < length lkeys) (omap fst (full_outer_join lkeys rkeys)).
Proof.
  apply Forall_forall. intros i ([l r] & He & Hl)%list_elem_of_omap.
  simpl in Hl. subst l. destruct r as [j|].
  - apply full_outer_join_both in He as (a & _ & Ha & _).
    by eapply lookup_lt_Some.
  - apply full_outer_join_left_only in He as (a & Ha & _).
    by eapply lookup_lt_Some.
Qed.

Lemma rights_lt :
  Forall (λ x, x < length rkeys) (omap snd (full_outer_join lkeys rkeys)).
Proof.
  apply Forall_forall. intros j ([l r] & He & Hr)%list_elem_of_omap.
  simpl in Hr. subst r. destruct l as [i|].
  - apply full_outer_join_both in He as (_ & b & _ & Hb & _).
    by eapply lookup_lt_Some.
  - apply full_outer_join_right_only in He as (b & Hb & _).
    by eapply lookup_lt_Some.
Qed.

(** Every left row is in at least one entry. *)
Lemma length_lefts_ge :
  length lkeys ≤ length (omap fst (full_outer_join lkeys rkeys)).
Proof.
  destruct (length_between (omap fst (full_outer_join lkeys rkeys))
              (length lkeys) 1
              (length (omap fst (full_outer_join lkeys rkeys)))) as [H _];
    [apply lefts_lt| |lia].
  intros i Hi. split; [|apply length_filter].
  destruct (lookup_lt_is_Some_2 lkeys i Hi) as [a Ha].
  rewrite length_filter_lefts, (count_left_row _ _ _ _ Ha). lia.
Qed.

Lemma length_rights_ge :
  length rkeys ≤ length (omap snd (full_outer_join lkeys rkeys)).
Proof.
  destruct (length_between (omap snd (full_outer_join lkeys rkeys))
              (length rkeys) 1
              (length (omap snd (full_outer_join lkeys rkeys)))) as [H _];
    [apply rights_lt| |lia].
  intros j Hj. split; [|apply length_filter].
  destruct (lookup_lt_is_Some_2 rkeys j Hj) as [b Hb].
  rewrite length_filter_rights, (count_right_row _ _ _ _ Hb). lia.
Qed.

(** With unique keys a row has at most one partner. *)
Lemma unique_keys_partner ks a :
  unique_keys ks → length (filter (λ b, key_eqb a b = true) ks) ≤ 1.
Proof.
  intros Huniq. rewrite <-(length_positions a ks 0).
  pose proof (NoDup_positions a ks 0) as Hnd.
  destruct (positions a ks 0) as [|j1 [|j2 rest]] eqn:Hpos; simpl; [lia..|].
  assert (j1 ∈ positions a ks 0) as (b1 & Hb1 & H1)%elem_of_positions_0
    by (rewrite Hpos; set_solver).
  assert (j2 ∈ positions a ks 0) as (b2 & Hb2 & H2)%elem_of_positions_0
    by (rewrite Hpos; set_solver).
  assert (j1 = j2) as ->.
  { eapply Huniq; [done..|].
    eapply key_eqb_trans; [|done]. by rewrite key_eqb_sym. }
  apply NoDup_cons in Hnd as [Hnin _]. destruct Hnin. by left.
Qed.

Lemma length_lefts_unique :
  unique_keys rkeys →
  length (omap fst (full_outer_join lkeys rkeys)) = length lkeys.
Proof.
  intros Huniq.
  destruct (length_between (omap fst (full_outer_join lkeys rkeys))
              (length lkeys) 1 1) as [H1 H2]; [apply lefts_lt| |lia].
  intros i Hi. destruct (lookup_lt_is_Some_2 lkeys i Hi) as [a Ha].
  rewrite length_filter_lefts, (count_left_row _ _ _ _ Ha).
  pose proof (unique_keys_partner rkeys a Huniq). lia.
Qed.

Lemma length_rights_unique :
  unique_keys lkeys →
  length (omap snd (full_outer_join lkeys rkeys)) = length rkeys.
Proof.
  intros Huniq.
  destruct (length_between (omap snd (full_outer_join lkeys rkeys))
              (length rkeys) 1 1) as [H1 H2]; [apply rights_lt| |lia].
  intros j Hj. destruct (lookup_lt_is_Some_2 rkeys j Hj) as [b Hb].
  rewrite length_filter_rights, (count_right_row _ _ _ _ Hb).
  pose proof (unique_keys_partner lkeys b Huniq). lia.
Qed.
End accounting.

Lemma NoDup_all_eq {A} (l : list A) x :
  NoDup l → (∀ y, y ∈ l → y = x) → length l ≤ 1.
Proof.
  intros Hnd Hall. destruct l as [|y1 [|y2 l]]; simpl; [lia..|].
  apply NoDup_cons in Hnd as [Hnin _]. destruct Hnin.
  rewrite (Hall y1), (Hall y2); set_solver.
Qed.

Section accounting_categories.
Variables lkeys rkeys : list key.

(** A left row is in at most one left-only entry. *)
Lemma count_left_only i :
  length (filter (λ e, e.1 = Some i)
            (filter (λ e, indicator e = VStr "left_only")
               (full_outer_join lkeys rkeys))) ≤ 1.
Proof.
  apply (NoDup_all_eq _ (Some i, None)).
  - do 2 apply NoDup_filter. apply NoDup_full_outer_join.
  - intros [l r] [Hl [Hind _]%list_elem_of_filter]%list_elem_of_filter.
    simpl in Hl. subst l. by destruct r.
Qed.

Lemma count_right_only j :
  length (filter (λ e, e.2 = Some j)
            (filter (λ e, indicator e = VStr "right_only")
               (full_outer_join lkeys rkeys))) ≤ 1.
Proof.
  apply (NoDup_all_eq _ (None, Some j)).
  - do 2 apply NoDup_filter. apply NoDup_full_outer_join.
  - intros [l r] [Hr [Hind _]%list_elem_of_filter]%list_elem_of_filter.
    simpl in Hr. subst r. by destruct l.
Qed.

(** A left row is in no more matched entries than there are right rows. *)
Lemma count_both_left i :
  length (filter (λ e, e.1 = Some i)
            (filter (λ e, indicator e = VStr "both")
               (full_outer_join lkeys rkeys))) ≤ length rkeys.
Proof.
  rewrite list_filter_filter.
  rewrite (list_filter_iff _ (λ e, indicator e = VStr "both" ∧ e.1 = Some i))
    by (intros e; naive_solver).
  rewrite <-list_filter_filter.
  destruct (lkeys !! i) as [a|] eqn:Ha.
  - rewrite (entries_of_left_row _ _ _ _ Ha).
    destruct (positions a rkeys 0) as [|j rs] eqn:Hpos.
    + rewrite filter_cons_False by done. simpl. lia.
    + etrans; [apply length_filter|].
      rewrite length_fmap, <-Hpos, length_positions. apply length_filter.
  - assert (filter (λ e, e.1 = Some i) (full_outer_join lkeys rkeys) = [])
      as ->; [|simpl; lia].
    pose proof (lefts_lt lkeys rkeys) as Hlt. rewrite Forall_forall in Hlt.
    destruct (filter _ _) as [|[l r] es] eqn:Hf; [done|].
    assert ((l, r) ∈ filter (λ e, e.1 = Some i) (full_outer_join lkeys rkeys))
      as [Hl He]%list_elem_of_filter by (rewrite Hf; by left).
    simpl in Hl. subst l.
    assert (i < length lkeys) as Hi.
    { apply Hlt, list_elem_of_omap. by exists (Some i, r). }
    apply lookup_lt_is_Some_2 in Hi as [? ?]. congruence.
Qed.
End accounting_categories.

Lemma length_omap_fst (l : list entry) :
  (∀ e, e ∈ l → is_Some e.1) → length (omap fst l) = length l.
Proof.
  induction l as [|[[i|] r] l IH]; intros Hall; [done| |].
  - cbn [omap list_omap fst]. simpl. f_equal. apply IH.
    intros e He. apply Hall. by right.
  - destruct (Hall (None, r)) as [? [=]]. by left.
Qed.

Lemma length_omap_snd (l : list entry) :
  (∀ e, e ∈ l → is_Some e.2) → length (omap snd l) = length l.
Proof.
  induction l as [|[i [r|]] l IH]; intros Hall; [done| |].
  - cbn [omap list_omap snd]. simpl. f_equal. apply IH.
    intros e He. apply Hall. by right.
  - destruct (Hall (i, None)) as [? [=]]. by left.
Qed.

Lemma omap_filter_lt (f : entry → option nat) (P : entry → Prop)
    `{!∀ e, Decision (P e)} (J : list entry) n :
  Forall (λ x, x < n) (omap f J) → Forall (λ x, x < n) (omap f (filter P J)).
Proof.
  rewrite !Forall_forall. intros Hlt x (e & [_ He]%list_elem_of_filter & Hx)%list_elem_of_omap.
  apply Hlt, list_elem_of_omap. by exists e.
Qed.

Section bounds.
Variables lkeys rkeys : list key.

Lemma length_left_only_le :
  length (filter (λ e, indicator e = VStr "left_only") (full_outer_join lkeys rkeys))
  ≤ length lkeys.
Proof.
  rewrite <-length_omap_fst.
  - destruct (length_between
      (omap fst (filter (λ e, indicator e = VStr "left_only") (full_outer_join lkeys rkeys)))
      (length lkeys) 0 1) as [_ H]; [|  |lia].
    + apply omap_filter_lt, lefts_lt.
    + intros i _. rewrite length_filter_lefts.
      split; [lia|apply count_left_only].
  - intros [[i|] [j|]] [Hind _]%list_elem_of_filter; by eauto.
Qed.

Lemma length_right_only_le :
  length (filter (λ e, indicator e = VStr "right_only") (full_outer_join lkeys rkeys))
  ≤ length rkeys.
Proof.
  rewrite <-length_omap_snd.
  - destruct (length_between
      (omap snd (filter (λ e, indicator e = VStr "right_only") (full_outer_join lkeys rkeys)))
      (length rkeys) 0 1) as [_ H]; [|  |lia].
    + apply omap_filter_lt, rights_lt.
    + intros j _. rewrite length_filter_rights.
      split; [lia|apply count_right_only].
  - intros [[i|] [j|]] [Hind He]%list_elem_of_filter; try by eauto.
    by apply full_outer_join_no_empty_entry in He.
Qed.

Lemma length_both_le :
  length (filter (λ e, indicator e = VStr "both") (full_outer_join lkeys rkeys))
  ≤ length lkeys * length rkeys.
Proof.
  rewrite <-length_omap_fst.
  - destruct (length_between
      (omap fst (filter (λ e, indicator e = VStr "both") (full_outer_join lkeys rkeys)))
      (length lkeys) 0 (length rkeys)) as [_ H]; [| |lia].
    + apply omap_filter_lt, lefts_lt.
    + intros i _. rewrite length_filter_lefts.
      split; [lia|apply count_both_left].
  - intros [[i|] [j|]] [Hind _]%list_elem_of_filter; by eauto.
Qed.
End bounds.

(** ** The categories, row by row *)

Lemma sum_list_with_ext_in {A} (f g : A → nat) (l : list A) :
  (∀ x, x ∈ l → f x = g x) → sum_list_with f l = sum_list_with g l.
Proof.
  induction l as [|x l IH]; intros Hext; [done|]. cbn [sum_list_with].
  rewrite (Hext x) by by left. rewrite IH; [done|].
  intros y Hy. apply Hext. by right.
Qed.

(** A list of indices below [n] is counted index by index. *)
Lemma length_sum_index (L : list nat) n :
  Forall (λ x, x < n) L →
  length L = sum_list_with (λ i, length (filter (λ x, x = i) L)) (seq 0 n).
Proof.
  revert L. induction n as [|n IH]; intros L Hlt.
  - destruct L as [|x L]; [done|]. apply Forall_cons in Hlt as [? _]. lia.
  - rewrite seq_S, sum_list_with_app. cbn [sum_list_with]. simpl.
    pose proof (filter_app_complement (λ x, x = n) L) as Hperm.
    apply Permutation_length in Hperm. rewrite length_app in Hperm.
    rewrite <-Hperm, (IH (filter (λ x, ¬ x = n) L)).
    + rewrite (sum_list_with_ext_in _
        (λ i, length (filter (λ x, x = i) L))); [lia|].
      intros i [_ Hi]%elem_of_seq. rewrite list_filter_filter.
      f_equal. apply list_filter_iff. intros x. split; [by intros [? _]|].
      intros ->. split; [done|lia].
    + apply Forall_forall. intros x [Hne Hx]%list_elem_of_filter.
      rewrite Forall_forall in Hlt. specialize (Hlt x Hx). lia.
Qed.

(** A sum over the indices of a list is a sum over its elements. *)
Lemma sum_index_list {A} (l : list A) (g : nat → nat) (f : A → nat) :
  (∀ i a, l !! i = Some a → g i = f a) →
  sum_list_with g (seq 0 (length l)) = sum_list_with f l.
Proof.
  induction l as [|x l IH] using rev_ind; intros Hg; [done|].
  rewrite length_app, Nat.add_1_r, seq_S, !sum_list_with_app.
  cbn [sum_list_with]. simpl.
  rewrite (Hg (length l) x) by by rewrite list_lookup_middle.
  rewrite IH; [done|]. intros i a Hi. apply Hg.
  by rewrite lookup_app_l by by eapply lookup_lt_Some.
Qed.

Lemma length_filter_sum {A} (P : A → Prop) `{!∀ x, Decision (P x)}
    (l : list A) :
  length (filter P l) = sum_list_with (λ a, if decide (P a) then 1 else 0) l.
Proof.
  induction l as [|x l IH]; [done|]. rewrite filter_cons. cbn [sum_list_with].
  destruct (decide (P x)); simpl; by rewrite IH.
Qed.

Lemma filter_none {A} (P : A → Prop) `{!∀ x, Decision (P x)} (l : list A) :
  (∀ x, x ∈ l → ¬ P x) → filter P l = [].
Proof.
  intros Hall. destruct (filter P l) as [|x l'] eqn:Hf; [done|].
  assert (x ∈ filter P l) as [HP Hx]%list_elem_of_filter by (rewrite Hf; by left).
  by destruct (Hall x Hx).
Qed.

Lemma filter_every {A} (P : A → Prop) `{!∀ x, Decision (P x)} (l : list A) :
  (∀ x, x ∈ l → P x) → filter P l = l.
Proof.
  induction l as [|x l IH]; intros Hall; [done|].
  rewrite filter_cons_True by (apply Hall; by left).
  f_equal. apply IH. intros y Hy. apply Hall. by right.
Qed.

(** The tag of an entry says its shape. *)
Lemma filter_shape (J : list entry) :
  (None, None) ∉ J →
  filter (λ e, indicator e = VStr "both") J
    = filter (λ e, is_pair e = true) J ∧
  filter (λ e, indicator e = VStr "left_only") J
    = filter (λ e, is_left_alone e = true) J ∧
  filter (λ e, indicator e = VStr "right_only") J
    = filter (λ e, is_right_alone e = true) J.
Proof.
  induction J as [|e J IH]; [done|].
  intros [Hne Hnin]%not_elem_of_cons.
  destruct (IH Hnin) as (IH1 & IH2 & IH3).
  rewrite !filter_cons, IH1, IH2, IH3.
  by destruct e as [[i|] [j|]].
Qed.

Section rows_counted.
Variables lkeys rkeys : list key.

Lemma count_pairs_left i a :
  lkeys !! i = Some a →
  length (filter (λ e, e.1 = Some i)
            (filter (λ e, indicator e = VStr "both")
               (full_outer_join lkeys rkeys))) = partner_count a rkeys.
Proof.
  intros Ha. rewrite list_filter_filter.
  rewrite (list_filter_iff _ (λ e, indicator e = VStr "both" ∧ e.1 = Some i))
    by (intros e; naive_solver).
  rewrite <-list_filter_filter, (entries_of_left_row _ _ _ _ Ha).
  unfold partner_count. rewrite <-(length_positions a rkeys 0).
  destruct (positions a rkeys 0) as [|j rs]; [done|].
  rewrite filter_fmap, length_fmap. f_equal.
  by apply filter_every.
Qed.

Lemma count_alone_left i a :
  lkeys !! i = Some a →
  length (filter (λ e, e.1 = Some i)
            (filter (λ e, indicator e = VStr "left_only")
               (full_outer_join lkeys rkeys)))
  = if decide (partner_count a rkeys = 0) then 1 else 0.
Proof.
  intros Ha. rewrite list_filter_filter.
  rewrite (list_filter_iff _
    (λ e, indicator e = VStr "left_only" ∧ e.1 = Some i))
    by (intros e; naive_solver).
  rewrite <-list_filter_filter, (entries_of_left_row _ _ _ _ Ha).
  unfold partner_count. rewrite <-(length_positions a rkeys 0).
  destruct (positions a rkeys 0) as [|j rs]; [done|].
  rewrite filter_fmap, filter_none by done. done.
Qed.

Lemma count_pairs_right j b :
  rkeys !! j = Some b →
  length (filter (λ e, e.2 = Some j)
            (filter (λ e, indicator e = VStr "both")
               (full_outer_join lkeys rkeys))) = partner_count b lkeys.
Proof.
  intros Hb. rewrite list_filter_filter.
  rewrite (list_filter_iff _ (λ e, indicator e = VStr "both" ∧ e.2 = Some j))
    by (intros e; naive_solver).
  rewrite <-list_filter_filter, (entries_of_right_row _ _ _ _ Hb).
  unfold partner_count. rewrite <-(length_positions b lkeys 0).
  destruct (positions b lkeys 0) as [|i ls]; [done|].
  rewrite filter_fmap, length_fmap. f_equal.
  by apply filter_every.
Qed.

Lemma count_alone_right j b :
  rkeys !! j = Some b →
  length (filter (λ e, e.2 = Some j)
            (filter (λ e, indicator e = VStr "right_only")
               (full_outer_join lkeys rkeys)))
  = if decide (partner_count b lkeys = 0) then 1 else 0.
Proof.
  intros Hb. rewrite list_filter_filter.
  rewrite (list_filter_iff _
    (λ e, indicator e = VStr "right_only" ∧ e.2 = Some j))
    by (intros e; naive_solver).
  rewrite <-list_filter_filter, (entries_of_right_row _ _ _ _ Hb).
  unfold partner_count. rewrite <-(length_positions b lkeys 0).
  destruct (positions b lkeys 0) as [|i ls]; [done|].
  rewrite filter_fmap, filter_none by done. done.
Qed.

(** The matched entries are the pairs of a left row and a right row with
    equal keys: as many as the left rows have partners, and as many as the
    right rows have. *)
Lemma length_pairs_left :
  length (filter (λ e, indicator e = VStr "both")
            (full_outer_join lkeys rkeys))
  = sum_list_with (λ a, partner_count a rkeys) lkeys.
Proof.
  rewrite <-length_omap_fst
    by (intros [[i|] [j|]] [Hind _]%list_elem_of_filter; by eauto).
  rewrite (length_sum_index _ (length lkeys))
    by apply omap_filter_lt, lefts_lt.
  apply sum_index_list. intros i a Ha.
  rewrite length_filter_lefts. by apply count_pairs_left.
Qed.

Lemma length_pairs_right :
  length (filter (λ e, indicator e = VStr "both")
            (full_outer_join lkeys rkeys))
  = sum_list_with (λ b, partner_count b lkeys) rkeys.
Proof.
  rewrite <-length_omap_snd
    by (intros [[i|] [j|]] [Hind _]%list_elem_of_filter; by eauto).
  rewrite (length_sum_index _ (length rkeys))
    by apply omap_filter_lt, rights_lt.
  apply sum_index_list. intros j b Hb.
  rewrite length_filter_rights. by apply count_pairs_right.
Qed.

(** The left-only entries are the left rows without partner. *)
Lemma length_alone_left :
  length (filter (λ e, indicator e = VStr "left_only")
            (full_outer_join lkeys rkeys))
  = length (filter (λ a, partner_count a rkeys = 0) lkeys).
Proof.
  rewrite <-length_omap_fst
    by (intros [[i|] [j|]] [Hind _]%list_elem_of_filter; by eauto).
  rewrite (length_sum_index _ (length lkeys))
    by apply omap_filter_lt, lefts_lt.
  rewrite length_filter_sum.
  apply sum_index_list. intros i a Ha.
  rewrite length_filter_lefts. by apply count_alone_left.
Qed.

(** The right-only entries are the right rows without partner. *)
Lemma length_alone_right :
  length (filter (λ e, indicator e = VStr "right_only")
            (full_outer_join lkeys rkeys))
  = length (filter (λ b, partner_count b lkeys = 0) rkeys).
Proof.
  rewrite <-length_omap_snd.
  - rewrite (length_sum_index _ (length rkeys))
      by apply omap_filter_lt, rights_lt.
    rewrite length_filter_sum.
    apply sum_index_list. intros j b Hb.
    rewrite length_filter_rights. by apply count_alone_right.
  - intros [[i|] [j|]] [Hind He]%list_elem_of_filter; try by eauto.
    by apply full_outer_join_no_empty_entry in He.
Qed.
End rows_counted.

(** C3. Partition completeness.  When [compare_queries] returns, the rows of
    [merged] are the entries of the join index, without repetition.  A left
    row and a right row with equal keys meet in exactly one [both] entry; a
    left row without partner is in exactly one [left_only] entry and a right
    row without partner in exactly one [right_only] entry; there is no other
    entry.  A row is thus either matched or one-sided, never both: with
    [k >= 1] partners it takes part in [k] entries, one per pairing, without
    partner in one.  The three counts of the summary are the sizes of the
    three categories and add up to the number of rows of [merged]:
    [matches] counts the entries that pair a left row with a right row, which
    are as many as the left rows have partners in all (and as the right rows
    have); [only_in_query1] counts the left rows alone, which are the left
    rows without partner, and [only_in_query2] the right rows without
    partner. *)
Theorem partition_completeness df1 df2 mappings primary_keys rep :
  compare_queries df1 df2 mappings primary_keys = Ok rep →
  let df2_renamed := rename (mapping_dict mappings) df2 in
  let on := join_keys primary_keys (common_columns df1 df2_renamed) in
  let lkeys := key_of on df1 <$> rows df1 in
  let rkeys := key_of on df2_renamed <$> rows df2_renamed in
  let J := join_index df1 df2_renamed on in
  (∃ merged, merge df1 df2_renamed on = Ok merged ∧
     rows merged = concat_row df1 df2_renamed on <$> J) ∧
  NoDup J ∧
  (∀ i j, (Some i, Some j) ∈ J ↔ partners lkeys rkeys i j) ∧
  (∀ i, (Some i, None) ∈ J ↔ unmatched_left lkeys rkeys i) ∧
  (∀ j, (None, Some j) ∈ J ↔ unmatched_right lkeys rkeys j) ∧
  ((None, None) ∉ J) ∧
  (∀ i, i < len df1 →
     ((Some i, None) ∈ J ∧ ∀ j, (Some i, Some j) ∉ J) ∨
     (((Some i, None) ∉ J) ∧ ∃ j, (Some i, Some j) ∈ J)) ∧
  (∀ j, j < len df2 →
     ((None, Some j) ∈ J ∧ ∀ i, (Some i, Some j) ∉ J) ∨
     (((None, Some j) ∉ J) ∧ ∃ i, (Some i, Some j) ∈ J)) ∧
  (∀ i, i < len df1 → ∃ a, lkeys !! i = Some a ∧
     length (filter (λ e, e.1 = Some i) J) =
     Nat.max 1 (length (filter (λ b, key_eqb a b = true) rkeys))) ∧
  (∀ j, j < len df2 → ∃ b, rkeys !! j = Some b ∧
     length (filter (λ e, e.2 = Some j) J) =
     Nat.max 1 (length (filter (λ a, key_eqb b a = true) lkeys))) ∧
  matches_count (summary rep) =
    length (filter (λ e, indicator e = VStr "both") J) ∧
  only_in_query1_count (summary rep) =
    length (filter (λ e, indicator e = VStr "left_only") J) ∧
  only_in_query2_count (summary rep) =
    length (filter (λ e, indicator e = VStr "right_only") J) ∧
  matches_count (summary rep) + only_in_query1_count (summary rep) +
    only_in_query2_count (summary rep) = length J ∧
  matches_count (summary rep) = length (filter (λ e, is_pair e = true) J) ∧
  only_in_query1_count (summary rep) =
    length (filter (λ e, is_left_alone e = true) J) ∧
  only_in_query2_count (summary rep) =
    length (filter (λ e, is_right_alone e = true) J) ∧
  matches_count (summary rep) =
    sum_list_with (λ a, partner_count a rkeys) lkeys ∧
  matches_count (summary rep) =
    sum_list_with (λ b, partner_count b lkeys) rkeys ∧
  only_in_query1_count (summary rep) =
    length (filter (λ a, partner_count a rkeys = 0) lkeys) ∧
  only_in_query2_count (summary rep) =
    length (filter (λ b, partner_count b lkeys = 0) rkeys) ∧
  total_rows_query1 (summary rep) = length lkeys ∧
  total_rows_query2 (summary rep) = length rkeys.
Proof.
  intros Hcmp df2_renamed on lkeys rkeys J.
  apply compare_queries_Ok_inv in Hcmp as (merged & Hm & ->).
  fold df2_renamed on in Hm. split_and!.
  - exists merged. split; [done|].
    by apply merge_Ok_inv in Hm as (_ & _ & _ & ->).
  - apply NoDup_full_outer_join.
  - apply full_outer_join_both.
  - apply full_outer_join_left_only.
  - apply full_outer_join_right_only.
  - apply full_outer_join_no_empty_entry.
  - intros i Hi.
    destruct (lookup_lt_is_Some_2 lkeys i) as [a Ha].
    { unfold lkeys. by rewrite length_fmap. }
    unfold J, join_index. fold lkeys rkeys.
    rewrite full_outer_join_left_only.
    setoid_rewrite full_outer_join_both.
    by eapply left_row_category.
  - intros j Hj.
    destruct (lookup_lt_is_Some_2 rkeys j) as [b Hb].
    { unfold rkeys. by rewrite length_fmap. }
    unfold J, join_index. fold lkeys rkeys.
    rewrite full_outer_join_right_only.
    setoid_rewrite full_outer_join_both.
    by eapply right_row_category.
  - intros i Hi.
    destruct (lookup_lt_is_Some_2 lkeys i) as [a Ha].
    { unfold lkeys. by rewrite length_fmap. }
    exists a. split; [done|]. by apply count_left_row.
  - intros j Hj.
    destruct (lookup_lt_is_Some_2 rkeys j) as [b Hb].
    { unfold rkeys. by rewrite length_fmap. }
    exists b. split; [done|]. by apply count_right_row.
  - simpl. by rewrite (len_select _ _ _ _ _ Hm).
  - simpl. by rewrite (len_select _ _ _ _ _ Hm).
  - simpl. by rewrite (len_select _ _ _ _ _ Hm).
  - simpl. rewrite !(len_select _ _ _ _ _ Hm). symmetry.
    apply length_categories, full_outer_join_no_empty_entry.
  - simpl. rewrite (len_select _ _ _ _ _ Hm). unfold category. fold J.
    by destruct (filter_shape J (full_outer_join_no_empty_entry _ _))
      as (-> & _ & _).
  - simpl. rewrite (len_select _ _ _ _ _ Hm). unfold category. fold J.
    by destruct (filter_shape J (full_outer_join_no_empty_entry _ _))
      as (_ & -> & _).
  - simpl. rewrite (len_select _ _ _ _ _ Hm). unfold category. fold J.
    by destruct (filter_shape J (full_outer_join_no_empty_entry _ _))
      as (_ & _ & ->).
  - simpl. rewrite (len_select _ _ _ _ _ Hm). apply length_pairs_left.
  - simpl. rewrite (len_select _ _ _ _ _ Hm). apply length_pairs_right.
  - simpl. rewrite (len_select _ _ _ _ _ Hm). apply length_alone_left.
  - simpl. rewrite (len_select _ _ _ _ _ Hm). apply length_alone_right.
  - simpl. unfold len, lkeys. by rewrite length_fmap.
  - simpl. unfold len, rkeys. by rewrite length_fmap.
Qed.

Lemma pair_compare :
  compare_queries pair_left pair_right [] ["id"] = Ok pair_report.
Proof. vm_compute. reflexivity. Qed.

Lemma partition_completeness_witness :
  compare_queries pair_left pair_right [] ["id"] = Ok pair_report ∧
  matches_count (summary pair_report) =
    sum_list_with
      (λ a, partner_count a (key_of ["id"] pair_right <$> rows pair_right))
      (key_of ["id"] pair_left <$> rows pair_left) ∧
  only_in_query1_count (summary pair_report) =
    length (filter
      (λ a, partner_count a (key_of ["id"] pair_right <$> rows pair_right)
            = 0)
      (key_of ["id"] pair_left <$> rows pair_left)).
Proof.
  split; [exact pair_compare|].
  pose proof (partition_completeness pair_left pair_right [] ["id"]
                pair_report pair_compare)
    as (_ & _ & _ & _ & _ & _ & _ & _ & _ & _ & _ & _ & _ & _ & _ & _ & _ &
        Hm & _ & Hl & _).
  split; [exact Hm|exact Hl].
Defined.

(** ** The mismatch records *)

Section mismatches.
Variables (common on cols : list string) (row : list value).

Lemma foldl_step_lookup (l : list string) d c :
  foldl (compare_step on cols row) d l !! c =
  if decide (c ∈ l ∧ differs on cols row c)
  then Some (cell cols row (c +:+ "_query1"),
             cell cols row (c +:+ "_query2"))
  else d !! c.
Proof.
  revert d. induction l as [|c' l IH]; intros d.
  - rewrite decide_False; [done|]. by intros [?%not_elem_of_nil _].
  - cbn [foldl]. rewrite IH. unfold differs.
    destruct (decide (c ∈ l ∧ _)) as [[Hin Hd]|Hn].
    + rewrite decide_True; [done|]. split; [by right|done].
    + destruct (decide (c' = c)) as [->|Hne].
      * unfold compare_step.
        repeat case_decide; rewrite ?lookup_insert_eq; try done;
          set_solver.
      * assert (compare_step on cols row d c' !! c = d !! c) as Hstep.
        { unfold compare_step. repeat case_decide; try done.
          by rewrite lookup_insert_ne. }
        rewrite Hstep.
        rewrite (decide_False (P := c ∈ c' :: l ∧ _)); [done|].
        intros [[?|?]%elem_of_cons ?]; [done|]. by apply Hn.
Qed.

Lemma row_mismatches_lookup c v1 v2 :
  row_mismatches common on cols row !! c = Some (v1, v2) ↔
  c ∈ common ∧ differs on cols row c ∧
  v1 = cell cols row (c +:+ "_query1") ∧
  v2 = cell cols row (c +:+ "_query2").
Proof.
  unfold row_mismatches. rewrite foldl_step_lookup.
  case_decide as H; rewrite ?lookup_empty; naive_solver.
Qed.

Lemma row_mismatches_empty :
  row_mismatches common on cols row = ∅ ↔
  ¬ has_difference common on cols row.
Proof.
  unfold has_difference. rewrite Exists_exists. split.
  - intros Hempty (c & Hin & Hd).
    assert (row_mismatches common on cols row !! c =
            Some (cell cols row (c +:+ "_query1"),
                  cell cols row (c +:+ "_query2"))) as Hc
      by by apply row_mismatches_lookup.
    by rewrite Hempty, lookup_empty in Hc.
  - intros Hno. apply map_eq. intros c. rewrite lookup_empty.
    destruct (_ !! c) as [[v1 v2]|] eqn:Hc; [|done].
    apply row_mismatches_lookup in Hc. destruct Hno. naive_solver.
Qed.

End mismatches.

Lemma find_mismatches_filter common on df :
  find_mismatches common on df =
  mismatch_record common on (columns df) <$>
    filter (has_difference common on (columns df)) (rows df).
Proof.
  unfold find_mismatches. induction (rows df) as [|row l IH]; [done|].
  rewrite bind_cons, IH. case_decide as Hd.
  - apply row_mismatches_empty in Hd. by rewrite filter_cons_False.
  - rewrite filter_cons_True; [done|].
    apply dec_stable. by rewrite <-row_mismatches_empty.
Qed.

(** ** What the suffixed columns hold *)

Section suffixed.
Variables (df1 df2 : DataFrame) (on : list string).

Lemma overlap_true c :
  overlap (columns df1) (columns df2) on c = true ↔
  c ∈ columns df1 ∧ c ∈ columns df2 ∧ c ∉ on.
Proof.
  unfold overlap. rewrite !andb_true_iff, !bool_decide_eq_true.
  naive_solver.
Qed.

Lemma common_columns_overlap c :
  c ∈ common_columns df1 df2 → c ∉ on →
  overlap (columns df1) (columns df2) on c = true.
Proof.
  unfold common_columns. rewrite list_elem_of_filter, overlap_true.
  naive_solver.
Qed.

Lemma NoDup_merged_columns_left :
  NoDup (merged_columns df1 df2 on) → NoDup (columns df1).
Proof.
  unfold merged_columns, left_labels.
  intros [Hl _]%NoDup_app. by eapply NoDup_fmap_1.
Qed.

(** In a row made of the left row [lrow], the label [c_query1] holds the
    left row's value of the shared column [c]. *)
Lemma merged_cell_query1 c i r lrow :
  NoDup (merged_columns df1 df2 on) →
  overlap (columns df1) (columns df2) on c = true →
  rows df1 !! i = Some lrow →
  cell (merged_columns df1 df2 on) (concat_row df1 df2 on (Some i, r))
       (c +:+ "_query1")
  = cell (columns df1) lrow c.
Proof.
  intros Hnd Hov Hi.
  pose proof Hov as (Hc & _)%overlap_true.
  apply list_elem_of_lookup in Hc as [p Hp].
  rewrite (cell_lookup (columns df1) lrow c p);
    [|by apply NoDup_merged_columns_left|done].
  rewrite (cell_lookup _ _ _ p); [|done|].
  - unfold concat_row. simpl. rewrite Hi. simpl.
    rewrite lookup_app_l
      by (rewrite length_imap; by eapply lookup_lt_Some).
    by rewrite list_lookup_imap, Hp.
  - unfold merged_columns, left_labels.
    rewrite lookup_app_l
      by (rewrite length_fmap; by eapply lookup_lt_Some).
    rewrite list_lookup_fmap, Hp. simpl. unfold add_suffix. by rewrite Hov.
Qed.

(** Likewise [c_query2] holds the right row's value of [c]. *)
Lemma merged_cell_query2 c l j rrow :
  NoDup (merged_columns df1 df2 on) →
  overlap (columns df1) (columns df2) on c = true →
  rows df2 !! j = Some rrow →
  cell (merged_columns df1 df2 on) (concat_row df1 df2 on (l, Some j))
       (c +:+ "_query2")
  = cell (columns df2) rrow c.
Proof.
  intros Hnd Hov Hj.
  pose proof Hov as (_ & Hc & Hon)%overlap_true.
  assert (c ∈ right_columns df2 on) as [q Hq]%list_elem_of_lookup
    by by apply list_elem_of_filter.
  rewrite (cell_lookup _ _ _ (length (columns df1) + q)); [|done|].
  - unfold concat_row. simpl. rewrite Hj. simpl.
    rewrite lookup_app_r by (rewrite length_imap; lia).
    rewrite length_imap, Nat.add_comm, Nat.add_sub.
    rewrite lookup_app_l
      by (rewrite length_fmap; by eapply lookup_lt_Some).
    by rewrite list_lookup_fmap, Hq.
  - unfold merged_columns.
    rewrite lookup_app_r by (rewrite length_left_labels; lia).
    rewrite length_left_labels, Nat.add_comm, Nat.add_sub.
    unfold right_labels.
    rewrite lookup_app_l
      by (rewrite length_fmap; by eapply lookup_lt_Some).
    rewrite list_lookup_fmap, Hq. simpl. unfold add_suffix. by rewrite Hov.
Qed.
End suffixed.

(** ** More than a hundred mismatches *)

Lemma big_merge :
  merge big_left (rename (mapping_dict []) big_right)
        (join_keys ["id"]
           (common_columns big_left (rename (mapping_dict []) big_right)))
  = Ok big_merged.
Proof. vm_compute. reflexivity. Qed.


Lemma big_compare :
  compare_queries big_left big_right [] ["id"] = Ok big_report.
Proof.
  unfold compare_queries. rewrite big_merge.
  cbn [mbind result_bind]. reflexivity.
Qed.

(** C4. Truncation invariant.  Each of the four lists of the report is the
    first 100 entries, in the order of the join, of its category -- the rows
    of [merged] tagged [both], [left_only], [right_only], and the records
    found by the mismatch loop -- so it has at most 100 entries, while the
    corresponding count of the summary is the size of the whole category. *)
Theorem truncation_invariant df1 df2 mappings primary_keys rep :
  compare_queries df1 df2 mappings primary_keys = Ok rep →
  let df2_renamed := rename (mapping_dict mappings) df2 in
  let common := common_columns df1 df2_renamed in
  let on := join_keys primary_keys common in
  ∃ merged, merge df1 df2_renamed on = Ok merged ∧
    let records tag := to_record (columns merged) <$> rows (select merged tag) in
    let found := find_mismatches common on (select merged "both") in
    (matches rep = take 100 (records "both") ∧
     only_in_query1 rep = take 100 (records "left_only") ∧
     only_in_query2 rep = take 100 (records "right_only") ∧
     mismatches rep = take 100 found) ∧
    (matches_count (summary rep) = length (records "both") ∧
     only_in_query1_count (summary rep) = length (records "left_only") ∧
     only_in_query2_count (summary rep) = length (records "right_only") ∧
     mismatches_count (summary rep) = length found) ∧
    (length (matches rep) = Nat.min 100 (matches_count (summary rep)) ∧
     length (only_in_query1 rep) =
       Nat.min 100 (only_in_query1_count (summary rep)) ∧
     length (only_in_query2 rep) =
       Nat.min 100 (only_in_query2_count (summary rep)) ∧
     length (mismatches rep) = Nat.min 100 (mismatches_count (summary rep))) ∧
    (length (matches rep) ≤ 100 ∧ length (only_in_query1 rep) ≤ 100 ∧
     length (only_in_query2 rep) ≤ 100 ∧ length (mismatches rep) ≤ 100).
Proof.
  intros Hcmp df2_renamed common on.
  apply compare_queries_Ok_inv in Hcmp as (merged & Hm & ->).
  exists merged. split; [done|].
  cbn [matches only_in_query1 only_in_query2 mismatches summary matches_count
       only_in_query1_count only_in_query2_count mismatches_count].
  rewrite !(preview_select _ _ _ _ _ Hm).
  unfold head_records, len. cbn [columns select].
  rewrite !fmap_take, !length_take, !length_fmap.
  split_and!; try done; lia.
Qed.

Lemma truncation_invariant_witness :
  compare_queries big_left big_right [] ["id"] = Ok big_report ∧
  length (matches big_report) = Nat.min 100 101 ∧
  length (mismatches big_report) ≤ 100.
Proof.
  split; [exact big_compare|].
  destruct (truncation_invariant big_left big_right [] ["id"] big_report
              big_compare) as (merged & _ & _ & _ & Hlen & Hle).
  split; [apply Hlen|apply Hle].
Defined.

(** ** The example scenario *)

(** C1 (amended). On the example of the specification [compare_queries]
    returns a report with [total_rows_query1 = 2], [total_rows_query2 = 3],
    [mismatches = 1], [only_in_query2 = 1], exactly one mismatch record, with
    key [{id: 2}] and differences [{name: {query1: "B", query2: "C"}}], and
    one right-only record, which is the row of the merged frame:
    [{id: 3, name_query1: nan, name_query2: "D", _merge: "right_only"}]. *)
Theorem example_scenario :
  ∃ rep, compare_queries ex_left ex_right [] ["id"] = Ok rep ∧
    total_rows_query1 (summary rep) = 2 ∧
    total_rows_query2 (summary rep) = 3 ∧
    mismatches_count (summary rep) = 1 ∧
    only_in_query2_count (summary rep) = 1 ∧
    mismatches rep =
      [ {| key_values := {["id" := VInt 2]};
           differences := {["name" := (VStr "B", VStr "C")]} |} ] ∧
    only_in_query2 rep =
      [ list_to_map [("id", VInt 3); ("name_query1", VNaN);
                     ("name_query2", VStr "D");
                     ("_merge", VStr "right_only")] ].
Proof. exists ex_report. split; [exact ex_compare|]. by split_and!. Qed.

(** C1, counterexample.  The report of the example is not the one the claim
    describes: the right-only record is not [{id: 3, name: "D"}] (and the
    summary's [matches] is 2, the number of rows with [_merge = "both"]). *)
Lemma example_scenario_counterexample :
  ¬ ∃ rep, compare_queries ex_left ex_right [] ["id"] = Ok rep ∧
      total_rows_query1 (summary rep) = 2 ∧
      total_rows_query2 (summary rep) = 3 ∧
      matches_count (summary rep) = 1 ∧
      mismatches_count (summary rep) = 1 ∧
      only_in_query2_count (summary rep) = 1 ∧
      mismatches rep =
        [ {| key_values := {["id" := VInt 2]};
             differences := {["name" := (VStr "B", VStr "C")]} |} ] ∧
      only_in_query2 rep =
        [ list_to_map [("id", VInt 3); ("name", VStr "D")] ].
Proof.
  intros (rep & Hcmp & _ & _ & _ & _ & _ & _ & Hrec).
  rewrite ex_compare in Hcmp. injection Hcmp as <-.
  apply (f_equal (λ l, l !! 0 ≫= (.!! "_merge"))) in Hrec.
  vm_compute in Hrec. discriminate.
Qed.

(** ** The column mapper *)

(** C5, the code at the failing input.  With the pair (left [name], right
    [full_name]) the dictionary passed to [rename] is keyed by the left name,
    so the right frame's [full_name] keeps its label, is not among the
    compared columns, and the different values ["A"] and ["B"] are not
    reported. *)
Theorem column_mapper_direction :
  columns (rename (mapping_dict map_pairs) map_right) = ["id"; "full_name"] ∧
  compare_queries map_left map_right map_pairs ["id"] = Ok map_report.
Proof. split; vm_compute; reflexivity. Qed.

(** ** Join keys that are not columns *)

Lemma check_label_Ok cols k :
  check_label cols k = Ok () ↔ length (filter (λ c, c = k) cols) = 1.
Proof.
  unfold check_label.
  destruct (length (filter (λ c, c = k) cols)) as [|[|n]]; naive_solver.
Qed.

Lemma check_label_absent cols k :
  k ∉ cols → check_label cols k = Err (KeyError k).
Proof.
  intros Hk. unfold check_label.
  destruct (filter (λ c, c = k) cols) as [|c l] eqn:Hf; [done|].
  assert (c ∈ filter (λ c, c = k) cols) as [-> ?]%list_elem_of_filter
    by (rewrite Hf; by left).
  done.
Qed.

Lemma check_label_present cols k :
  k ∈ cols →
  check_label cols k = Ok () ∨ check_label cols k = Err (ValueError_not_unique k).
Proof.
  intros Hk. unfold check_label.
  destruct (filter (λ c, c = k) cols) as [|c [|c' l]] eqn:Hf; simpl; auto.
  assert (k ∈ filter (λ c, c = k) cols) as Hin
    by by apply list_elem_of_filter.
  rewrite Hf in Hin. by apply not_elem_of_nil in Hin.
Qed.

Lemma check_label_NoDup cols k :
  NoDup cols → k ∈ cols → check_label cols k = Ok ().
Proof.
  intros Hnd Hk. apply check_label_Ok.
  induction Hnd as [|c cols Hc Hnd IH]; [by apply not_elem_of_nil in Hk|].
  destruct (decide (c = k)) as [->|Hne].
  - rewrite filter_cons_True by done. simpl. f_equal.
    destruct (filter (λ c, c = k) cols) as [|c l] eqn:Hf; [done|].
    assert (c ∈ filter (λ c, c = k) cols) as [-> ?]%list_elem_of_filter
      by (rewrite Hf; by left).
    done.
  - rewrite filter_cons_False by done.
    apply IH. apply elem_of_cons in Hk as [->|]; done.
Qed.

(** What [get_merge_keys] raises when some key is not a column of both
    frames. *)
Lemma get_merge_keys_absent lcols rcols on :
  (∃ k, k ∈ on ∧ (k ∉ lcols ∨ k ∉ rcols)) →
  ∃ k, k ∈ on ∧
    (get_merge_keys lcols rcols on = Err (KeyError k) ∧
       (k ∉ lcols ∨ k ∉ rcols)
     ∨ get_merge_keys lcols rcols on = Err (ValueError_not_unique k)).
Proof.
  induction on as [|k0 on IH]; intros (k & Hk & Habs).
  { by apply not_elem_of_nil in Hk. }
  cbn [get_merge_keys]. unfold mbind, result_bind.
  destruct (decide (k0 ∈ rcols)) as [Hr|Hr].
  - destruct (check_label_present _ _ Hr) as [->| ->].
    + destruct (decide (k0 ∈ lcols)) as [Hl|Hl].
      * destruct (check_label_present _ _ Hl) as [->| ->].
        -- destruct IH as (k' & Hk' & Hres).
           { exists k. split; [|done].
             apply elem_of_cons in Hk as [->|]; [|done]. naive_solver. }
           exists k'. split; [by right|done].
        -- exists k0. split; [by left|by right].
      * rewrite (check_label_absent _ _ Hl).
        exists k0. split; [by left|]. left. auto.
    + exists k0. split; [by left|by right].
  - rewrite (check_label_absent _ _ Hr).
    exists k0. split; [by left|]. left. auto.
Qed.

Lemma get_merge_keys_absent_NoDup lcols rcols on :
  NoDup lcols → NoDup rcols →
  (∃ k, k ∈ on ∧ (k ∉ lcols ∨ k ∉ rcols)) →
  ∃ k, k ∈ on ∧ (k ∉ lcols ∨ k ∉ rcols) ∧
    get_merge_keys lcols rcols on = Err (KeyError k).
Proof.
  intros Hl Hr. induction on as [|k0 on IH]; intros (k & Hk & Habs).
  { by apply not_elem_of_nil in Hk. }
  cbn [get_merge_keys]. unfold mbind, result_bind.
  destruct (decide (k0 ∈ rcols)) as [Hr0|Hr0];
    [|rewrite (check_label_absent _ _ Hr0); exists k0; split_and!;
      [by left|by right|done]].
  rewrite (check_label_NoDup _ _ Hr Hr0).
  destruct (decide (k0 ∈ lcols)) as [Hl0|Hl0];
    [|rewrite (check_label_absent _ _ Hl0); exists k0; split_and!;
      [by left|by left|done]].
  rewrite (check_label_NoDup _ _ Hl Hl0).
  destruct IH as (k' & Hk' & Habs' & Hres).
  { exists k. split; [|done].
    apply elem_of_cons in Hk as [->|]; [|done]. naive_solver. }
  exists k'. split_and!; [by right|done|done].
Qed.

Lemma join_keys_primary primary_keys common k :
  k ∈ primary_keys → join_keys primary_keys common = primary_keys.
Proof. destruct primary_keys; [by intros ?%not_elem_of_nil|done]. Qed.

Lemma compare_queries_raises df1 df2 mappings primary_keys e :
  let df2_renamed := rename (mapping_dict mappings) df2 in
  get_merge_keys (columns df1) (columns df2_renamed)
    (join_keys primary_keys (common_columns df1 df2_renamed)) = Err e →
  compare_queries df1 df2 mappings primary_keys = Err e.
Proof.
  intros df2_renamed He. subst df2_renamed.
  unfold compare_queries, merge. cbv zeta. by rewrite He.
Qed.

(** C6. Schema mismatch.  When a requested join key is not a column of the
    left frame or of the renamed right frame, [compare_queries] raises and
    returns no report: the exception is the [KeyError] of an absent key (or,
    when a key met before it labels several columns, pandas' complaint about
    that key).  With distinct labels in both frames it is the [KeyError] of
    an absent key.  The exception depends on the two schemas only, not on any
    row. *)
Theorem schema_mismatch_fails df1 df2 mappings primary_keys :
  let df2_renamed := rename (mapping_dict mappings) df2 in
  (∃ k, k ∈ primary_keys ∧
        (k ∉ columns df1 ∨ k ∉ columns df2_renamed)) →
  (∃ e, compare_queries df1 df2 mappings primary_keys = Err e ∧
        schema_mismatch e) ∧
  (NoDup (columns df1) → NoDup (columns df2_renamed) →
   ∃ k, k ∈ primary_keys ∧ (k ∉ columns df1 ∨ k ∉ columns df2_renamed) ∧
     compare_queries df1 df2 mappings primary_keys = Err (KeyError k)) ∧
  (∀ rows1 rows2,
     compare_queries {| columns := columns df1; rows := rows1 |}
                     {| columns := columns df2; rows := rows2 |}
                     mappings primary_keys
     = compare_queries df1 df2 mappings primary_keys).
Proof.
  intros df2_renamed Habs.
  assert (∀ d1 d2, columns d1 = columns df1 → columns d2 = columns df2 →
          ∀ e, get_merge_keys (columns df1) (columns df2_renamed) primary_keys
               = Err e →
          compare_queries d1 d2 mappings primary_keys = Err e) as Hraise.
  { intros d1 d2 H1 H2 e He. apply compare_queries_raises.
    destruct Habs as (k & Hk & _).
    rewrite (join_keys_primary _ _ k Hk), H1.
    unfold rename. cbn [columns]. by rewrite H2. }
  split_and!.
  - destruct (get_merge_keys_absent _ _ _ Habs) as (k & _ & [[He _]|He]).
    + exists (KeyError k). split; [by apply Hraise|done].
    + exists (ValueError_not_unique k). split; [by apply Hraise|done].
  - intros Hl Hr.
    destruct (get_merge_keys_absent_NoDup _ _ _ Hl Hr Habs)
      as (k & Hk & Hka & He).
    exists k. split_and!; [done..|]. by apply Hraise.
  - intros rows1 rows2.
    destruct (get_merge_keys_absent _ _ _ Habs) as (k & _ & [[He _]|He]);
      rewrite (Hraise df1 df2 eq_refl eq_refl _ He); by apply Hraise.
Qed.

Lemma schema_mismatch_fails_witness :
  (∃ k, k ∈ ["customer"] ∧
     (k ∉ columns ex_left ∨ k ∉ columns (rename (mapping_dict []) ex_right))) ∧
  ∃ e, compare_queries ex_left ex_right [] ["customer"] = Err e ∧
       schema_mismatch e.
Proof.
  assert (∃ k, k ∈ ["customer"] ∧
     (k ∉ columns ex_left ∨ k ∉ columns (rename (mapping_dict []) ex_right)))
    as Habs.
  { exists "customer". split; [by left|]. left. by_compute. }
  split; [exact Habs|].
  apply (schema_mismatch_fails ex_left ex_right [] ["customer"] Habs).
Defined.

(** ** Mappings with repeated names *)

Lemma mapping_dict_snoc mappings m :
  mapping_dict (mappings ++ [m]) =
  <[Mapping.left m := Mapping.right m]> (mapping_dict mappings).
Proof. unfold mapping_dict. by rewrite foldl_snoc. Qed.

Lemma mapping_dict_lookup mappings l :
  mapping_dict mappings !! l =
  Mapping.right <$> last (filter (λ m, Mapping.left m = l) mappings).
Proof.
  induction mappings as [|m mappings IH] using rev_ind; [done|].
  rewrite mapping_dict_snoc, filter_app.
  destruct (decide (Mapping.left m = l)) as [<-|Hne].
  - rewrite lookup_insert_eq, filter_cons_True by done.
    by rewrite filter_nil, last_snoc.
  - rewrite lookup_insert_ne, filter_cons_False by done.
    by rewrite filter_nil, app_nil_r.
Qed.

Lemma mapping_dict_shadowed mappings m :
  Mapping.left m ∈ Mapping.left <$> mappings →
  mapping_dict (m :: mappings) = mapping_dict mappings.
Proof.
  intros (m' & Heq & Hin)%list_elem_of_fmap.
  apply map_eq. intros l. rewrite !mapping_dict_lookup.
  destruct (decide (Mapping.left m = l)) as [<-|Hne].
  - rewrite filter_cons_True by done.
    assert (m' ∈ filter (λ m0, Mapping.left m0 = Mapping.left m) mappings)
      as Hf by by apply list_elem_of_filter.
    destruct (filter _ mappings) as [|m0 ms]; [by apply not_elem_of_nil in Hf|].
    done.
  - by rewrite filter_cons_False.
Qed.

(** C7, counterexample.  Two pairs with the same left name, and two pairs with
    the same right target, are accepted: the comparison returns a report. *)
Lemma invalid_mapping_counterexample :
  ¬ NoDup (Mapping.left <$> dup_left_pairs) ∧
  (∃ rep, compare_queries ex_left ex_right dup_left_pairs ["id"] = Ok rep) ∧
  ¬ NoDup (Mapping.right <$> same_target_pairs) ∧
  (∃ rep, compare_queries ex_left ex_right same_target_pairs ["id"] = Ok rep).
Proof.
  split_and!.
  - by_compute.
  - eexists. vm_compute. reflexivity.
  - by_compute.
  - eexists. vm_compute. reflexivity.
Qed.

(** C7 (amended). The mapping is not validated.  The pairs are written into a
    dictionary keyed by the left name, in order, so that of several pairs
    with the same left name the last one is applied and the earlier ones are
    ignored; pairs sharing a right target are all applied.  The only
    exceptions [compare_queries] raises are those of the merge. *)
Theorem mapping_not_validated df1 df2 mappings primary_keys :
  let df2_renamed := rename (mapping_dict mappings) df2 in
  (∀ l, mapping_dict mappings !! l =
        Mapping.right <$> last (filter (λ m, Mapping.left m = l) mappings)) ∧
  (∀ c, c ∈ columns df2_renamed ↔
        ∃ c0, c0 ∈ columns df2 ∧
          c = default c0 (Mapping.right <$>
                 last (filter (λ m, Mapping.left m = c0) mappings))) ∧
  (∀ m, Mapping.left m ∈ Mapping.left <$> mappings →
        compare_queries df1 df2 (m :: mappings) primary_keys =
        compare_queries df1 df2 mappings primary_keys) ∧
  (∀ e, compare_queries df1 df2 mappings primary_keys = Err e →
        merge df1 df2_renamed
          (join_keys primary_keys (common_columns df1 df2_renamed)) = Err e).
Proof.
  intros df2_renamed. split_and!.
  - apply mapping_dict_lookup.
  - intros c. unfold df2_renamed, rename. cbn [columns].
    rewrite list_elem_of_fmap. split.
    + intros (c0 & -> & Hc0). exists c0. by rewrite mapping_dict_lookup.
    + intros (c0 & Hc0 & ->). exists c0. by rewrite mapping_dict_lookup.
  - intros m Hm. unfold compare_queries. by rewrite mapping_dict_shadowed.
  - intros e. unfold compare_queries. fold df2_renamed.
    destruct (merge _ _ _); [done|]. by intros [= ->].
Qed.

(** ** Null keys *)

Lemma key_value_eqb_spec a b :
  key_value_eqb a b = true ↔ a = b ∨ (isna a = true ∧ isna b = true).
Proof.
  destruct a, b; simpl; rewrite ?bool_decide_eq_true; naive_solver.
Qed.

Lemma key_eqb_fmap {A} (f g : A → value) (l : list A) :
  key_eqb (f <$> l) (g <$> l) = true ↔
  ∀ x, x ∈ l → key_value_eqb (f x) (g x) = true.
Proof.
  induction l as [|x l IH]; simpl.
  - split; [|done]. by intros _ x ?%not_elem_of_nil.
  - rewrite andb_true_iff, IH. split.
    + intros [Hx Hl] y [->|Hy]%elem_of_cons; auto.
    + intros Hall. split; [apply Hall; by left|].
      intros y Hy. apply Hall. by right.
Qed.

(** C8, counterexample.  The single left row and the single right row both
    have [None] in the key column [id]; they form a matched pair, and the
    report counts one match and no one-sided row. *)
Lemma null_keys_counterexample :
  isna (cell (columns null_left) [VNone; VStr "A"] "id") = true ∧
  isna (cell (columns null_right) [VNone; VStr "B"] "id") = true ∧
  (Some 0, Some 0) ∈ join_index null_left null_right ["id"] ∧
  ∃ rep, compare_queries null_left null_right [] ["id"] = Ok rep ∧
    matches_count (summary rep) = 1 ∧
    only_in_query1_count (summary rep) = 0 ∧
    only_in_query2_count (summary rep) = 0.
Proof.
  split_and!; [done|done|by_compute|].
  eexists. split; [vm_compute; reflexivity|done].
Qed.

(** C8 (amended). Key equality in the alignment.  A left row and a right row
    form a matched pair exactly when, for every join key, their two key cells
    hold the same value or are both null ([None] or [nan]): key cells are
    compared by value, without string normalization, and null keys are
    treated as equal to each other. *)
Theorem null_keys_match df1 df2 on i j lrow rrow :
  rows df1 !! i = Some lrow → rows df2 !! j = Some rrow →
  (Some i, Some j) ∈ category df1 df2 on "both" ↔
  ∀ k, k ∈ on →
    cell (columns df1) lrow k = cell (columns df2) rrow k ∨
    (isna (cell (columns df1) lrow k) = true ∧
     isna (cell (columns df2) rrow k) = true).
Proof.
  intros Hi Hj. rewrite elem_of_category_both. unfold partners.
  setoid_rewrite <-key_value_eqb_spec.
  rewrite <-(key_eqb_fmap (cell (columns df1) lrow) (cell (columns df2) rrow)).
  split.
  - intros (i' & j' & [= <- <-] & a & b & Ha & Hb & Hab).
    rewrite list_lookup_fmap, Hi in Ha. rewrite list_lookup_fmap, Hj in Hb.
    by simplify_eq/=.
  - intros Hab. exists i, j. split; [done|].
    exists (key_of on df1 lrow), (key_of on df2 rrow).
    by rewrite !list_lookup_fmap, Hi, Hj.
Qed.

Lemma null_keys_match_witness :
  rows null_left !! 0 = Some [VNone; VStr "A"] ∧
  rows null_right !! 0 = Some [VNone; VStr "B"] ∧
  (Some 0, Some 0) ∈ category null_left null_right ["id"] "both".
Proof.
  split_and!; [done|done|].
  apply (null_keys_match null_left null_right ["id"] 0 0
           [VNone; VStr "A"] [VNone; VStr "B"] eq_refl eq_refl).
  intros k ->%list_elem_of_singleton. right. done.
Defined.

(** ** The string form of a null *)

(** C9, counterexample.  A null on the left and the text ["None"] on the
    right of a matched pair have the same string form; no mismatch is
    recorded.  The same holds for a [nan] against the text ["nan"]. *)
Lemma null_string_form_counterexample :
  str VNone = str (VStr "None") ∧
  (∃ rep, compare_queries none_left none_right [] ["id"] = Ok rep ∧
     matches rep =
       [ list_to_map [("id", VInt 1); ("status_query1", VNone);
                      ("status_query2", VStr "None");
                      ("_merge", VStr "both")] ] ∧
     mismatches rep = [] ∧
     mismatches_count (summary rep) = 0) ∧
  str VNaN = str (VStr "nan") ∧
  (∃ rep, compare_queries nan_left nan_right [] ["id"] = Ok rep ∧
     matches rep =
       [ list_to_map [("id", VInt 1); ("status_query1", VNaN);
                      ("status_query2", VStr "nan");
                      ("_merge", VStr "both")] ] ∧
     mismatches rep = [] ∧
     mismatches_count (summary rep) = 0).
Proof.
  split_and!; [done| |done|];
    (eexists; split; [vm_compute; reflexivity|done]).
Qed.

(** C9 (amended). In the comparison a null takes Python's string form,
    ["None"] for [None] and ["nan"] for [nan].  For a compared column of a
    matched row whose left value is null and whose right value is a text
    [s], a difference is recorded exactly when [s] is not that string form:
    [None] against ["None"] and [nan] against ["nan"] are not differences,
    [None] against ["null"] is one, recorded with the two original values.
    The same holds with the null on the right and the text on the left. *)
Theorem null_string_form common on cols row c :
  c ∈ common → c ∉ on →
  let val1 := cell cols row (c +:+ "_query1") in
  let val2 := cell cols row (c +:+ "_query2") in
  let recorded := differences (mismatch_record common on cols row) !! c in
  str VNone = "None" ∧ str VNaN = "nan" ∧
  (isna val1 = true → ∀ s, val2 = VStr s →
     (recorded = None ↔ s = str val1) ∧
     (recorded = Some (val1, val2) ↔ s ≠ str val1)) ∧
  (val1 = VNone → val2 = VStr "None" → recorded = None) ∧
  (val1 = VNaN → val2 = VStr "nan" → recorded = None) ∧
  (val1 = VNone → val2 = VStr "null" →
     recorded = Some (VNone, VStr "null")) ∧
  (isna val2 = true → ∀ s, val1 = VStr s →
     (recorded = None ↔ s = str val2) ∧
     (recorded = Some (val1, val2) ↔ s ≠ str val2)).
Proof.
  intros Hc Hon val1 val2 recorded.
  assert (recorded = if decide (str val1 ≠ str val2)
                     then Some (val1, val2) else None) as Hrec.
  { unfold recorded. cbn [differences mismatch_record].
    destruct (row_mismatches common on cols row !! c) as [[v1 v2]|] eqn:Hl.
    - apply row_mismatches_lookup in Hl as (_ & [_ Hne] & -> & ->).
      by rewrite decide_True.
    - case_decide as Hne; [|done].
      assert (row_mismatches common on cols row !! c = Some (val1, val2))
        as Hl' by by apply row_mismatches_lookup.
      congruence. }
  split_and!; [done|done| | | | |].
  - intros _ s Hs. rewrite Hrec, Hs. cbn [str].
    destruct (decide (str val1 ≠ s)) as [Hne|Heq].
    + split; split; try done; congruence.
    + apply dec_stable in Heq. split; split; try done; congruence.
  - intros H1 H2. rewrite Hrec, H1, H2. done.
  - intros H1 H2. rewrite Hrec, H1, H2. done.
  - intros H1 H2. rewrite Hrec, H1, H2. done.
  - intros _ s Hs. rewrite Hrec, Hs. cbn [str].
    destruct (decide (s ≠ str val2)) as [Hne|Heq].
    + split; split; try done; congruence.
    + apply dec_stable in Heq. split; split; try done; congruence.
Qed.

Lemma null_string_form_witness :
  "status" ∈ ["status"] ∧ ("status" ∉ ["id"]) ∧
  differences
    (mismatch_record ["status"] ["id"]
       ["id"; "status_query1"; "status_query2"; "_merge"]
       [VInt 1; VNone; VStr "None"; VStr "both"]) !! "status" = None.
Proof.
  assert ("status" ∈ ["status"]) as Hc by by_compute.
  assert ("status" ∉ ["id"]) as Hon by by_compute.
  split_and!; [exact Hc|exact Hon|].
  destruct (null_string_form ["status"] ["id"]
              ["id"; "status_query1"; "status_query2"; "_merge"]
              [VInt 1; VNone; VStr "None"; VStr "both"] "status" Hc Hon)
    as (_ & _ & _ & Hnone & _).
  apply Hnone; reflexivity.
Defined.

(** ** The records of the previews *)

Lemma to_record_snoc cols row c v :
  length cols = length row →
  to_record (cols ++ [c]) (row ++ [v]) = <[c := v]> (to_record cols row).
Proof.
  intros Hlen. unfold to_record.
  rewrite zip_with_app by done. by rewrite foldl_app.
Qed.

Lemma to_record_is_Some cols row l :
  length cols = length row →
  is_Some (to_record cols row !! l) ↔ l ∈ cols.
Proof.
  intros Hlen. rewrite <-(fst_zip cols row) at 2 by lia.
  unfold to_record.
  enough (∀ kvs (d : gmap string value),
    is_Some (foldl (λ d kv, <[kv.1 := kv.2]> d) d kvs !! l) ↔
    is_Some (d !! l) ∨ l ∈ kvs.*1) as Hgen.
  { rewrite Hgen, lookup_empty, is_Some_alt. naive_solver. }
  induction kvs as [|[k v] kvs IH]; intros d.
  - cbn [foldl fmap list_fmap]. rewrite elem_of_nil. naive_solver.
  - cbn [foldl]. rewrite IH, lookup_insert_is_Some', fmap_cons, elem_of_cons.
    cbn [fst snd]. naive_solver.
Qed.

(** In a frame whose key labels are unique, the key columns are no more than
    the columns of the other frame that carries them. *)
Lemma NoDup_filter_unique (P : string → Prop) `{!∀ x, Decision (P x)}
    (l : list string) :
  (∀ x, x ∈ l → P x → length (filter (λ c, c = x) l) ≤ 1) →
  NoDup (filter P l).
Proof.
  induction l as [|x l IH]; intros Hcount; [constructor|].
  assert (NoDup (filter P l)) as Hnd.
  { apply IH. intros y Hy HP. specialize (Hcount y (list_elem_of_further _ _ _ Hy) HP).
    destruct (decide (x = y)).
    - rewrite filter_cons_True in Hcount by done. simpl in Hcount. lia.
    - by rewrite filter_cons_False in Hcount. }
  destruct (decide (P x)) as [HP|HP].
  - rewrite filter_cons_True by done. constructor; [|done].
    intros [_ Hx]%list_elem_of_filter.
    specialize (Hcount x (list_elem_of_here _ _) HP).
    rewrite filter_cons_True in Hcount by done. simpl in Hcount.
    assert (x ∈ filter (λ c, c = x) l) as Hin by by apply list_elem_of_filter.
    destruct (filter (λ c, c = x) l); [by apply not_elem_of_nil in Hin|].
    simpl in Hcount. lia.
  - by rewrite filter_cons_False.
Qed.

Lemma get_merge_keys_Ok lcols rcols on k :
  get_merge_keys lcols rcols on = Ok () → k ∈ on →
  length (filter (λ c, c = k) lcols) = 1 ∧
  length (filter (λ c, c = k) rcols) = 1.
Proof.
  induction on as [|k0 on IH]; [by intros _ ?%not_elem_of_nil|].
  cbn [get_merge_keys]. unfold mbind, result_bind.
  destruct (check_label rcols k0) as [[]|] eqn:Hr; [|done].
  destruct (check_label lcols k0) as [[]|] eqn:Hl; [|done].
  intros Hok [->|Hin]%elem_of_cons; [|by apply IH].
  by split; apply check_label_Ok.
Qed.

Lemma length_key_columns lcols rcols on :
  get_merge_keys lcols rcols on = Ok () →
  length (filter (λ c, c ∈ on) rcols) ≤ length lcols.
Proof.
  intros Hok. apply submseteq_length, NoDup_submseteq.
  - apply NoDup_filter_unique. intros x _ Hx.
    by destruct (get_merge_keys_Ok _ _ _ x Hok Hx) as [_ ->].
  - intros x [Hx _]%list_elem_of_filter.
    destruct (get_merge_keys_Ok _ _ _ x Hok Hx) as [Hl _].
    destruct (filter (λ c, c = x) lcols) as [|c l] eqn:Hf; [done|].
    assert (c ∈ filter (λ c, c = x) lcols) as [-> ?]%list_elem_of_filter
      by (rewrite Hf; by left).
    done.
Qed.

Section previews.
Variables (df1 df2 : DataFrame) (on : list string).

Lemma merged_columns_longer :
  get_merge_keys (columns df1) (columns df2) on = Ok () →
  length (columns df1) < length (merged_columns df1 df2 on) ∧
  length (columns df2) < length (merged_columns df1 df2 on).
Proof.
  intros Hok. unfold merged_columns.
  rewrite !length_app, length_left_labels, length_right_labels.
  unfold right_columns. simpl. split; [lia|].
  pose proof (length_key_columns _ _ _ Hok) as Hkeys.
  pose proof (filter_app_complement (λ c, c ∈ on) (columns df2)) as Hperm.
  apply Permutation_length in Hperm. rewrite length_app in Hperm. lia.
Qed.

Lemma to_record_concat_row e l :
  is_Some (to_record (merged_columns df1 df2 on)
                     (concat_row df1 df2 on e) !! l)
  ↔ l ∈ merged_columns df1 df2 on.
Proof. apply to_record_is_Some. by rewrite length_concat_row. Qed.

Lemma to_record_indicator e :
  to_record (merged_columns df1 df2 on) (concat_row df1 df2 on e) !! "_merge"
  = Some (indicator e).
Proof.
  unfold merged_columns, concat_row. rewrite !(assoc_L (++)).
  rewrite to_record_snoc; [by rewrite lookup_insert_eq|].
  by rewrite !length_app, length_imap, length_fmap,
    length_left_labels, length_right_labels.
Qed.

Lemma elem_of_head_records merged tag n rec :
  merge df1 df2 on = Ok merged →
  rec ∈ head_records n (select merged tag) →
  ∃ e, e ∈ category df1 df2 on tag ∧
       rec = to_record (merged_columns df1 df2 on) (concat_row df1 df2 on e).
Proof.
  intros Hm. unfold head_records.
  rewrite (columns_select _ _ _ _ _ Hm).
  intros (row & -> & Hrow%subseteq_take)%list_elem_of_fmap.
  rewrite (rows_select _ _ _ _ _ Hm) in Hrow.
  apply list_elem_of_fmap in Hrow as (e & -> & He). by exists e.
Qed.

Lemma suffixed_labels c :
  overlap (columns df1) (columns df2) on c = true →
  (∀ p, columns df1 !! p = Some c →
     merged_columns df1 df2 on !! p = Some (c +:+ "_query1")) ∧
  (∀ q, right_columns df2 on !! q = Some c →
     merged_columns df1 df2 on !! (length (columns df1) + q)
     = Some (c +:+ "_query2")) ∧
  c +:+ "_query1" ∈ merged_columns df1 df2 on ∧
  c +:+ "_query2" ∈ merged_columns df1 df2 on.
Proof.
  intros Hov.
  assert (∀ p, columns df1 !! p = Some c →
     merged_columns df1 df2 on !! p = Some (c +:+ "_query1")) as H1.
  { intros p Hp. unfold merged_columns, left_labels.
    rewrite lookup_app_l
      by (rewrite length_fmap; by eapply lookup_lt_Some).
    rewrite list_lookup_fmap, Hp. simpl. unfold add_suffix.
    by rewrite Hov. }
  assert (∀ q, right_columns df2 on !! q = Some c →
     merged_columns df1 df2 on !! (length (columns df1) + q)
     = Some (c +:+ "_query2")) as H2.
  { intros q Hq. unfold merged_columns.
    rewrite lookup_app_r by (rewrite length_left_labels; lia).
    rewrite length_left_labels, Nat.add_comm, Nat.add_sub.
    unfold right_labels.
    rewrite lookup_app_l
      by (rewrite length_fmap; by eapply lookup_lt_Some).
    rewrite list_lookup_fmap, Hq. simpl. unfold add_suffix.
    by rewrite Hov. }
  apply overlap_true in Hov as (Hl & Hr & Hon).
  split_and!; [done|done| |].
  - apply list_elem_of_lookup in Hl as [p Hp].
    eapply list_elem_of_lookup_2. by apply H1.
  - assert (c ∈ right_columns df2 on) as [q Hq]%list_elem_of_lookup
      by by apply list_elem_of_filter.
    eapply list_elem_of_lookup_2. by apply H2.
Qed.
End previews.

(** C10. The schema of the preview records.  Every record of [matches],
    [only_in_query1] and [only_in_query2] has exactly the labels of the merged
    frame as its fields.  Its field [_merge] holds ['both'], ['left_only'] or
    ['right_only'] according to the list it is in.  Every shared non-key
    column [c] is present as [c_query1] -- the label standing where [c]
    stands in the first schema -- and as [c_query2], where [c] stands among
    the second frame's non-key columns.  The label [_merge] comes last and is
    a column of neither input, and the merged schema is longer than both
    input schemas, hence different from both. *)
Theorem preview_schema df1 df2 mappings primary_keys rep :
  compare_queries df1 df2 mappings primary_keys = Ok rep →
  let df2_renamed := rename (mapping_dict mappings) df2 in
  let common := common_columns df1 df2_renamed in
  let on := join_keys primary_keys common in
  let cols := merged_columns df1 df2_renamed on in
  (∀ rec, rec ∈ matches rep → rec !! "_merge" = Some (VStr "both")) ∧
  (∀ rec, rec ∈ only_in_query1 rep →
     rec !! "_merge" = Some (VStr "left_only")) ∧
  (∀ rec, rec ∈ only_in_query2 rep →
     rec !! "_merge" = Some (VStr "right_only")) ∧
  (∀ rec, rec ∈ matches rep ++ only_in_query1 rep ++ only_in_query2 rep →
     ∀ l, is_Some (rec !! l) ↔ l ∈ cols) ∧
  (∀ c, c ∈ common → c ∉ on →
     c +:+ "_query1" ∈ cols ∧ c +:+ "_query2" ∈ cols ∧
     (∀ p, columns df1 !! p = Some c → cols !! p = Some (c +:+ "_query1")) ∧
     (∀ q, right_columns df2_renamed on !! q = Some c →
        cols !! (length (columns df1) + q) = Some (c +:+ "_query2"))) ∧
  last cols = Some "_merge" ∧
  ("_merge" ∉ columns df1) ∧ ("_merge" ∉ columns df2_renamed) ∧
  cols ≠ columns df1 ∧ cols ≠ columns df2 ∧
  length (columns df1) < length cols ∧ length (columns df2) < length cols.
Proof.
  intros Hcmp df2_renamed common on cols.
  apply compare_queries_Ok_inv in Hcmp as (merged & Hm & ->).
  fold df2_renamed common on in Hm.
  pose proof Hm as (Hkeys & Hind & _ & _)%merge_Ok_inv.
  assert (∀ tag rec, rec ∈ head_records 100 (select merged tag) →
            rec !! "_merge" = Some (VStr tag) ∧
            ∀ l, is_Some (rec !! l) ↔ l ∈ cols) as Hrec.
  { intros tag rec (e & He & ->)%(elem_of_head_records _ _ _ _ _ _ _ Hm).
    split; [|apply to_record_concat_row].
    rewrite to_record_indicator.
    by apply list_elem_of_filter in He as [-> _]. }
  assert (length (columns df1) < length cols ∧
          length (columns df2) < length cols) as [Hlen1 Hlen2].
  { destruct (merged_columns_longer _ _ _ Hkeys) as [H1 H2].
    split; [done|]. unfold df2_renamed, rename in H2. cbn [columns] in H2.
    by rewrite length_fmap in H2. }
  cbn [matches only_in_query1 only_in_query2].
  rewrite !(preview_select _ _ _ _ _ Hm).
  split_and!; try done.
  - intros rec Hin. by apply Hrec.
  - intros rec Hin. by apply Hrec.
  - intros rec Hin. by apply Hrec.
  - intros rec [Hin|[Hin|Hin]%elem_of_app]%elem_of_app;
      by destruct (Hrec _ _ Hin).
  - intros c Hc Hon.
    pose proof (common_columns_overlap _ _ on c Hc Hon) as Hov.
    destruct (suffixed_labels _ _ _ _ Hov) as (H1 & H2 & H3 & H4). done.
  - unfold cols, merged_columns. by rewrite (assoc_L (++)), last_snoc.
  - intros Hin. eapply (indicator_pre_merge_Ok _ _ "_merge"); [done| |done].
    apply elem_of_app. by left.
  - intros Hin. eapply (indicator_pre_merge_Ok _ _ "_merge"); [done| |done].
    apply elem_of_app. by right.
  - intros Heq. rewrite Heq in Hlen1. lia.
  - intros Heq. rewrite Heq in Hlen2. lia.
Qed.

Lemma preview_schema_witness :
  compare_queries ex_left ex_right [] ["id"] = Ok ex_report ∧
  ∀ rec, rec ∈ only_in_query2 ex_report →
    rec !! "_merge" = Some (VStr "right_only").
Proof.
  split; [exact ex_compare|].
  apply (preview_schema ex_left ex_right [] ["id"] ex_report ex_compare).
Defined.

(** ** Mismatch soundness *)





(** * Further properties of the comparison *)

(** ** The summary in terms of the join index *)

Lemma summary_counts df1 df2 mappings primary_keys rep :
  compare_queries df1 df2 mappings primary_keys = Ok rep →
  let df2_renamed := rename (mapping_dict mappings) df2 in
  let common := common_columns df1 df2_renamed in
  let on := join_keys primary_keys common in
  let lkeys := key_of on df1 <$> rows df1 in
  let rkeys := key_of on df2_renamed <$> rows df2_renamed in
  let J := full_outer_join lkeys rkeys in
  total_rows_query1 (summary rep) = length lkeys ∧
  total_rows_query2 (summary rep) = length rkeys ∧
  matches_count (summary rep) =
    length (filter (λ e, indicator e = VStr "both") J) ∧
  only_in_query1_count (summary rep) =
    length (filter (λ e, indicator e = VStr "left_only") J) ∧
  only_in_query2_count (summary rep) =
    length (filter (λ e, indicator e = VStr "right_only") J) ∧
  mismatches_count (summary rep) ≤ matches_count (summary rep) ∧
  length (matches rep) = Nat.min 100 (matches_count (summary rep)) ∧
  length (only_in_query1 rep) =
    Nat.min 100 (only_in_query1_count (summary rep)) ∧
  length (only_in_query2 rep) =
    Nat.min 100 (only_in_query2_count (summary rep)) ∧
  length (mismatches rep) = Nat.min 100 (mismatches_count (summary rep)).
Proof.
  intros Hcmp df2_renamed common on lkeys rkeys J.
  apply compare_queries_Ok_inv in Hcmp as (merged & Hm & ->).
  fold df2_renamed common on in Hm.
  cbn [summary total_rows_query1 total_rows_query2 matches_count
       only_in_query1_count only_in_query2_count mismatches_count
       matches only_in_query1 only_in_query2 mismatches].
  rewrite !(preview_select _ _ _ _ _ Hm). unfold head_records.
  rewrite !length_fmap, !length_take.
  rewrite find_mismatches_filter, length_fmap.
  rewrite !(len_select _ _ _ _ _ Hm).
  unfold len, lkeys, rkeys. rewrite !length_fmap.
  split_and!; try done.
  all: try (etrans; [apply length_filter|];
            by rewrite (rows_select _ _ _ _ _ Hm), length_fmap).
  all: by rewrite (rows_select _ _ _ _ _ Hm), length_fmap.
Qed.

(** X1. A report never has more mismatches than matches: the mismatch loop
    runs over the rows of [matches] and appends at most one record per row.
    This holds for the counts of the summary and for the previews. *)
Theorem mismatches_le_matches df1 df2 mappings primary_keys rep :
  compare_queries df1 df2 mappings primary_keys = Ok rep →
  mismatches_count (summary rep) ≤ matches_count (summary rep) ∧
  length (mismatches rep) ≤ length (matches rep).
Proof.
  intros Hcmp.
  destruct (summary_counts _ _ _ _ _ Hcmp)
    as (_ & _ & _ & _ & _ & Hle & Hm & _ & _ & Hmm).
  split; [done|]. rewrite Hm, Hmm. lia.
Qed.

Lemma mismatches_le_matches_witness :
  compare_queries big_left big_right [] ["id"] = Ok big_report ∧
  mismatches_count (summary big_report) ≤ matches_count (summary big_report).
Proof.
  split; [exact big_compare|].
  apply (mismatches_le_matches big_left big_right [] ["id"] big_report
           big_compare).
Defined.

(** X2. Row accounting.  Every row of either input is in at least one row of
    the merged frame, so [total_rows_query1 <= matches + only_in_query1] and
    [total_rows_query2 <= matches + only_in_query2]; the one-sided counts
    never exceed the input sizes, and the matches never exceed the product
    of the two sizes (the cross product of one key group). *)
Theorem row_accounting df1 df2 mappings primary_keys rep :
  compare_queries df1 df2 mappings primary_keys = Ok rep →
  let s := summary rep in
  total_rows_query1 s ≤ matches_count s + only_in_query1_count s ∧
  total_rows_query2 s ≤ matches_count s + only_in_query2_count s ∧
  only_in_query1_count s ≤ total_rows_query1 s ∧
  only_in_query2_count s ≤ total_rows_query2 s ∧
  matches_count s ≤ total_rows_query1 s * total_rows_query2 s.
Proof.
  intros Hcmp s.
  destruct (summary_counts _ _ _ _ _ Hcmp)
    as (Ht1 & Ht2 & Hb & Hl & Hr & _).
  unfold s. rewrite Ht1, Ht2, Hb, Hl, Hr. split_and!.
  - rewrite <-length_lefts. apply length_lefts_ge.
  - rewrite <-length_rights by apply full_outer_join_no_empty_entry.
    apply length_rights_ge.
  - apply length_left_only_le.
  - apply length_right_only_le.
  - apply length_both_le.
Qed.

Lemma row_accounting_witness :
  compare_queries ex_left ex_right [] ["id"] = Ok ex_report ∧
  total_rows_query2 (summary ex_report) ≤
    matches_count (summary ex_report) +
    only_in_query2_count (summary ex_report).
Proof.
  split; [exact ex_compare|].
  apply (row_accounting ex_left ex_right [] ["id"] ex_report ex_compare).
Defined.

(** X3. Accounting with unique keys.  When no two rows of the second result
    have equal keys, every row of the first result is in exactly one row of
    the merged frame: [matches + only_in_query1 = total_rows_query1].
    Likewise for the second result when the keys of the first are unique.
    When both hold, the matches are at most half of all the rows. *)
Theorem unique_key_accounting df1 df2 mappings primary_keys rep :
  compare_queries df1 df2 mappings primary_keys = Ok rep →
  let df2_renamed := rename (mapping_dict mappings) df2 in
  let on := join_keys primary_keys (common_columns df1 df2_renamed) in
  let lkeys := key_of on df1 <$> rows df1 in
  let rkeys := key_of on df2_renamed <$> rows df2_renamed in
  let s := summary rep in
  (unique_keys rkeys →
     matches_count s + only_in_query1_count s = total_rows_query1 s) ∧
  (unique_keys lkeys →
     matches_count s + only_in_query2_count s = total_rows_query2 s) ∧
  (unique_keys lkeys → unique_keys rkeys →
     2 * matches_count s ≤ total_rows_query1 s + total_rows_query2 s).
Proof.
  intros Hcmp df2_renamed on lkeys rkeys s.
  destruct (summary_counts _ _ _ _ _ Hcmp)
    as (Ht1 & Ht2 & Hb & Hl & Hr & _).
  fold df2_renamed on lkeys rkeys in Ht1, Ht2, Hb, Hl, Hr.
  assert (unique_keys rkeys →
     matches_count s + only_in_query1_count s = total_rows_query1 s) as H1.
  { intros Hu. unfold s. rewrite Ht1, Hb, Hl, <-length_lefts.
    by apply length_lefts_unique. }
  assert (unique_keys lkeys →
     matches_count s + only_in_query2_count s = total_rows_query2 s) as H2.
  { intros Hu. unfold s.
    rewrite Ht2, Hb, Hr, <-length_rights
      by apply full_outer_join_no_empty_entry.
    by apply length_rights_unique. }
  split_and!; [done|done|].
  intros Hl' Hr'. specialize (H1 Hr'). specialize (H2 Hl'). lia.
Qed.

Lemma unique_keys_ex_right :
  unique_keys (key_of ["id"] ex_right <$> rows ex_right).
Proof.
  intros i j a b Ha Hb Hab.
  destruct i as [|[|[|i]]]; destruct j as [|[|[|j]]]; simplify_eq/=; done.
Qed.

Lemma unique_key_accounting_witness :
  compare_queries ex_left ex_right [] ["id"] = Ok ex_report ∧
  unique_keys (key_of ["id"] ex_right <$> rows ex_right) ∧
  matches_count (summary ex_report) + only_in_query1_count (summary ex_report)
  = total_rows_query1 (summary ex_report).
Proof.
  split; [exact ex_compare|]. split; [exact unique_keys_ex_right|].
  apply (unique_key_accounting ex_left ex_right [] ["id"] ex_report ex_compare).
  exact unique_keys_ex_right.
Defined.

Lemma unique_keys_nil : unique_keys [].
Proof. intros i j a b Ha. by rewrite lookup_nil in Ha. Qed.

(** X4. An empty first result.  When the first query returns no row and the
    comparison returns, nothing matches and nothing mismatches, and every
    row of the second result is reported as only in query 2. *)
Theorem empty_first_result df1 df2 mappings primary_keys rep :
  rows df1 = [] →
  compare_queries df1 df2 mappings primary_keys = Ok rep →
  let s := summary rep in
  total_rows_query1 s = 0 ∧ matches_count s = 0 ∧ mismatches_count s = 0 ∧
  only_in_query1_count s = 0 ∧
  only_in_query2_count s = total_rows_query2 s ∧
  matches rep = [] ∧ mismatches rep = [] ∧ only_in_query1 rep = [] ∧
  length (only_in_query2 rep) = Nat.min 100 (len df2).
Proof.
  intros Hrows Hcmp s.
  destruct (summary_counts _ _ _ _ _ Hcmp)
    as (Ht1 & Ht2 & Hb & Hl & Hr & Hle & Hlm & Hl1 & Hl2 & Hlmm).
  rewrite Hrows in Ht1, Hb, Hl, Hr. cbn [fmap list_fmap length] in Ht1.
  set (rkeys := key_of _ _ <$> rows (rename _ df2)) in *.
  pose proof (length_both_le [] rkeys) as Hb0.
  pose proof (length_left_only_le [] rkeys) as Hl0.
  pose proof (length_rights_unique [] rkeys unique_keys_nil) as Hr0.
  rewrite length_rights in Hr0 by apply full_outer_join_no_empty_entry.
  cbn [fmap list_fmap] in Hb, Hl, Hr. simpl in Hb0, Hl0.
  fold s in Ht1, Ht2, Hb, Hl, Hr, Hle, Hlm, Hl1, Hl2, Hlmm.
  assert (matches_count s = 0) as Hm0 by lia.
  assert (only_in_query1_count s = 0) as Ho0 by lia.
  assert (mismatches_count s = 0) as Hmm0 by lia.
  assert (only_in_query2_count s = total_rows_query2 s) as Ho2 by lia.
  rewrite Hm0 in Hlm. rewrite Ho0 in Hl1. rewrite Hmm0 in Hlmm.
  split_and!; try done.
  - by apply length_zero_iff_nil.
  - by apply length_zero_iff_nil.
  - by apply length_zero_iff_nil.
  - rewrite Hl2, Ho2, Ht2. unfold rkeys, len. by rewrite length_fmap.
Qed.

Lemma empty_compare :
  compare_queries empty_left ex_right [] ["id"] = Ok empty_report.
Proof. vm_compute. reflexivity. Qed.

Lemma empty_first_result_witness :
  rows empty_left = [] ∧
  compare_queries empty_left ex_right [] ["id"] = Ok empty_report ∧
  only_in_query2_count (summary empty_report)
  = total_rows_query2 (summary empty_report).
Proof.
  split; [reflexivity|]. split; [exact empty_compare|].
  apply (empty_first_result empty_left ex_right [] ["id"] empty_report
           eq_refl empty_compare).
Defined.

(** ** Comparing a result with itself *)

Lemma rename_no_pairs df : rename (mapping_dict []) df = df.
Proof.
  destruct df as [cols rs]. unfold rename, mapping_dict. cbn [foldl columns rows].
  f_equal. rewrite <-(list_fmap_id cols) at 2. apply list_fmap_ext.
  intros i c _. by rewrite lookup_empty.
Qed.

(** The records of the mismatch loop, entry by entry. *)
Lemma mismatches_found df1 df2 mappings primary_keys rep :
  compare_queries df1 df2 mappings primary_keys = Ok rep →
  let df2_renamed := rename (mapping_dict mappings) df2 in
  let common := common_columns df1 df2_renamed in
  let on := join_keys primary_keys common in
  let cols := merged_columns df1 df2_renamed on in
  let built := concat_row df1 df2_renamed on in
  let found :=
    (λ e, mismatch_record common on cols (built e)) <$>
    filter (λ e, has_difference common on cols (built e))
           (category df1 df2_renamed on "both") in
  mismatches rep = take 100 found ∧
  mismatches_count (summary rep) = length found ∧
  columns_mapped rep = common.
Proof.
  intros Hcmp df2_renamed common on cols built found.
  apply compare_queries_Ok_inv in Hcmp as (merged & Hm & ->).
  fold df2_renamed common on in Hm.
  assert (find_mismatches common on (select merged "both") = found) as Hfound.
  { rewrite find_mismatches_filter, (columns_select _ _ _ _ _ Hm),
      (rows_select _ _ _ _ _ Hm), filter_fmap.
    by rewrite <-list_fmap_compose. }
  cbn [mismatches summary mismatches_count columns_mapped].
  split_and!; [by rewrite <-Hfound|by rewrite <-Hfound|done].
Qed.

(** X5. Self-comparison.  Comparing a result with itself (no mapping) leaves
    no row one-sided.  If moreover its keys are unique and the labels of the
    merged frame are distinct, every row matches exactly itself and there is
    no mismatch. *)
Theorem self_comparison df primary_keys rep :
  compare_queries df df [] primary_keys = Ok rep →
  let on := join_keys primary_keys (common_columns df df) in
  let s := summary rep in
  (only_in_query1_count s = 0 ∧ only_in_query2_count s = 0 ∧
   only_in_query1 rep = [] ∧ only_in_query2 rep = []) ∧
  (unique_keys (key_of on df <$> rows df) →
   matches_count s = len df ∧
   (NoDup (merged_columns df df on) →
    mismatches_count s = 0 ∧ mismatches rep = [])).
Proof.
  intros Hcmp on s.
  destruct (summary_counts _ _ _ _ _ Hcmp)
    as (Ht1 & _ & Hb & Hl & Hr & _ & _ & Hl1 & Hl2 & _).
  destruct (mismatches_found _ _ _ _ _ Hcmp) as (Hmm & Hmc & _).
  rewrite rename_no_pairs in *. fold on in Ht1, Hb, Hl, Hr, Hmm, Hmc.
  set (keys := key_of on df <$> rows df) in *.
  assert (filter (λ e, indicator e = VStr "left_only")
            (full_outer_join keys keys) = []) as Hlo.
  { apply filter_none. intros [[i|] [j|]] He Hind; try done.
    apply full_outer_join_left_only in He as (a & Ha & Hall).
    pose proof (key_eqb_refl a) as Hrefl. rewrite (Hall a) in Hrefl; [done|].
    by eapply list_elem_of_lookup_2. }
  assert (filter (λ e, indicator e = VStr "right_only")
            (full_outer_join keys keys) = []) as Hro.
  { apply filter_none. intros [[i|] [j|]] He Hind; try done.
    - apply full_outer_join_right_only in He as (b & Hb' & Hall).
      pose proof (key_eqb_refl b) as Hrefl. rewrite (Hall b) in Hrefl; [done|].
      by eapply list_elem_of_lookup_2.
    - by apply full_outer_join_no_empty_entry in He. }
  rewrite Hlo in Hl. rewrite Hro in Hr. simpl in Hl, Hr.
  fold s in Hb, Hl, Hr, Hl1, Hl2, Hmc.
  split.
  - rewrite Hl in Hl1. rewrite Hr in Hl2.
    split_and!; [done|done|by apply length_zero_iff_nil..].
  - intros Huniq. split.
    + rewrite Hb. pose proof (length_lefts_unique keys keys Huniq) as Hlen.
      rewrite length_lefts, Hlo in Hlen. simpl in Hlen.
      unfold len. unfold keys in Hlen at 3. rewrite length_fmap in Hlen. lia.
    + intros Hnd.
      assert (filter (λ e, has_difference (common_columns df df) on
                (merged_columns df df on) (concat_row df df on e))
                (category df df on "both") = []) as Hnone.
      { apply filter_none.
        intros e (i & j & -> & a & b & Ha & Hb' & Hab)%elem_of_category_both.
        fold keys in Ha, Hb'.
        assert (i = j) as <- by by eapply Huniq.
        unfold keys in Ha. rewrite list_lookup_fmap in Ha.
        destruct (rows df !! i) as [row|] eqn:Hrow; [|done].
        intros (c & Hc & Hon & Hne)%Exists_exists.
        pose proof (common_columns_overlap _ _ on c Hc Hon) as Hov.
        rewrite (merged_cell_query1 _ _ _ _ _ _ row Hnd Hov Hrow),
          (merged_cell_query2 _ _ _ _ _ _ row Hnd Hov Hrow) in Hne.
        done. }
      rewrite Hnone in Hmm, Hmc. by rewrite Hmc, Hmm.
Qed.

Lemma unique_keys_ex_left :
  unique_keys (key_of ["id"] ex_left <$> rows ex_left).
Proof.
  intros i j a b Ha Hb Hab.
  destruct i as [|[|i]]; destruct j as [|[|j]]; simplify_eq/=; done.
Qed.

Lemma self_compare :
  compare_queries ex_left ex_left [] ["id"] = Ok self_report.
Proof. vm_compute. reflexivity. Qed.

Lemma self_comparison_witness :
  compare_queries ex_left ex_left [] ["id"] = Ok self_report ∧
  matches_count (summary self_report) = len ex_left ∧
  mismatches self_report = [].
Proof.
  split; [exact self_compare|].
  destruct (self_comparison ex_left ["id"] self_report self_compare)
    as [_ H].
  destruct (H unique_keys_ex_left) as [Hm Hn].
  split; [exact Hm|]. apply Hn. by_compute.
Defined.

(** ** Without a key to join on *)

(** X6. The fallback of the join keys.  Without primary keys the first shared
    column is the join key, and the call is the call with that key; if the
    frames share no column either, the merge has no key and the comparison
    raises: no report is returned. *)
Theorem no_primary_keys df1 df2 mappings :
  let common := common_columns df1 (rename (mapping_dict mappings) df2) in
  (common = [] → ∃ e, compare_queries df1 df2 mappings [] = Err e) ∧
  (∀ c, head common = Some c →
     compare_queries df1 df2 mappings [] =
     compare_queries df1 df2 mappings [c]).
Proof.
  intros common. split.
  - intros Hnone. unfold compare_queries. fold common. rewrite Hnone.
    cbn [join_keys take]. unfold merge. cbn [get_merge_keys].
    destruct (indicator_pre_merge _ _) as [[]|e]; cbn; eauto.
  - intros c Hc. unfold compare_queries. fold common.
    destruct common as [|c' cs]; simplify_eq/=. done.
Qed.

Lemma no_primary_keys_witness :
  common_columns ex_left (rename (mapping_dict []) code_right) = [] ∧
  ∃ e, compare_queries ex_left code_right [] [] = Err e.
Proof.
  split; [reflexivity|].
  apply (no_primary_keys ex_left code_right []). reflexivity.
Defined.

(** ** Exchanging the two results *)

Lemma partners_swap lkeys rkeys i j :
  partners lkeys rkeys i j ↔ partners rkeys lkeys j i.
Proof.
  split; intros (a & b & Ha & Hb & Hab); exists b, a;
    by rewrite key_eqb_sym.
Qed.

Lemma unmatched_swap lkeys rkeys j :
  unmatched_right lkeys rkeys j ↔ unmatched_left rkeys lkeys j.
Proof.
  split; intros (b & Hb & Hall); exists b; (split; [done|]);
    intros a Ha; rewrite key_eqb_sym; by apply Hall.
Qed.

Lemma full_outer_join_swap lkeys rkeys :
  prod_swap <$> full_outer_join lkeys rkeys ≡ₚ full_outer_join rkeys lkeys.
Proof.
  apply NoDup_Permutation.
  - apply (NoDup_fmap_2 _), NoDup_full_outer_join.
  - apply NoDup_full_outer_join.
  - intros [a b]. rewrite list_elem_of_fmap. split.
    + intros ([[i|] [j|]] & [= -> ->] & He); cbn [fst snd].
      * by apply full_outer_join_both, partners_swap, full_outer_join_both.
      * by apply full_outer_join_right_only, unmatched_swap,
          full_outer_join_left_only.
      * by apply full_outer_join_left_only, unmatched_swap,
          full_outer_join_right_only.
      * by apply full_outer_join_no_empty_entry in He.
    + intros He. exists (b, a). split; [done|].
      destruct a as [j|], b as [i|].
      * by apply full_outer_join_both, partners_swap, full_outer_join_both.
      * by apply full_outer_join_right_only, unmatched_swap,
          full_outer_join_left_only.
      * by apply full_outer_join_left_only, unmatched_swap,
          full_outer_join_right_only.
      * by apply full_outer_join_no_empty_entry in He.
Qed.

Lemma filter_ext_in {A} (P Q : A → Prop) `{!∀ x, Decision (P x)}
    `{!∀ x, Decision (Q x)} (l : list A) :
  (∀ x, x ∈ l → P x ↔ Q x) → filter P l = filter Q l.
Proof.
  induction l as [|x l IH]; [done|]. intros Hext.
  rewrite !filter_cons, IH by (intros; apply Hext; by right).
  assert (P x ↔ Q x) as HPQ by (apply Hext; by left).
  destruct (decide (P x)) as [HP|HP], (decide (Q x)) as [HQ|HQ];
    try done; tauto.
Qed.

(** Counting through the exchanged join. *)
Lemma length_filter_swap lkeys rkeys (P Q : entry → Prop)
    `{!∀ e, Decision (P e)} `{!∀ e, Decision (Q e)} :
  (∀ e, e ∈ full_outer_join lkeys rkeys → Q (prod_swap e) ↔ P e) →
  length (filter Q (full_outer_join rkeys lkeys)) =
  length (filter P (full_outer_join lkeys rkeys)).
Proof.
  intros Hext. rewrite <-(full_outer_join_swap lkeys rkeys).
  rewrite filter_fmap, length_fmap. f_equal. by apply filter_ext_in.
Qed.

Lemma elem_of_common_columns df1 df2 c :
  c ∈ common_columns df1 df2 ↔ c ∈ columns df1 ∧ c ∈ columns df2.
Proof. unfold common_columns. rewrite list_elem_of_filter. tauto. Qed.

(** X7. Exchanging the two results, with the same primary keys and no mapping,
    exchanges the two totals and the two one-sided counts and keeps the number
    of matched pairs; with distinct labels in both merged frames it keeps the
    number of mismatches as well. *)
Theorem exchange_symmetry df1 df2 primary_keys r12 r21 :
  primary_keys ≠ [] →
  compare_queries df1 df2 [] primary_keys = Ok r12 →
  compare_queries df2 df1 [] primary_keys = Ok r21 →
  total_rows_query1 (summary r21) = total_rows_query2 (summary r12) ∧
  total_rows_query2 (summary r21) = total_rows_query1 (summary r12) ∧
  matches_count (summary r21) = matches_count (summary r12) ∧
  only_in_query1_count (summary r21) = only_in_query2_count (summary r12) ∧
  only_in_query2_count (summary r21) = only_in_query1_count (summary r12) ∧
  (NoDup (merged_columns df1 df2 primary_keys) →
   NoDup (merged_columns df2 df1 primary_keys) →
   mismatches_count (summary r21) = mismatches_count (summary r12)).
Proof.
  intros Hpk H12 H21.
  destruct (summary_counts _ _ _ _ _ H12) as (Ha1 & Ha2 & Hab & Hal & Har & _).
  destruct (summary_counts _ _ _ _ _ H21) as (Hb1 & Hb2 & Hbb & Hbl & Hbr & _).
  destruct (mismatches_found _ _ _ _ _ H12) as (_ & Hma & _).
  destruct (mismatches_found _ _ _ _ _ H21) as (_ & Hmb & _).
  rewrite !rename_no_pairs in *.
  assert (∀ common, join_keys primary_keys common = primary_keys) as Hon
    by by destruct primary_keys.
  rewrite !Hon in *.
  set (on := primary_keys) in *.
  set (lkeys := key_of on df1 <$> rows df1) in *.
  set (rkeys := key_of on df2 <$> rows df2) in *.
  split_and!.
  - by rewrite Hb1, Ha2.
  - by rewrite Hb2, Ha1.
  - rewrite Hbb, Hab. apply length_filter_swap.
    intros [[?|] [?|]] He; cbn; split; intros; congruence.
  - rewrite Hbl, Har. apply length_filter_swap.
    intros [[?|] [?|]] He; cbn; try (split; intros; congruence).
    by apply full_outer_join_no_empty_entry in He.
  - rewrite Hbr, Hal. apply length_filter_swap.
    intros [[?|] [?|]] He; cbn; try (split; intros; congruence).
    by apply full_outer_join_no_empty_entry in He.
  - intros Hnd12 Hnd21. rewrite Hma, Hmb, !length_fmap.
    unfold category, join_index. fold lkeys rkeys.
    rewrite !list_filter_filter. apply length_filter_swap.
    intros [[i|] [j|]] He; cbn [prod_swap fst snd]; try (split; by intros []).
    apply full_outer_join_both in He as (a & b & Ha & Hb & _).
    unfold lkeys in Ha. unfold rkeys in Hb.
    rewrite list_lookup_fmap in Ha. rewrite list_lookup_fmap in Hb.
    destruct (rows df1 !! i) as [lrow|] eqn:Hl; [|done].
    destruct (rows df2 !! j) as [rrow|] eqn:Hr; [|done].
    assert (∀ c, c ∈ common_columns df1 df2 → c ∉ on →
      cell (merged_columns df1 df2 on) (concat_row df1 df2 on (Some i, Some j))
        (c +:+ "_query1") = cell (columns df1) lrow c ∧
      cell (merged_columns df1 df2 on) (concat_row df1 df2 on (Some i, Some j))
        (c +:+ "_query2") = cell (columns df2) rrow c ∧
      cell (merged_columns df2 df1 on) (concat_row df2 df1 on (Some j, Some i))
        (c +:+ "_query1") = cell (columns df2) rrow c ∧
      cell (merged_columns df2 df1 on) (concat_row df2 df1 on (Some j, Some i))
        (c +:+ "_query2") = cell (columns df1) lrow c) as Hcells.
    { intros c Hc Hcon.
      pose proof (common_columns_overlap _ _ on c Hc Hcon) as Hov.
      assert (c ∈ common_columns df2 df1) as Hc'
        by (apply elem_of_common_columns; apply elem_of_common_columns in Hc;
            tauto).
      pose proof (common_columns_overlap _ _ on c Hc' Hcon) as Hov'.
      split_and!.
      - by apply merged_cell_query1.
      - by apply merged_cell_query2.
      - by apply merged_cell_query1.
      - by apply merged_cell_query2. }
    unfold has_difference, differs. rewrite !Exists_exists.
    split.
    + intros [(c & Hc & Hcon & Hne) _]. split; [|done].
      assert (c ∈ common_columns df1 df2) as Hc'
        by (apply elem_of_common_columns; apply elem_of_common_columns in Hc;
            tauto).
      exists c. split; [done|]. split; [done|].
      destruct (Hcells c Hc' Hcon) as (-> & -> & E1 & E2).
      rewrite E1, E2 in Hne. congruence.
    + intros [(c & Hc & Hcon & Hne) _]. split; [|done].
      assert (c ∈ common_columns df2 df1) as Hc'
        by (apply elem_of_common_columns; apply elem_of_common_columns in Hc;
            tauto).
      exists c. split; [done|]. split; [done|].
      destruct (Hcells c Hc Hcon) as (E1 & E2 & -> & ->).
      rewrite E1, E2 in Hne. congruence.
Qed.

Lemma exchanged_compare :
  compare_queries ex_right ex_left [] ["id"] = Ok exchanged_report.
Proof. vm_compute. reflexivity. Qed.

Lemma exchange_symmetry_witness :
  compare_queries ex_left ex_right [] ["id"] = Ok ex_report ∧
  compare_queries ex_right ex_left [] ["id"] = Ok exchanged_report ∧
  only_in_query1_count (summary exchanged_report) =
    only_in_query2_count (summary ex_report) ∧
  mismatches_count (summary exchanged_report) =
    mismatches_count (summary ex_report).
Proof.
  split; [exact ex_compare|]. split; [exact exchanged_compare|].
  destruct (exchange_symmetry ex_left ex_right ["id"] ex_report
              exchanged_report) as (_ & _ & _ & H1 & _ & Hm);
    [done|exact ex_compare|exact exchanged_compare|].
  split; [exact H1|]. apply Hm; by_compute.
Defined.

(** ** What a one-sided record holds *)

Lemma to_record_lookup cols row p c :
  NoDup cols → length cols = length row → cols !! p = Some c →
  to_record cols row !! c = row !! p.
Proof.
  revert row p. induction cols as [|x cols IH] using rev_ind;
    intros row p Hnd Hlen Hp; [done|].
  destruct row as [|v row _] using rev_ind;
    [rewrite length_app in Hlen; simpl in Hlen; lia|].
  rewrite !length_app in Hlen. simpl in Hlen.
  rewrite to_record_snoc by lia.
  apply NoDup_app in Hnd as (Hnd & Hfresh & _).
  destruct (decide (p < length cols)) as [Hlt|Hge].
  - rewrite lookup_app_l in Hp by done.
    assert (c ≠ x) as Hne.
    { intros ->. eapply Hfresh; [by eapply list_elem_of_lookup_2|by left]. }
    rewrite lookup_insert_ne by done.
    rewrite lookup_app_l by lia. apply IH; [done|lia|done].
  - assert (p = length cols) as ->.
    { apply lookup_lt_Some in Hp. rewrite length_app in Hp. simpl in Hp. lia. }
    rewrite list_lookup_middle in Hp by done. injection Hp as <-.
    rewrite lookup_insert. rewrite decide_True by done.
    by rewrite list_lookup_middle by lia.
Qed.

Section one_sided.
Variables (df1 df2 : DataFrame) (on : list string).

Lemma merged_columns_lookup_left p c :
  columns df1 !! p = Some c →
  merged_columns df1 df2 on !! p =
  Some (add_suffix (columns df1) (columns df2) on "_query1" c).
Proof.
  intros Hp. unfold merged_columns, left_labels.
  rewrite lookup_app_l by (rewrite length_fmap; by eapply lookup_lt_Some).
  by rewrite list_lookup_fmap, Hp.
Qed.

Lemma merged_columns_lookup_right q c :
  right_columns df2 on !! q = Some c →
  merged_columns df1 df2 on !! (length (columns df1) + q) =
  Some (add_suffix (columns df1) (columns df2) on "_query2" c).
Proof.
  intros Hq. unfold merged_columns.
  rewrite lookup_app_r by (rewrite length_left_labels; lia).
  rewrite length_left_labels, Nat.add_comm, Nat.add_sub.
  unfold right_labels.
  rewrite lookup_app_l by (rewrite length_fmap; by eapply lookup_lt_Some).
  by rewrite list_lookup_fmap, Hq.
Qed.

Lemma concat_row_lookup_left e p c :
  columns df1 !! p = Some c →
  concat_row df1 df2 on e !! p =
  Some match e.1 ≫= (rows df1 !!.) with
       | Some lrow => default VNaN (lrow !! p)
       | None =>
           if decide (c ∈ on)
           then from_option (λ rrow, cell (columns df2) rrow c) VNaN
                  (e.2 ≫= (rows df2 !!.))
           else VNaN
       end.
Proof.
  intros Hp. unfold concat_row.
  rewrite lookup_app_l by (rewrite length_imap; by eapply lookup_lt_Some).
  by rewrite list_lookup_imap, Hp.
Qed.

Lemma concat_row_lookup_right e q c :
  right_columns df2 on !! q = Some c →
  concat_row df1 df2 on e !! (length (columns df1) + q) =
  Some (from_option (λ rrow, cell (columns df2) rrow c) VNaN
          (e.2 ≫= (rows df2 !!.))).
Proof.
  intros Hq. unfold concat_row.
  rewrite lookup_app_r by (rewrite length_imap; lia).
  rewrite length_imap, Nat.add_comm, Nat.add_sub.
  rewrite lookup_app_l by (rewrite length_fmap; by eapply lookup_lt_Some).
  by rewrite list_lookup_fmap, Hq.
Qed.

Hypothesis Hnd : NoDup (merged_columns df1 df2 on).

Lemma record_left e p c :
  columns df1 !! p = Some c →
  to_record (merged_columns df1 df2 on) (concat_row df1 df2 on e)
    !! add_suffix (columns df1) (columns df2) on "_query1" c
  = concat_row df1 df2 on e !! p.
Proof.
  intros Hp. apply to_record_lookup; [done|by rewrite length_concat_row|].
  by apply merged_columns_lookup_left.
Qed.

Lemma record_right e q c :
  right_columns df2 on !! q = Some c →
  to_record (merged_columns df1 df2 on) (concat_row df1 df2 on e)
    !! add_suffix (columns df1) (columns df2) on "_query2" c
  = concat_row df1 df2 on e !! (length (columns df1) + q).
Proof.
  intros Hq. apply to_record_lookup; [done|by rewrite length_concat_row|].
  by apply merged_columns_lookup_right.
Qed.

Lemma key_label k :
  k ∈ on → add_suffix (columns df1) (columns df2) on "_query1" k = k.
Proof.
  intros Hk. unfold add_suffix, overlap.
  rewrite (bool_decide_eq_false_2 (k ∉ on)) by (intros H; by apply H).
  by rewrite andb_false_r.
Qed.

End one_sided.

(** X8. The records of the one-sided previews, when the labels of the merged
    frame are distinct.  A record of [only_in_query1] is built from a row of
    the first result whose key no row of the second one has: it holds that
    row's key under the join keys, that row's text and null cells under the
    first result's labels, and [nan] under every label of the second result.
    Symmetrically a record of [only_in_query2] holds the key of a row of the
    second result under the join keys -- the key columns of the merged frame
    are shared --, its text and null cells under the second result's labels,
    and [nan] under every non-key label of the first result. *)
Theorem one_sided_records df1 df2 mappings primary_keys rep :
  compare_queries df1 df2 mappings primary_keys = Ok rep →
  let df2_renamed := rename (mapping_dict mappings) df2 in
  let common := common_columns df1 df2_renamed in
  let on := join_keys primary_keys common in
  let lkeys := key_of on df1 <$> rows df1 in
  let rkeys := key_of on df2_renamed <$> rows df2_renamed in
  let label1 := add_suffix (columns df1) (columns df2_renamed) on "_query1" in
  let label2 := add_suffix (columns df1) (columns df2_renamed) on "_query2" in
  NoDup (merged_columns df1 df2_renamed on) →
  (∀ rec, rec ∈ only_in_query1 rep →
     ∃ i lrow, rows df1 !! i = Some lrow ∧ unmatched_left lkeys rkeys i ∧
       (∀ k, k ∈ on → rec !! k = Some (cell (columns df1) lrow k)) ∧
       (∀ c, c ∈ columns df1 →
          text_or_null (cell (columns df1) lrow c) = true →
          rec !! label1 c = Some (cell (columns df1) lrow c)) ∧
       (∀ c, c ∈ right_columns df2_renamed on →
          rec !! label2 c = Some VNaN)) ∧
  (∀ rec, rec ∈ only_in_query2 rep →
     ∃ j rrow, rows df2 !! j = Some rrow ∧ unmatched_right lkeys rkeys j ∧
       (∀ k, k ∈ on → rec !! k = Some (cell (columns df2_renamed) rrow k)) ∧
       (∀ c, c ∈ right_columns df2_renamed on →
          text_or_null (cell (columns df2_renamed) rrow c) = true →
          rec !! label2 c = Some (cell (columns df2_renamed) rrow c)) ∧
       (∀ c, c ∈ columns df1 → c ∉ on → rec !! label1 c = Some VNaN)).
Proof.
  intros Hcmp df2_renamed common on lkeys rkeys label1 label2 Hnd.
  apply compare_queries_Ok_inv in Hcmp as (merged & Hm & ->).
  fold df2_renamed common on in Hm.
  pose proof Hm as (Hkeys & _ & _ & _)%merge_Ok_inv.
  pose proof (NoDup_merged_columns_left _ _ _ Hnd) as Hnd1.
  assert (∀ k, k ∈ on → ∃ p, columns df1 !! p = Some k) as Hkey.
  { intros k Hk. destruct (get_merge_keys_Ok _ _ _ k Hkeys Hk) as [Hl _].
    apply list_elem_of_lookup.
    destruct (filter (λ c, c = k) (columns df1)) as [|x l] eqn:Hf; [done|].
    assert (x ∈ filter (λ c, c = k) (columns df1)) as [-> ?]%list_elem_of_filter
      by (rewrite Hf; by left).
    done. }
  cbn [only_in_query1 only_in_query2].
  rewrite !(preview_select _ _ _ _ _ Hm).
  split.
  - intros rec (e & [Hind He]%list_elem_of_filter & ->)%
      (elem_of_head_records _ _ _ _ _ _ _ Hm).
    destruct e as [[i|] [j|]]; try done.
    pose proof He as (a & Ha & Hall)%full_outer_join_left_only.
    rewrite list_lookup_fmap in Ha.
    destruct (rows df1 !! i) as [lrow|] eqn:Hrow; [|done].
    exists i, lrow. split; [done|].
    split; [by apply full_outer_join_left_only|].
    assert (∀ p c, columns df1 !! p = Some c →
      to_record (merged_columns df1 df2_renamed on)
        (concat_row df1 df2_renamed on (Some i, None)) !! label1 c
      = Some (cell (columns df1) lrow c)) as Hleft.
    { intros p c Hp. unfold label1.
      rewrite (record_left _ _ _ Hnd _ p) by done.
      rewrite (concat_row_lookup_left _ _ _ _ p c) by done.
      cbn [fst mbind option_bind]. rewrite Hrow.
      by rewrite (cell_lookup _ _ _ p). }
    split_and!.
    + intros k Hk. destruct (Hkey k Hk) as [p Hp].
      pose proof (Hleft p k Hp) as H. unfold label1 in H.
      by rewrite key_label in H.
    + intros c [p Hp]%list_elem_of_lookup _. by eapply Hleft.
    + intros c [q Hq]%list_elem_of_lookup. unfold label2.
      rewrite (record_right _ _ _ Hnd _ q) by done.
      by rewrite (concat_row_lookup_right _ _ _ _ q c).
  - intros rec (e & [Hind He]%list_elem_of_filter & ->)%
      (elem_of_head_records _ _ _ _ _ _ _ Hm).
    destruct e as [[i|] [j|]]; try done;
      [|by apply full_outer_join_no_empty_entry in He].
    pose proof He as (b & Hb & Hall)%full_outer_join_right_only.
    rewrite list_lookup_fmap in Hb.
    destruct (rows df2_renamed !! j) as [rrow|] eqn:Hrow; [|done].
    exists j, rrow. split; [done|].
    split; [by apply full_outer_join_right_only|].
    split_and!.
    + intros k Hk. destruct (Hkey k Hk) as [p Hp].
      pose proof (record_left _ _ _ Hnd (None, Some j) p k Hp) as H.
      rewrite key_label in H by done. rewrite H.
      rewrite (concat_row_lookup_left _ _ _ _ p k) by done.
      cbn [fst snd mbind option_bind]. rewrite Hrow.
      by rewrite decide_True.
    + intros c [q Hq]%list_elem_of_lookup _. unfold label2.
      rewrite (record_right _ _ _ Hnd _ q) by done.
      rewrite (concat_row_lookup_right _ _ _ _ q c) by done.
      cbn [snd mbind option_bind]. by rewrite Hrow.
    + intros c [p Hp]%list_elem_of_lookup Hc. unfold label1.
      rewrite (record_left _ _ _ Hnd _ p) by done.
      rewrite (concat_row_lookup_left _ _ _ _ p c) by done.
      cbn [fst mbind option_bind]. by rewrite decide_False.
Qed.

Lemma one_sided_records_witness :
  compare_queries ex_left ex_right [] ["id"] = Ok ex_report ∧
  ∀ rec, rec ∈ only_in_query2 ex_report →
    rec !! "name_query1" = Some VNaN.
Proof.
  split; [exact ex_compare|]. intros rec Hrec.
  destruct (one_sided_records ex_left ex_right [] ["id"] ex_report ex_compare)
    as [_ H]; [by_compute|].
  destruct (H rec Hrec) as (j & rrow & _ & _ & _ & _ & Hnan).
  apply (Hnan "name"); by_compute.
Defined.

(** X9. The records of the [matches] preview, when the labels of the merged
    frame are distinct.  Each is built from a row of the first result and a
    row of the second one with equal keys: it holds the first row's key under
    the join keys, the first row's text and null cells under the first
    result's labels and the second row's under the second result's labels. *)
Theorem matched_records df1 df2 mappings primary_keys rep :
  compare_queries df1 df2 mappings primary_keys = Ok rep →
  let df2_renamed := rename (mapping_dict mappings) df2 in
  let common := common_columns df1 df2_renamed in
  let on := join_keys primary_keys common in
  let lkeys := key_of on df1 <$> rows df1 in
  let rkeys := key_of on df2_renamed <$> rows df2_renamed in
  let label1 := add_suffix (columns df1) (columns df2_renamed) on "_query1" in
  let label2 := add_suffix (columns df1) (columns df2_renamed) on "_query2" in
  NoDup (merged_columns df1 df2_renamed on) →
  ∀ rec, rec ∈ matches rep →
    ∃ i j lrow rrow,
      rows df1 !! i = Some lrow ∧ rows df2 !! j = Some rrow ∧
      partners lkeys rkeys i j ∧
      (∀ k, k ∈ on → rec !! k = Some (cell (columns df1) lrow k)) ∧
      (∀ c, c ∈ columns df1 →
         text_or_null (cell (columns df1) lrow c) = true →
         rec !! label1 c = Some (cell (columns df1) lrow c)) ∧
      (∀ c, c ∈ right_columns df2_renamed on →
         text_or_null (cell (columns df2_renamed) rrow c) = true →
         rec !! label2 c = Some (cell (columns df2_renamed) rrow c)).
Proof.
  intros Hcmp df2_renamed common on lkeys rkeys label1 label2 Hnd.
  apply compare_queries_Ok_inv in Hcmp as (merged & Hm & ->).
  fold df2_renamed common on in Hm.
  pose proof Hm as (Hkeys & _ & _ & _)%merge_Ok_inv.
  pose proof (NoDup_merged_columns_left _ _ _ Hnd) as Hnd1.
  cbn [matches]. rewrite (preview_select _ _ _ _ _ Hm).
  intros rec (e & He & ->)%(elem_of_head_records _ _ _ _ _ _ _ Hm).
  apply elem_of_category_both in He as (i & j & -> & Hpart).
  pose proof Hpart as (a & b & Ha & Hb & _).
  rewrite list_lookup_fmap in Ha. rewrite list_lookup_fmap in Hb.
  destruct (rows df1 !! i) as [lrow|] eqn:Hl; [|done].
  destruct (rows df2_renamed !! j) as [rrow|] eqn:Hr; [|done].
  exists i, j, lrow, rrow. split; [done|]. split; [done|]. split; [done|].
  assert (∀ p c, columns df1 !! p = Some c →
    to_record (merged_columns df1 df2_renamed on)
      (concat_row df1 df2_renamed on (Some i, Some j)) !! label1 c
    = Some (cell (columns df1) lrow c)) as Hleft.
  { intros p c Hp. unfold label1.
    rewrite (record_left _ _ _ Hnd _ p) by done.
    rewrite (concat_row_lookup_left _ _ _ _ p c) by done.
    cbn [fst mbind option_bind]. rewrite Hl.
    by rewrite (cell_lookup _ _ _ p). }
  split_and!.
  - intros k Hk.
    destruct (get_merge_keys_Ok _ _ _ k Hkeys Hk) as [Hone _].
    assert (k ∈ columns df1) as [p Hp]%list_elem_of_lookup.
    { destruct (filter (λ c, c = k) (columns df1)) as [|x l] eqn:Hf; [done|].
      assert (x ∈ filter (λ c, c = k) (columns df1))
        as [-> ?]%list_elem_of_filter by (rewrite Hf; by left).
      done. }
    pose proof (Hleft p k Hp) as H. unfold label1 in H.
    by rewrite key_label in H.
  - intros c [p Hp]%list_elem_of_lookup _. by eapply Hleft.
  - intros c [q Hq]%list_elem_of_lookup _. unfold label2.
    rewrite (record_right _ _ _ Hnd _ q) by done.
    rewrite (concat_row_lookup_right _ _ _ _ q c) by done.
    cbn [snd mbind option_bind]. by rewrite Hr.
Qed.

Lemma matched_records_witness :
  compare_queries ex_left ex_right [] ["id"] = Ok ex_report ∧
  ∀ rec, rec ∈ matches ex_report →
    ∃ i j lrow rrow,
      rows ex_left !! i = Some lrow ∧ rows ex_right !! j = Some rrow ∧
      rec !! "id" = Some (cell (columns ex_left) lrow "id").
Proof.
  split; [exact ex_compare|]. intros rec Hrec.
  destruct (matched_records ex_left ex_right [] ["id"] ex_report ex_compare)
    with (rec := rec)
    as (i & j & lrow & rrow & Hl & Hr & _ & Hk & _); [by_compute|done|].
  exists i, j, lrow, rrow. split_and!; [done|done|]. apply Hk. by_compute.
Defined.

(** ** Pairs that name no column of the second result *)

Lemma rename_unmapped d df :
  (∀ c, c ∈ columns df → d !! c = None) → rename d df = df.
Proof.
  intros Hnone. destruct df as [cols rs]. unfold rename. cbn [columns rows] in *.
  f_equal. rewrite <-(list_fmap_id cols) at 2. apply list_fmap_ext.
  intros i c Hc. rewrite Hnone; [done|]. by eapply list_elem_of_lookup_2.
Qed.

(** X10. The renaming looks the labels of the second result up among the
    [left] names of the pairs.  A mapping none of whose [left] names is a
    column of the second result is therefore without effect: the call returns
    (or raises) what it does with no mapping at all. *)
Theorem mapping_without_effect df1 df2 mappings primary_keys :
  (∀ m, m ∈ mappings → Mapping.left m ∉ columns df2) →
  compare_queries df1 df2 mappings primary_keys =
  compare_queries df1 df2 [] primary_keys.
Proof.
  intros Hleft. unfold compare_queries.
  rewrite rename_no_pairs, rename_unmapped; [done|].
  intros c Hc. rewrite mapping_dict_lookup.
  rewrite (filter_none (λ m, Mapping.left m = c)); [done|].
  intros m Hm <-. by apply (Hleft m).
Qed.

Lemma mapping_without_effect_witness :
  compare_queries map_left map_right map_pairs ["id"] =
  compare_queries map_left map_right [] ["id"].
Proof.
  apply mapping_without_effect.
  intros m ->%list_elem_of_singleton. by_compute.
Defined.

(** ** The report after the comparison *)

(** X11. The formatter counts the lists of the report, which hold at most
    100 entries each.  The [row_count] of a report package is the minimum of
    100 and the summary's count, for each of the four categories; the
    markdown report writes at most 20 mismatches out, and the number of
    ["more mismatches"] it announces is at most 80: it is the true remainder
    only while there are at most 100 mismatches. *)
Theorem formatter_counts df1 df2 mappings primary_keys rep :
  compare_queries df1 df2 mappings primary_keys = Ok rep →
  let s := summary rep in
  row_count rep =
    {| row_count_matches := Nat.min 100 (matches_count s);
       row_count_mismatches := Nat.min 100 (mismatches_count s);
       row_count_only_query1 := Nat.min 100 (only_in_query1_count s);
       row_count_only_query2 := Nat.min 100 (only_in_query2_count s) |} ∧
  length (markdown_mismatches rep) = Nat.min 20 (mismatches_count s) ∧
  (more_mismatches rep = None ↔ mismatches_count s ≤ 20) ∧
  (∀ n, more_mismatches rep = Some n →
     n = Nat.min 100 (mismatches_count s) - 20 ∧ n ≤ 80 ∧
     (n = mismatches_count s - 20 ↔ mismatches_count s ≤ 100)).
Proof.
  intros Hcmp s.
  destruct (summary_counts _ _ _ _ _ Hcmp)
    as (_ & _ & _ & _ & _ & _ & Hm & H1 & H2 & Hmm).
  fold s in Hm, H1, H2, Hmm.
  unfold row_count, markdown_mismatches, more_mismatches.
  rewrite length_take, Hm, H1, H2, Hmm.
  split_and!; [done|lia| |].
  - case_decide; split; intros; first [done|lia|exfalso; lia].
  - intros n Hn. case_decide; [|done]. apply (inj Some) in Hn as <-.
    split_and!; [done|lia|split; lia].
Qed.

Lemma formatter_counts_witness :
  compare_queries big_left big_right [] ["id"] = Ok big_report ∧
  row_count_mismatches (row_count big_report) = 100 ∧
  more_mismatches big_report = Some 80.
Proof.
  split; [exact big_compare|].
  destruct (formatter_counts big_left big_right [] ["id"] big_report
              big_compare) as (Hrc & _ & _ & _).
  split; [by rewrite Hrc|]. reflexivity.
Defined.

(** X12. The column table of the markdown report.  The columns listed as
    unmapped for the first query are its columns that are no label of the
    renamed second result.  The second list is computed from the labels the
    second result had before the renaming: a column that a pair renamed to a
    column of the first result is compared under its new name, which is in the
    mapped list, and its old name is listed as unmapped. *)
Theorem markdown_unmapped df1 df2 mappings primary_keys rep :
  compare_queries df1 df2 mappings primary_keys = Ok rep →
  let df2_renamed := rename (mapping_dict mappings) df2 in
  (∀ c, c ∈ unmapped1 rep ↔ c ∈ columns df1 ∧ c ∉ columns df2_renamed) ∧
  (∀ c, c ∈ unmapped2 rep ↔
        c ∈ columns df2 ∧ ¬ (c ∈ columns df1 ∧ c ∈ columns df2_renamed)) ∧
  (∀ c, c ∈ columns df1 ↔ c ∈ columns_mapped rep ∨ c ∈ unmapped1 rep) ∧
  (∀ c t, c ∈ columns df2 → mapping_dict mappings !! c = Some t →
          t ∈ columns df1 → c ∉ columns df1 →
          t ∈ columns_mapped rep ∧ c ∈ unmapped2 rep).
Proof.
  intros Hcmp df2_renamed.
  destruct (mismatches_found _ _ _ _ _ Hcmp) as (_ & _ & Hmapped).
  apply compare_queries_Ok_inv in Hcmp as (merged & _ & Hrep).
  assert (columns_query1 rep = columns df1) as H1 by by rewrite Hrep.
  assert (columns_query2 rep = columns df2) as H2 by by rewrite Hrep.
  clear Hrep. fold df2_renamed in Hmapped.
  unfold unmapped1, unmapped2. rewrite Hmapped, H1, H2.
  split_and!.
  - intros c. rewrite list_elem_of_filter, elem_of_common_columns. tauto.
  - intros c. rewrite list_elem_of_filter, elem_of_common_columns. tauto.
  - intros c. rewrite list_elem_of_filter, elem_of_common_columns.
    destruct (decide (c ∈ columns df2_renamed)); tauto.
  - intros c t Hc Ht Ht1 Hc1.
    rewrite list_elem_of_filter, !elem_of_common_columns.
    split_and!; [done| |tauto|done].
    unfold df2_renamed, rename. cbn [columns].
    apply list_elem_of_fmap. exists c. by rewrite Ht.
Qed.

Lemma markdown_unmapped_witness :
  ∃ rep, compare_queries map_right map_left map_pairs ["id"] = Ok rep ∧
    "full_name" ∈ columns_mapped rep ∧ "name" ∈ unmapped2 rep.
Proof.
  destruct (compare_queries map_right map_left map_pairs ["id"])
    as [rep|e] eqn:Hcmp; [|by vm_compute in Hcmp].
  exists rep. split; [done|].
  apply (markdown_unmapped map_right map_left map_pairs ["id"] rep Hcmp);
    by_compute.
Defined.

(** ** The match rate *)

Lemma match_percentage_half (s : Summary) :
  2 * matches_count s ≤ total_rows s → (match_percentage s <= 50)%Q.
Proof.
  intros Hhalf. unfold match_percentage. case_decide as Hpos; [|done].
  set (m := matches_count s) in *. set (t := total_rows s) in *.
  assert (inject_Z (Z.of_nat m) / inject_Z (Z.of_nat t) <= 1 # 2)%Q as Hq.
  { apply Qle_shift_div_r.
    - unfold Qlt. simpl. lia.
    - unfold Qle. simpl. lia. }
  apply (Qmult_le_compat_r _ _ 100) in Hq; [|done].
  eapply Qle_trans; [exact Hq|]. done.
Qed.

Lemma status_text_low (s : Summary) :
  (match_percentage s <= 50)%Q → status_text s = "Needs Review".
Proof.
  intros Hle. unfold status_text.
  destruct (Qle_bool 95 (match_percentage s)) eqn:H95.
  { apply Qle_bool_iff in H95. by pose proof (Qle_trans _ _ _ H95 Hle). }
  destruct (Qle_bool 80 (match_percentage s)) eqn:H80; [|done].
  apply Qle_bool_iff in H80. by pose proof (Qle_trans _ _ _ H80 Hle).
Qed.

(** X13. The match rate of the reports is [matches] over the sum of the two
    totals.  When the join keys are unique in both results, a matched pair
    uses up one row of each, so the rate is at most 50 % and the status of
    the HTML report is ["Needs Review"], whatever the two results hold (two
    equal results included). *)
Theorem match_rate_unique_keys df1 df2 mappings primary_keys rep :
  compare_queries df1 df2 mappings primary_keys = Ok rep →
  let df2_renamed := rename (mapping_dict mappings) df2 in
  let on := join_keys primary_keys (common_columns df1 df2_renamed) in
  unique_keys (key_of on df1 <$> rows df1) →
  unique_keys (key_of on df2_renamed <$> rows df2_renamed) →
  (match_percentage (summary rep) <= 50)%Q ∧
  status_text (summary rep) = "Needs Review".
Proof.
  intros Hcmp df2_renamed on Hu1 Hu2.
  destruct (summary_counts _ _ _ _ _ Hcmp) as (Ht1 & Ht2 & Hb & _).
  fold df2_renamed on in Ht1, Ht2, Hb.
  set (lkeys := key_of on df1 <$> rows df1) in *.
  set (rkeys := key_of on df2_renamed <$> rows df2_renamed) in *.
  pose proof (length_lefts_unique lkeys rkeys Hu2) as Hl.
  pose proof (length_rights_unique lkeys rkeys Hu1) as Hr.
  rewrite length_lefts in Hl.
  rewrite length_rights in Hr by apply full_outer_join_no_empty_entry.
  assert (2 * matches_count (summary rep) ≤ total_rows (summary rep)) as Hhalf
    by (unfold total_rows; lia).
  split; [by apply match_percentage_half|].
  by apply status_text_low, match_percentage_half.
Qed.

Lemma match_rate_unique_keys_witness :
  compare_queries ex_left ex_left [] ["id"] = Ok self_report ∧
  status_text (summary self_report) = "Needs Review".
Proof.
  split; [exact self_compare|].
  apply (match_rate_unique_keys ex_left ex_left [] ["id"] self_report
           self_compare); exact unique_keys_ex_left.
Defined.

(** ** Connecting without credentials *)

Lemma getitem_present params k :
  is_Some (params !! k) → ∃ v, getitem params k = Return v.
Proof. intros [v Hv]. exists v. unfold getitem. by rewrite Hv. Qed.

(** X14. The connection parameters that must be there.  The connection string
    with user name and password is built before [trusted_connection] is
    looked at, so all of [server], [database], [username] and [password] must
    be keys of the parameters, for a trusted connection as well: if one is
    missing, [get_db_connection] raises ["Connection failed: 'k'"] for the
    first missing key [k] without calling [pyodbc.connect], and
    [test_connection] reports that message as an error.  Without parameters
    in the session the call fails in the same way. *)
Theorem connection_needs_credentials {connection : Type}
    (connect : string → outcome connection) (params : gmap string json)
    (present : list string) (k : string) (rest : list string) :
  ["server"; "database"; "username"; "password"] = present ++ k :: rest →
  (∀ k', k' ∈ present → is_Some (params !! k')) →
  params !! k = None →
  get_db_connection connect (Some params) =
    Raise ("Connection failed: '" +:+ k +:+ "'") ∧
  test_connection connect (Some params) =
    ("error", "Connection failed: '" +:+ k +:+ "'") ∧
  get_db_connection connect None =
    Raise "Connection failed: 'NoneType' object is not subscriptable".
Proof.
  intros Hkeys Hpresent Hk.
  assert (getitem params k = Raise ("'" +:+ k +:+ "'")) as Hmiss
    by (unfold getitem; by rewrite Hk).
  assert (∀ k', k' ∈ present → ∃ v, getitem params k' = Return v) as Hget
    by (intros k' Hk'; by apply getitem_present, Hpresent).
  assert (get_db_connection connect (Some params) =
          Raise ("Connection failed: '" +:+ k +:+ "'")) as Hraise.
  { unfold get_db_connection, conn_str.
    destruct present as [|k1 [|k2 [|k3 [|k4 present]]]];
      injection Hkeys as ?; subst.
    - by rewrite Hmiss.
    - destruct (Hget "server") as [v ->]; [by left|].
      cbn [mbind outcome_bind]. by rewrite Hmiss.
    - destruct (Hget "server") as [v ->]; [by left|].
      destruct (Hget "database") as [v' ->]; [right; by left|].
      cbn [mbind outcome_bind]. by rewrite Hmiss.
    - destruct (Hget "server") as [v ->]; [by left|].
      destruct (Hget "database") as [v' ->]; [right; by left|].
      destruct (Hget "username") as [v'' ->]; [right; right; by left|].
      cbn [mbind outcome_bind]. by rewrite Hmiss.
    - by destruct present. }
  split; [done|]. split; [|done].
  unfold test_connection. by rewrite Hraise.
Qed.

Lemma connection_needs_credentials_witness :
  truthy (trusted_params !! "trusted_connection") = true ∧
  ∀ connect : string → outcome unit,
    get_db_connection connect (Some trusted_params) =
    Raise "Connection failed: 'username'".
Proof.
  split; [reflexivity|]. intros connect.
  apply (connection_needs_credentials connect trusted_params
           ["server"; "database"] "username" ["password"]).
  - reflexivity.
  - intros k' [->| ->%list_elem_of_singleton]%elem_of_cons; by_compute.
  - reflexivity.
Defined.

(** ** The query parser *)

Lemma occurs_lstrip c s : occurs c s = false → occurs c (lstrip s) = false.
Proof.
  induction s as [|c' s IH]; [done|]. cbn [lstrip occurs].
  intros [? ?]%orb_false_iff. destruct (isspace c'); [by apply IH|].
  cbn [occurs]. by apply orb_false_iff.
Qed.

Lemma occurs_rstrip c s : occurs c s = false → occurs c (rstrip s) = false.
Proof.
  induction s as [|c' s IH]; [done|]. cbn [rstrip occurs].
  intros [Hc Hs]%orb_false_iff. specialize (IH Hs).
  destruct (rstrip s) as [|c'' r].
  - destruct (isspace c'); [done|]. cbn [occurs]. by rewrite Hc.
  - cbn [occurs] in *. by rewrite Hc.
Qed.

Lemma occurs_strip c s : occurs c s = false → occurs c (strip s) = false.
Proof. intros. by apply occurs_rstrip, occurs_lstrip. Qed.

Lemma occurs_before c sep s :
  occurs c s = false → occurs c (before sep s) = false.
Proof.
  induction s as [|c' s IH]; cbn [before occurs].
  - by destruct (String.prefix sep "").
  - intros [Hc Hs]%orb_false_iff.
    destruct (String.prefix sep (String c' s)); [done|].
    cbn [occurs]. rewrite Hc. by apply IH.
Qed.

Lemma occurs_split_whitespace c s w :
  occurs c s = false → w ∈ split_whitespace s → occurs c w = false.
Proof.
  revert w. induction s as [|c' s IH]; intros w; cbn [split_whitespace occurs].
  - by intros _ ?%not_elem_of_nil.
  - intros [Hc Hs]%orb_false_iff.
    destruct (isspace c'); [by apply IH|].
    destruct s as [|c'' s'].
    + intros ->%list_elem_of_singleton. cbn [occurs]. by rewrite Hc.
    + destruct (isspace c'').
      * intros [->|Hw]%elem_of_cons; [|by apply IH].
        cbn [occurs]. by rewrite Hc.
      * destruct (split_whitespace (String c'' s')) as [|word words] eqn:Hws.
        -- intros ->%list_elem_of_singleton. cbn [occurs]. by rewrite Hc.
        -- intros [->|Hw]%elem_of_cons.
           ++ cbn [occurs]. rewrite Hc. apply IH; [done|by left].
           ++ apply IH; [done|by right].
Qed.

Lemma occurs_split sep s piece :
  piece ∈ split sep s → occurs sep piece = false.
Proof.
  revert piece. induction s as [|c s IH]; intros piece; cbn [split].
  - by intros ->%list_elem_of_singleton.
  - destruct (Ascii.eqb c sep) eqn:Hc.
    + intros [->|Hp]%elem_of_cons; [done|by apply IH].
    + destruct (split sep s) as [|p ps].
      * intros ->%list_elem_of_singleton. cbn [occurs]. by rewrite Hc.
      * intros [->|Hp]%elem_of_cons.
        -- cbn [occurs]. rewrite Hc. apply IH. by left.
        -- apply IH. by right.
Qed.

Lemma occurs_clean_column c col :
  occurs c col = false → occurs c (clean_column col) = false.
Proof.
  intros Hc%occurs_strip. unfold clean_column.
  destruct (contains " as " (lower (strip col))).
  { by apply occurs_strip, occurs_before. }
  destruct (contains " " (strip col)); [|done].
  destruct (split_whitespace (strip col)) as [|part [|part' parts]] eqn:Hws;
    [done..|].
  destruct (String.eqb part "*"); [done|].
  apply (occurs_split_whitespace _ (strip col)); [done|].
  rewrite Hws. by left.
Qed.

Lemma contains_char c s : contains (String c "") s = occurs c s.
Proof.
  induction s as [|c' s IH]; [done|]. cbn [contains occurs String.prefix].
  rewrite IH. destruct (ascii_dec c c') as [->|Hne].
  - rewrite (proj2 (Ascii.eqb_eq c' c')) by done. by destruct s.
  - destruct (Ascii.eqb c' c) eqn:Heq; [|done].
    apply Ascii.eqb_eq in Heq. congruence.
Qed.

Lemma elem_of_select_list column_text c :
  c ∈ select_list column_text →
  c ≠ "" ∧ c ≠ "*" ∧ contains "," c = false.
Proof.
  unfold select_list.
  intros [[? ?] (piece & -> & Hp)%list_elem_of_fmap]%list_elem_of_filter.
  split_and!; [done..|]. rewrite contains_char.
  by eapply occurs_clean_column, occurs_split.
Qed.

Lemma elem_of_scan_tokens in_select tokens c :
  c ∈ scan_tokens in_select tokens →
  ∃ token, token ∈ tokens ∧ Token.ttype token = None ∧
           c ∈ select_list (Token.value token).
Proof.
  revert in_select. induction tokens as [|token tokens IH]; intros in_select;
    cbn [scan_tokens]; [by intros ?%not_elem_of_nil|].
  assert (∀ b, c ∈ scan_tokens b tokens →
    ∃ token0, token0 ∈ token :: tokens ∧ Token.ttype token0 = None ∧
              c ∈ select_list (Token.value token0)) as Hrest.
  { intros b (token0 & ? & ? & ?)%IH. exists token0. split; [by right|done]. }
  destruct (_ && _); [by apply Hrest|].
  destruct (_ && _).
  { destruct (bool_decide _); [by intros ?%not_elem_of_nil|by apply Hrest]. }
  destruct in_select; cbn [andb]; [|by apply Hrest].
  case_bool_decide as Hnone; [|by apply Hrest].
  intros Hc. exists token. split; [by left|done].
Qed.

Lemma scan_tokens_no_select tokens :
  (∀ token, token ∈ tokens →
     ¬ (Token.ttype token = Some DML ∧ upper (Token.value token) = "SELECT")) →
  scan_tokens false tokens = [].
Proof.
  induction tokens as [|token tokens IH]; intros Hno; [done|].
  cbn [scan_tokens andb].
  destruct (bool_decide _ && _) eqn:Hsel.
  - apply andb_true_iff in Hsel as [Hdml%bool_decide_eq_true Hval%String.eqb_eq].
    destruct (Hno token); [by left|done].
  - apply IH. intros token' Hin. apply Hno. by right.
Qed.

(** X15. What [extract_columns] returns.  At most 20 columns; each is an item
    of the select list of a group token, cleaned: none is empty, none is
    ["*"], none contains a comma (the text of the group is cut at every
    comma, also inside a call).  Without a [SELECT] token nothing is
    returned. *)
Theorem extract_columns_shape tokens :
  length (extract_columns tokens) ≤ 20 ∧
  (∀ c, c ∈ extract_columns tokens →
     c ≠ "" ∧ c ≠ "*" ∧ contains "," c = false ∧
     ∃ token, token ∈ tokens ∧ Token.ttype token = None ∧
              c ∈ select_list (Token.value token)) ∧
  ((∀ token, token ∈ tokens →
      ¬ (Token.ttype token = Some DML ∧
         upper (Token.value token) = "SELECT")) →
   extract_columns tokens = []).
Proof.
  unfold extract_columns. split_and!.
  - rewrite length_take. lia.
  - intros c Hc%subseteq_take.
    destruct (elem_of_scan_tokens _ _ _ Hc) as (token & Hin & Hnone & Hsel).
    destruct (elem_of_select_list _ _ Hsel) as (? & ? & ?).
    split_and!; [done..|]. by exists token.
  - intros Hno. by rewrite scan_tokens_no_select.
Qed.

Lemma extract_columns_shape_witness :
  (∀ c, c ∈ extract_columns
              [select_token; group_token "COALESCE(a, b), c"] →
        contains "," c = false) ∧
  extract_columns [group_token "a, b"] = [].
Proof.
  split.
  - intros c Hc.
    by apply (extract_columns_shape
                [select_token; group_token "COALESCE(a, b), c"]).
  - apply extract_columns_shape.
    by intros token ->%list_elem_of_singleton [Hdml _].
Defined.

(** ** Aliases in the select list *)

Lemma append_cons c s1 s2 : String c s1 +:+ s2 = String c (s1 +:+ s2).
Proof. reflexivity. Qed.

Lemma append_nil_l s : "" +:+ s = s.
Proof. reflexivity. Qed.

Lemma append_nil_r s : s +:+ "" = s.
Proof. induction s as [|c s IH]; [done|]. by rewrite append_cons, IH. Qed.

Lemma append_assoc s1 s2 s3 : s1 +:+ (s2 +:+ s3) = (s1 +:+ s2) +:+ s3.
Proof.
  induction s1 as [|c s1 IH]; [done|]. by rewrite !append_cons, IH.
Qed.

Lemma map_chars_app f s1 s2 :
  map_chars f (s1 +:+ s2) = map_chars f s1 +:+ map_chars f s2.
Proof.
  induction s1 as [|c s1 IH]; [done|].
  rewrite append_cons. cbn [map_chars]. by rewrite IH, append_cons.
Qed.

Lemma prefix_app pat s : String.prefix pat (pat +:+ s) = true.
Proof.
  induction pat as [|c pat IH]; [by destruct s|].
  rewrite append_cons. cbn [String.prefix].
  by destruct (ascii_dec c c).
Qed.

Lemma contains_prefix pat s : String.prefix pat s = true → contains pat s = true.
Proof. intros Hp. destruct s; cbn [contains]; by rewrite Hp. Qed.

Lemma contains_app pat s1 s2 : contains pat (s1 +:+ pat +:+ s2) = true.
Proof.
  induction s1 as [|c s1 IH].
  - rewrite append_nil_l. apply contains_prefix, prefix_app.
  - rewrite append_cons. cbn [contains]. rewrite IH. by rewrite orb_true_r.
Qed.

Lemma occurs_app c s1 s2 :
  occurs c (s1 +:+ s2) = occurs c s1 || occurs c s2.
Proof.
  induction s1 as [|c' s1 IH]; [done|].
  rewrite append_cons. cbn [occurs]. by rewrite IH, orb_assoc.
Qed.

Lemma plain_cons c s :
  plain (String c s) = true →
  isspace c = false ∧ Ascii.eqb c "," = false ∧ plain s = true.
Proof.
  cbn [plain].
  by intros [[?%negb_true_iff ?%negb_true_iff]%andb_true_iff ?]%andb_true_iff.
Qed.

Lemma plain_no_comma s : plain s = true → occurs "," s = false.
Proof.
  induction s as [|c s IH]; [done|].
  intros (_ & Hc & Hs)%plain_cons. cbn [occurs]. by rewrite Hc, IH.
Qed.

Lemma split_no_sep sep s : occurs sep s = false → split sep s = [s].
Proof.
  induction s as [|c s IH]; [done|]. cbn [occurs split].
  intros [-> Hs]%orb_false_iff. by rewrite IH.
Qed.

Lemma prefix_space_plain pat c s :
  isspace c = false → String.prefix (String " " pat) (String c s) = false.
Proof.
  intros Hc. cbn [String.prefix]. destruct (ascii_dec " " c) as [<-|]; done.
Qed.

Lemma before_plain pat s1 s2 :
  plain s1 = true →
  before (String " " pat) (s1 +:+ s2) = s1 +:+ before (String " " pat) s2.
Proof.
  induction s1 as [|c s1 IH]; [done|].
  intros (Hc & _ & Hs)%plain_cons. rewrite !append_cons.
  cbn [before]. rewrite prefix_space_plain by done. by rewrite IH.
Qed.

Lemma lstrip_plain s1 s2 :
  plain s1 = true → s1 ≠ "" → lstrip (s1 +:+ s2) = s1 +:+ s2.
Proof.
  destruct s1 as [|c s1]; [done|].
  intros (Hc & _ & _)%plain_cons _. rewrite append_cons. cbn [lstrip].
  by rewrite Hc.
Qed.

Lemma rstrip_plain s : plain s = true → rstrip s = s.
Proof.
  induction s as [|c s IH]; [done|].
  intros (Hc & _ & Hs)%plain_cons. cbn [rstrip].
  rewrite IH by done. destruct s; [by rewrite Hc|done].
Qed.

Lemma rstrip_app s1 s2 :
  plain s2 = true → s2 ≠ "" → rstrip (s1 +:+ s2) = s1 +:+ s2.
Proof.
  intros Hp Hne. induction s1 as [|c s1 IH]; [by apply rstrip_plain|].
  rewrite append_cons. cbn [rstrip]. rewrite IH.
  destruct (s1 +:+ s2) eqn:Heq; [|done].
  destruct s1, s2; done.
Qed.

Lemma strip_plain s : plain s = true → strip s = s.
Proof.
  intros Hp. unfold strip. destruct s as [|c s]; [done|].
  rewrite <-(append_nil_r (String c s)) at 1.
  rewrite lstrip_plain, append_nil_r by done. by apply rstrip_plain.
Qed.

Lemma strip_words s1 s2 s3 :
  plain s1 = true → s1 ≠ "" → plain s3 = true → s3 ≠ "" →
  strip (s1 +:+ s2 +:+ s3) = s1 +:+ s2 +:+ s3.
Proof.
  intros. unfold strip. rewrite lstrip_plain by done.
  rewrite append_assoc. by apply rstrip_app.
Qed.

Lemma prefix_as_plain s : plain s = true → String.prefix "as " s = false.
Proof.
  destruct s as [|c1 [|c2 [|c3 s]]]; try done; cbn [String.prefix].
  - by destruct (ascii_dec "a" c1).
  - destruct (ascii_dec "a" c1); [|done]. by destruct (ascii_dec "s" c2).
  - intros (_ & _ & (_ & _ & (Hc & _ & _)%plain_cons)%plain_cons)%plain_cons.
    destruct (ascii_dec "a" c1); [|done].
    destruct (ascii_dec "s" c2); [|done].
    destruct (ascii_dec " " c3) as [<-|]; done.
Qed.

Lemma before_space_plain pat s :
  plain s = true → before (String " " pat) s = s.
Proof.
  intros Hp. rewrite <-(append_nil_r s) at 1.
  rewrite before_plain by done. cbn [before String.prefix].
  by rewrite append_nil_r.
Qed.

Lemma before_prefix pat s : String.prefix pat s = true → before pat s = "".
Proof. intros Hp. destruct s; cbn [before]; by rewrite Hp. Qed.

Lemma scan_select_list text :
  extract_columns [select_token; group_token text] =
  take 20 (select_list text).
Proof. reflexivity. Qed.

(** X16. The alias of a select item [a as b] is removed only when the keyword
    is written in lower case.  The test for an alias is made on the lowered
    text, the cut on the text itself: of [a as b] the column [a] is returned,
    of [a AS b] the whole item with its alias. *)
Theorem alias_keyword_case a b :
  plain a = true → plain b = true → a ≠ "" → b ≠ "" → a ≠ "*" →
  extract_columns [select_token; group_token (a +:+ " as " +:+ b)] = [a] ∧
  extract_columns [select_token; group_token (a +:+ " AS " +:+ b)]
    = [a +:+ " AS " +:+ b].
Proof.
  intros Ha Hb Hane Hbne Hstar.
  assert (∀ kw, occurs "," kw = false →
            split "," (a +:+ kw +:+ b) = [a +:+ kw +:+ b]) as Hsplit.
  { intros kw Hkw. apply split_no_sep.
    by rewrite !occurs_app, (plain_no_comma a), (plain_no_comma b), Hkw. }
  rewrite !scan_select_list. unfold select_list.
  rewrite !Hsplit by done. cbn [fmap list_fmap]. unfold clean_column.
  rewrite !strip_words by done.
  unfold lower. rewrite !map_chars_app.
  change (map_chars lower_char " as ") with " as ".
  change (map_chars lower_char " AS ") with " as ".
  rewrite !contains_app, !(before_plain _ a) by done.
  split.
  - rewrite before_prefix by apply prefix_app.
    rewrite append_nil_r, strip_plain by done.
    by rewrite filter_cons_True.
  - assert (before " as " (" AS " +:+ b) = " AS " +:+ b) as ->.
    { change (" AS " +:+ b) with (String " " (String "A" (String "S" (String " " b)))).
      cbn [before String.prefix].
      destruct (ascii_dec "a" "A"); [done|].
      destruct (ascii_dec " " "A"); [done|].
      destruct (ascii_dec " " "S"); [done|].
      destruct (ascii_dec " " " "); [|done].
      rewrite prefix_as_plain by done.
      by rewrite before_space_plain. }
    rewrite strip_words by done.
    rewrite filter_cons_True; [done|].
    split; intros Heq; apply (f_equal String.length) in Heq;
      rewrite !length_append in Heq; simpl in Heq; lia.
Qed.

Lemma alias_keyword_case_witness :
  extract_columns [select_token; group_token "name as n"] = ["name"] ∧
  extract_columns [select_token; group_token "name AS n"] = ["name AS n"].
Proof. by apply (alias_keyword_case "name" "n"). Defined.

(** ** The validator *)

Lemma token_first_Some tokens token :
  token_first tokens = Some token ↔
  ∃ spaces rest, tokens = spaces ++ token :: rest ∧
    Forall (λ t, is_whitespace t = true) spaces ∧
    is_whitespace token = false.
Proof.
  induction tokens as [|t tokens IH]; cbn [token_first].
  - split; [done|]. by intros ([|??] & ? & ? & _).
  - destruct (is_whitespace t) eqn:Hws.
    + rewrite IH. split.
      * intros (spaces & rest & -> & Hall & Hno).
        exists (t :: spaces), rest. split; [done|]. split; [|done].
        by constructor.
      * intros ([|t' spaces] & rest & Heq & Hall & Hno); simplify_eq/=;
          [congruence|].
        apply Forall_cons in Hall as [_ Hall]. by exists spaces, rest.
    + split.
      * intros [= ->]. by exists [], tokens.
      * intros ([|t' spaces] & rest & Heq & Hall & Hno); simplify_eq/=;
          [done|].
        apply Forall_cons in Hall as [Ht _]. congruence.
Qed.

(** X17. What the validator looks at.  Only the first statement is examined,
    and of it only the first token that is not whitespace: a query is
    accepted exactly when that token reads [SELECT] in upper case.  The
    statements that follow the first are never looked at, whatever they are;
    an accepted query carries no message and a rejected one always does. *)
Theorem validate_sql_first_token parsed :
  (validate_sql parsed = (true, None) ↔
   ∃ spaces token rest statements,
     parsed = (spaces ++ token :: rest) :: statements ∧
     Forall (λ t, is_whitespace t = true) spaces ∧
     is_whitespace token = false ∧
     upper (Token.value token) = "SELECT") ∧
  (∀ statement statements statements',
     parsed = statement :: statements →
     validate_sql (statement :: statements') = validate_sql parsed) ∧
  ((validate_sql parsed).1 = false → is_Some (validate_sql parsed).2).
Proof.
  split_and!.
  - destruct parsed as [|statement statements]; cbn [validate_sql].
    { split; [done|]. by intros (? & ? & ? & ? & ? & _). }
    destruct (token_first statement) as [first_token|] eqn:Hfirst.
    + apply token_first_Some in Hfirst as (spaces & rest & -> & Hall & Hno).
      destruct (String.eqb _ _) eqn:Hsel.
      * apply String.eqb_eq in Hsel. split; [|done]. intros _.
        by exists spaces, first_token, rest, statements.
      * split; [done|].
        intros (spaces' & token & rest' & ? & [= Heq <-] & Hall' & Hno' & Hval).
        assert (token_first (spaces ++ first_token :: rest) = Some token) as H
          by (rewrite Heq; apply token_first_Some; by exists spaces', rest').
        assert (token_first (spaces ++ first_token :: rest) = Some first_token)
          as H' by (apply token_first_Some; by exists spaces, rest).
        rewrite H in H'. injection H' as ->.
        apply String.eqb_neq in Hsel. done.
    + split; [done|].
      intros (spaces & token & rest & ? & [= -> <-] & Hall & Hno & _).
      assert (token_first (spaces ++ token :: rest) = Some token) as H
        by (apply token_first_Some; by exists spaces, rest).
      congruence.
  - by intros statement statements statements' ->.
  - destruct parsed as [|statement statements]; cbn [validate_sql];
      [by eauto|].
    destruct (token_first statement); [|by eauto].
    destruct (String.eqb _ _); [done|by eauto].
Qed.

Lemma validate_sql_first_token_witness :
  validate_sql [[space_token; select_token]; [drop_token]] = (true, None).
Proof.
  apply validate_sql_first_token.
  exists [space_token], select_token, [], [[drop_token]].
  split_and!; [done| |done..]. by constructor.
Defined.
